(** * Haystack evaluation engine: a shallow embedding of evaluation-engine.js

    The engine filters a record collection, orders it (sort or seeded
    shuffle), cuts it to a selection count, places records on a square
    grid, tracks per-record scores and skips, and snapshots the session
    into one localStorage slot.

    Conventions of the embedding.
    - JavaScript numbers that the engine manipulates are integers; they are
      [Z].  The two places where the source multiplies by a fraction
      ([length * 0.9], [random() * n]) go through [Float.fl], the IEEE-754
      binary64 rounding of a non-negative integer significand.
    - [Date.now()] and [Math.random()] read from oracles kept in the
      [World]; every behaviour of the clock and of the random source is some
      oracle.
    - Record objects live in a heap ([list Candidate], a reference is an
      index) because [loadSession] writes into the caller's records.
    - Arrays are lists passed by value, except in [Shuffle], where the
      in-place Fisher-Yates pass works on an array store.
    - Text is a [string] whose characters are the code units of the
      JavaScript string, each below 256.
    - [localStorage] is the single slot ['haystack_eval_session']; storage
      operations are modelled in the case where they do not throw and the
      slot holds a well-formed snapshot. *)

From Stdlib Require Import ZArith Lia Ascii String.
From Stdlib Require Import DecimalString DecimalZ DecimalPos.
From stdpp Require Import gmap strings list fin_maps sorting.

Local Open Scope Z_scope.

(* ================================================================== *)
(** * binary64 rounding and 32-bit integer operations                  *)
(* ================================================================== *)

Module Float.

(** Nearest integer with at most 53 significant bits, ties to even: the
    binary64 rounding of an integer-valued exact result (no overflow). *)
Definition fl_nonneg (p : Z) : Z :=
  let d := Z.log2 p - 52 in
  if d <=? 0 then p
  else
    let q := p / 2 ^ d in
    let r := p mod 2 ^ d in
    let h := 2 ^ (d - 1) in
    if (r <? h) || ((r =? h) && Z.even q) then q * 2 ^ d
    else (q + 1) * 2 ^ d.

Definition fl (z : Z) : Z :=
  if z <? 0 then - fl_nonneg (- z) else fl_nonneg z.

(** The binary64 literal [0.9] is [point9 / 2^53]. *)
Definition point9 : Z := 8106479329266893.

(** [n * 0.9], scaled by 2^53. *)
Definition times_point9 (n : Z) : Z := fl (n * point9).

(** [Math.floor(r * n)] where the double [r] is [num / 2^k]. *)
Definition floor_mul (k num n : Z) : Z := fl (num * n) / 2 ^ k.

Definition toUint32 (z : Z) : Z := z mod 2 ^ 32.
Definition toInt32 (z : Z) : Z := (z + 2 ^ 31) mod 2 ^ 32 - 2 ^ 31.

(** [a ^ b], [a | b], [a >>> n], [Math.imul(a, b)] *)
Definition xor32 (a b : Z) : Z := toInt32 (Z.lxor (toInt32 a) (toInt32 b)).
Definition or32 (a b : Z) : Z := toInt32 (Z.lor (toInt32 a) (toInt32 b)).
Definition ushr32 (a n : Z) : Z := Z.shiftr (toUint32 a) n.
Definition imul (a b : Z) : Z := toInt32 (toInt32 a * toInt32 b).

End Float.

(* ================================================================== *)
(** * JavaScript values and conversions                                *)
(* ================================================================== *)

Module Js.

(** The values a record field or a score argument takes.  [VNum n] is the
    integer-valued number [n]; it is a JavaScript number when [n] is a
    double ([isDouble] below). *)
Inductive JsVal : Type :=
| VUndefined
| VNull
| VNaN
| VNum (n : Z)
| VStr (s : string).

#[export] Instance JsVal_eq_dec : EqDecision JsVal.
Proof. solve_decision. Defined.

(** [n] is a double: at most 53 significant bits, and below 2^1024. *)
Definition isDouble (n : Z) : Prop :=
  Float.fl n = n /\ Z.abs n < 2 ^ 1024.

(** [v === '' || v === undefined || v === null] *)
Definition isEmpty (v : JsVal) : bool :=
  match v with
  | VStr EmptyString | VUndefined | VNull => true
  | _ => false
  end.

(** WhiteSpace and LineTerminator code points below 256: tab, line feed,
    vertical tab, form feed, carriage return, space and no-break space. *)
Definition is_ws (c : ascii) : bool :=
  let n := nat_of_ascii c in
  ((9 <=? n) && (n <=? 13))%nat || (n =? 32)%nat || (n =? 160)%nat.

Fixpoint skip_ws (s : string) : string :=
  match s with
  | String c s' => if is_ws c then skip_ws s' else s
  | EmptyString => EmptyString
  end.

(** [s.trim() !== ''] : some character is not white space. *)
Definition trim_nonempty (s : string) : bool :=
  match skip_ws s with EmptyString => false | _ => true end.

(** The value of [c] as a digit in [radix], if it is one. *)
Definition digit_val (radix : Z) (c : ascii) : option Z :=
  let n := Z.of_nat (nat_of_ascii c) in
  let v := if (48 <=? n) && (n <=? 57) then Some (n - 48)
           else if (97 <=? n) && (n <=? 122) then Some (n - 87)
           else if (65 <=? n) && (n <=? 90) then Some (n - 55)
           else None in
  match v with
  | Some d => if d <? radix then Some d else None
  | None => None
  end.

(** Longest prefix of radix digits, as a number; [acc] is [None] until a
    digit has been read. *)
Fixpoint digits_prefix (radix : Z) (s : string) (acc : option Z) : option Z :=
  match s with
  | EmptyString => acc
  | String c s' =>
      match digit_val radix c with
      | Some d => digits_prefix radix s' (Some (default 0 acc * radix + d))
      | None => acc
      end
  end.

(** The integer that [parseInt(s)] reads, with no radix argument: leading
    white space, a sign, an optional [0x]/[0X], then digits; [None] is
    NaN. *)
Definition parseIntStr (s : string) : option Z :=
  let s1 := skip_ws s in
  let '(sign, s2) :=
    match s1 with
    | String "-" r => (-1, r)
    | String "+" r => (1, r)
    | _ => (1, s1)
    end in
  let '(radix, s3) :=
    match s2 with
    | String "0" (String "x" r) => (16, r)
    | String "0" (String "X" r) => (16, r)
    | _ => (10, s2)
    end in
  (fun m => sign * m) <$> digits_prefix radix s3 None.

(** The decimal numeral of an integer, with all its digits: what
    Number-to-string gives for an integer of magnitude below 2^53. *)
Definition numToString (z : Z) : string :=
  NilZero.string_of_int (Z.to_int z).

(** [m] zeros. *)
Fixpoint zeros (m : nat) : string :=
  match m with
  | O => EmptyString
  | S m' => String "0" (zeros m')
  end.

(** Number-to-string looks for the fewest digits [s] and a position with
    [s * 10^p] rounding to the number [x].  With [k] digits the two
    candidates are the neighbours of [x] among the multiples of [10^p];
    of two that round to [x] the nearer is taken.  The result is the pair
    [(s, p)]. *)
Definition digitsAt (x k : Z) : option (Z * Z) :=
  let p := Z.of_nat (String.length (numToString x)) - k in
  if p <? 0 then None
  else
    let lo := x / 10 ^ p in
    let hi := lo + 1 in
    let ok c := Float.fl (c * 10 ^ p) =? x in
    let pick c := if c =? 10 ^ k then (10 ^ (k - 1), p + 1) else (c, p) in
    match ok lo, ok hi with
    | true, true =>
        let dlo := x - lo * 10 ^ p in
        let dhi := hi * 10 ^ p - x in
        Some (pick (if dlo <? dhi then lo
                    else if dhi <? dlo then hi
                    else if Z.even lo then lo else hi))
    | true, false => Some (pick lo)
    | false, true => Some (pick hi)
    | false, false => None
    end.

(** The search from [k] digits upwards; seventeen digits are enough for a
    double, and the last case is not reached for one. *)
Fixpoint shortestFrom (fuel : nat) (x k : Z) : Z * Z :=
  match fuel with
  | O => (x, 0)
  | S fuel' =>
      match digitsAt x k with
      | Some r => r
      | None => shortestFrom fuel' x (k + 1)
      end
  end.

(** The exponent form [d.ddde+n] of the digits [s] at position [p]. *)
Definition expForm (s p : Z) : string :=
  match numToString s with
  | String d rest =>
      String d (match rest with
                | EmptyString => EmptyString
                | _ => String "." rest
                end)
      +:+ String "e" (String "+"
            (numToString (Z.of_nat (String.length rest) + p)))
  | EmptyString => EmptyString
  end.

(** Number-to-string of an integer-valued number: below 10^21 the digits
    followed by zeros, from 10^21 on the exponent form. *)
Definition numberToString (z : Z) : string :=
  let '(s, p) := shortestFrom 17 (Z.abs z) 1 in
  (if z <? 0 then String "-" EmptyString else EmptyString)
  +:+ (if Z.abs z <? 10 ^ 21 then numToString s +:+ zeros (Z.to_nat p)
       else expForm s p).

(** The first digit of the exponent form of [z]. *)
Definition expDigit (z : Z) : Z :=
  match numToString (shortestFrom 17 (Z.abs z) 1).1 with
  | String d _ => default 0 (digit_val 10 d)
  | EmptyString => 0
  end.

(** [parseInt(v)]: the argument is converted to a string first, and the
    integer read from the string is rounded to a double.  (Digits after
    the twentieth, which an implementation may read as 0, are read as
    they are.) *)
Definition parseInt (v : JsVal) : option Z :=
  Float.fl <$>
    match v with
    | VNum n => parseIntStr (numberToString n)
    | VStr s => parseIntStr s
    | VUndefined | VNull | VNaN => None
    end.

(** What a value becomes through [JSON.stringify] and [JSON.parse] as an
    object property: NaN is written as [null], a property holding
    [undefined] is dropped and reads back as [undefined]. *)
Definition jsonVal (v : JsVal) : JsVal :=
  match v with VNaN => VNull | _ => v end.

(** [s.split(',')] *)
Fixpoint split_go (sep : ascii) (cur : string) (s : string) : list string :=
  match s with
  | EmptyString => [String.rev cur]
  | String c s' =>
      if Ascii.eqb c sep then String.rev cur :: split_go sep EmptyString s'
      else split_go sep (String c cur) s'
  end.
Definition split (sep : ascii) (s : string) : list string :=
  split_go sep EmptyString s.

End Js.

(* ================================================================== *)
(** * Records, options and the filter pipeline                         *)
(* ================================================================== *)

(** A grid coordinate [{row, col}]. *)
Record Cell : Type := mkCell { row : Z; col : Z }.

#[export] Instance Cell_eq_dec : EqDecision Cell.
Proof. solve_decision. Defined.

(** A record object, with the fields the engine reads or writes.
    [gridRow]/[gridCol] are written together by the engine, so the record
    carries one optional cell ([None]: both undefined). *)
Record Candidate : Type := mkCandidate {
  ID_xA : string;
  Node_xA : string;
  Group_xA : string;
  Rank_xB : Js.JsVal;
  AI_Rank_xB : Js.JsVal;
  Root1_xB : string;
  Root2_xB : string;
  Root3_xB : string;
  Class1_xB : string;
  Class2_xB : string;
  Class3_xB : string;
  gridCell : option Cell
  }.

Definition gridRow (c : Candidate) : option Z := row <$> gridCell c.
Definition gridCol (c : Candidate) : option Z := col <$> gridCell c.

(** [{ min, max }]; a missing bound is [undefined]. *)
Record Threshold : Type := mkThreshold { th_min : option Z; th_max : option Z }.

Module Opt.

(** The options object after the merge with the defaults. *)
Record Options : Type := mkOptions {
  selectionCount : Z;
  batchSize : Z;
  selectionMethod : string;
  rankFilter : string;
  aiScoreThreshold : option Threshold;
  groupFilter : option (list string);
  randomSeed : option Z
  }.

(** The options object a caller passes: [None] is a key that is absent. *)
Record UserOptions : Type := mkUserOptions {
  u_selectionCount : option Z;
  u_batchSize : option Z;
  u_selectionMethod : option string;
  u_rankFilter : option string;
  u_aiScoreThreshold : option (option Threshold);
  u_groupFilter : option (option (list string));
  u_randomSeed : option (option Z)
  }.

End Opt.
Abbreviation Options := Opt.Options.
Abbreviation UserOptions := Opt.UserOptions.

Definition GRID_SIZE : Z := 3.
Definition GRID_CAPACITY : Z := GRID_SIZE * GRID_SIZE.

Definition DEFAULT_SESSION_OPTIONS : Options :=
  {| Opt.selectionCount := 50;
     Opt.batchSize := GRID_CAPACITY;
     Opt.selectionMethod := "top-ai";
     Opt.rankFilter := "unranked";
     Opt.aiScoreThreshold := Some {| th_min := Some 0; th_max := Some 100 |};
     Opt.groupFilter := None;
     Opt.randomSeed := None |}.

(** [Object.assign({}, DEFAULT_SESSION_OPTIONS, options || {})] *)
Definition mergeOptions (o : option UserOptions) : Options :=
  let d := DEFAULT_SESSION_OPTIONS in
  match o with
  | None => d
  | Some u =>
      {| Opt.selectionCount := default (Opt.selectionCount d) (Opt.u_selectionCount u);
         Opt.batchSize := default (Opt.batchSize d) (Opt.u_batchSize u);
         Opt.selectionMethod := default (Opt.selectionMethod d) (Opt.u_selectionMethod u);
         Opt.rankFilter := default (Opt.rankFilter d) (Opt.u_rankFilter u);
         Opt.aiScoreThreshold := default (Opt.aiScoreThreshold d) (Opt.u_aiScoreThreshold u);
         Opt.groupFilter := default (Opt.groupFilter d) (Opt.u_groupFilter u);
         Opt.randomSeed := default (Opt.randomSeed d) (Opt.u_randomSeed u) |}
  end.

(** [a.slice(0, e)]: a negative end counts from the back. *)
Definition slice0 {A} (e : Z) (l : list A) : list A :=
  if e <? 0 then take (Z.to_nat (Z.of_nat (length l) + e)) l
  else take (Z.to_nat e) l.

(** [a.sort(cmp)]: the stable sort, for a comparator that is a difference
    of integer keys. *)
Fixpoint sort_insert {A} (cmp : A -> A -> Z) (x : A) (l : list A) : list A :=
  match l with
  | [] => [x]
  | y :: l' => if cmp x y <=? 0 then x :: l else y :: sort_insert cmp x l'
  end.
Definition js_sort {A} (cmp : A -> A -> Z) (l : list A) : list A :=
  foldr (sort_insert cmp) [] l.

Module Filter.
Section Pipeline.
(** The arrays hold references; [rd] reads the object behind one. *)
Context {A : Type} (rd : A -> Candidate).

Definition applyGroupFilter (candidates : list A)
    (groupFilter : option (list string)) : list A :=
  match groupFilter with
  | None | Some [] => candidates
  | Some gs =>
      let groupSet : gset string := list_to_set gs in
      filter (fun c => Group_xA (rd c) ∈ groupSet) candidates
  end.

Definition applyRankFilter (candidates : list A) (rankFilter : string)
    : list A :=
  if String.eqb rankFilter "unranked" then
    filter (fun c => Js.isEmpty (Rank_xB (rd c)) = true) candidates
  else if String.eqb rankFilter "ranked" then
    filter (fun c => Js.isEmpty (Rank_xB (rd c)) = false) candidates
  else candidates.

(** The predicate of the filter in [applyAIScoreThreshold]. *)
Definition scoreInThreshold (min max : Z) (aiRank : Js.JsVal) : bool :=
  let isFullRange := (min =? 0) && (max =? 100) in
  if Js.isEmpty aiRank then isFullRange
  else
    match Js.parseInt aiRank with
    | Some value => (min <=? value) && (value <=? max)
    | None => false
    end.

Definition applyAIScoreThreshold (candidates : list A)
    (threshold : option Threshold) : list A :=
  match threshold with
  | None => candidates
  | Some t =>
      let min := default 0 (th_min t) in
      let max := default 100 (th_max t) in
      filter (fun c => scoreInThreshold min max (AI_Rank_xB (rd c)) = true)
             candidates
  end.

(** Steps 1 to 4 of [filterCandidates]. *)
Definition eligible (allCandidates : list A) (options : Options) : list A :=
  let candidates :=
    filter (fun c => Js.trim_nonempty (Node_xA (rd c)) = true)
           allCandidates in
  let candidates := applyGroupFilter candidates (Opt.groupFilter options) in
  let candidates := applyRankFilter candidates (Opt.rankFilter options) in
  applyAIScoreThreshold candidates (Opt.aiScoreThreshold options).

Definition countEligibleCandidates (allCandidates : list A)
    (options : Options) : nat :=
  length (eligible allCandidates options).

(** [parseInt(a.AI_Rank_xB) || 0] *)
Definition rankKey (c : A) : Z := default 0 (Js.parseInt (AI_Rank_xB (rd c))).

End Pipeline.
End Filter.

(* ================================================================== *)
(** * Selection policy: sort or seeded shuffle                         *)
(* ================================================================== *)

Module Shuffle.
Section Arrays.
Context {A : Type} (rd : A -> Candidate).

(** The array store is a [list (list A)]: a reference to an array is its
    index in the store. *)

(** [a[i]] and [a[i] = x] on the array behind reference [a]. *)
Definition aget (st : list (list A)) (a i : nat) : option A :=
  st !! a ≫= fun arr => arr !! i.
Definition aset (st : list (list A)) (a i : nat) (x : A) : list (list A) :=
  alter (fun arr => <[i := x]> arr) a st.

(** One call of the generator returned by [mulberry32]: the captured
    [seed] after the call, and the 32-bit numerator of the result (the
    result is that numerator divided by 4294967296). *)
Definition mulberry32 (seed : Z) : Z * Z :=
  let seed := Float.fl (seed + 0x6D2B79F5) in
  let t := seed in
  let t := Float.imul (Float.xor32 t (Float.ushr32 t 15)) (Float.or32 t 1) in
  let t := Float.xor32 t
             (t + Float.imul (Float.xor32 t (Float.ushr32 t 7))
                             (Float.or32 t 61)) in
  (seed, Float.toUint32 (Float.xor32 t (Float.ushr32 t 14))).

(** The loop of [seededShuffle], from index [i] down to 1. *)
Fixpoint shuffle_from (i : nat) (seed : Z) (st : list (list A)) (array : nat)
    : list (list A) :=
  match i with
  | O => st
  | S i' =>
      let '(seed, u) := mulberry32 seed in
      let j := Z.to_nat (Float.floor_mul 32 u (Z.of_nat i + 1)) in
      let st :=
        match aget st array i, aget st array j with
        | Some temp, Some aj => aset (aset st array i aj) array j temp
        | _, _ => st
        end in
      shuffle_from i' seed st array
  end.

(** [seededShuffle(array, seed)]; [now] is what [Date.now()] returns when
    the seed is missing.  The array is shuffled in place. *)
Definition seededShuffle (now : Z) (st : list (list A)) (array : nat)
    (seed : option Z) : list (list A) :=
  let seed := default now seed in
  shuffle_from (length (default [] (st !! array)) - 1) seed st array.

(** [applySelectionMethod(candidates, method, seed)]: the reference of the
    result and the store after the call. *)
Definition applySelectionMethod (now : Z) (st : list (list A)) (candidates : nat)
    (method : string) (seed : option Z) : nat * list (list A) :=
  let result := length st in
  let st := st ++ [default [] (st !! candidates)] in
  if String.eqb method "top-ai" then
    (result,
     alter (js_sort (fun a b => Filter.rankKey rd b - Filter.rankKey rd a))
           result st)
  else if String.eqb method "bottom-ai" then
    (result,
     alter (js_sort (fun a b => Filter.rankKey rd a - Filter.rankKey rd b))
           result st)
  else if String.eqb method "random" then
    (result, seededShuffle now st result seed)
  else (result, st).

(** The ordered array as a value: the call run on a store that holds only
    the argument. *)
Definition ordered (now : Z) (candidates : list A) (method : string)
    (seed : option Z) : list A :=
  let '(result, st) := applySelectionMethod now [candidates] 0 method seed in
  default [] (st !! result).

(** [filterCandidates(allCandidates, options)] *)
Definition filterCandidates (now : Z) (allCandidates : list A)
    (options : Options) : list A :=
  let candidates := Filter.eligible rd allCandidates options in
  let candidates :=
    ordered now candidates (Opt.selectionMethod options) (Opt.randomSeed options) in
  slice0 (Z.min (Opt.selectionCount options) (Z.of_nat (length candidates)))
         candidates.

End Arrays.
End Shuffle.

(* ================================================================== *)
(** * Grid allocator                                                   *)
(* ================================================================== *)

(** The grid object: [cells] maps the key ["row,col"] to a record id. *)
Record Grid : Type := mkGrid {
  cells : gmap string string;
  availableCells : list Cell;
  cellSize : Z * Z;
  spacing : Z
}.

(** [row + ',' + col] *)
Definition cellKey (row col : Z) : string :=
  Js.numToString row +:+ "," +:+ Js.numToString col.
Definition keyOf (c : Cell) : string := cellKey (row c) (col c).

(** The coordinates of a [size] by [size] grid, row by row. *)
Definition allCells (size : Z) : list Cell :=
  r ← seqZ 0 size; c ← seqZ 0 size; [mkCell r c].

(** [initGrid()], for a grid constant [size]. *)
Definition initGridOf (size : Z) : Grid :=
  {| cells := ∅;
     availableCells := allCells size;
     cellSize := (140, 100);
     spacing := 10 |}.
Definition initGrid : Grid := initGridOf GRID_SIZE.

(** [releaseGridCell(row, col, grid)] *)
Definition releaseGridCell (row col : Z) (grid : Grid) : Grid :=
  let key := cellKey row col in
  match cells grid !! key with
  | Some _ =>
      {| cells := delete key (cells grid);
         availableCells := availableCells grid ++ [mkCell row col];
         cellSize := cellSize grid;
         spacing := spacing grid |}
  | None => grid
  end.

(* ================================================================== *)
(** * Session state, persistence and the world                         *)
(* ================================================================== *)

(** A value of the [scores] map. *)
Record ScoreEntry : Type := mkScoreEntry {
  score : Js.JsVal;
  timestamp : Z;
  waveNumber : Z;
  massScored : bool
}.

(** The [config] object kept in a session. *)
Module Cfg.
Record Config : Type := mkConfig {
  selectionCount : Z;
  selectionMethod : string;
  rankFilter : string;
  aiScoreThreshold : option Threshold;
  groupFilter : option (list string);
  randomSeed : option Z
}.
End Cfg.
Abbreviation Config := Cfg.Config.

(** The object written to [localStorage] by [saveSession]. *)
Module Saved.
Record BatchItem : Type := mkBatchItem {
  item_id : string;
  item_cell : option Cell       (* gridRow and gridCol *)
}.
Record GridState : Type := mkGridState {
  cells : list (string * string);
  availableCells : list Cell;
  cellSize : option (Z * Z);
  spacing : option Z
}.
Record t : Type := mk {
  id : string;
  selectedIds : list string;
  batchSize : Z;
  currentBatchIndex : Z;
  currentBatchData : option (list BatchItem);
  scores : list (string * ScoreEntry);
  undecided : list string;
  startedAt : Z;
  completedAt : option Z;
  lastSaved : Z;
  grid : option GridState;
  config : Config
}.
End Saved.

(** The session object.  [selectedCandidates] and
    [currentBatchCandidates] hold references into the heap. *)
Record Session : Type := mkSession {
  id : string;
  selectedCandidates : list nat;
  selectedIds : list string;
  batchSize : Z;
  currentBatchIndex : Z;
  currentBatchCandidates : list nat;
  scores : gmap string ScoreEntry;
  undecided : gset string;
  startedAt : Z;
  completedAt : option Z;
  grid : Grid;
  config : Config
}.

(** What surrounds the engine: the storage slot, the clock and random
    oracles with the number of reads so far, and the heap of records. *)
Record World : Type := mkWorld {
  localStorage : option Saved.t;
  clock : nat -> Z;
  ticks : nat;
  entropy : nat -> Z;
  draws : nat;
  heap : list Candidate
}.

Definition noCandidate : Candidate :=
  mkCandidate "" "" "" Js.VUndefined Js.VUndefined "" "" "" "" "" "" None.

(** The object behind reference [l]. *)
Definition rd (w : World) (l : nat) : Candidate :=
  default noCandidate (heap w !! l).

(** Engine operations: state passing over the world. *)
Definition M (A : Type) : Type := World -> A * World.

#[export] Instance M_ret : MRet M := fun A a w => (a, w).
#[export] Instance M_bind : MBind M :=
  fun A B f m w => let '(a, w') := m w in f a w'.

(** [Date.now()] *)
Definition Date_now : M Z := fun w =>
  (clock w (ticks w),
   mkWorld (localStorage w) (clock w) (S (ticks w)) (entropy w) (draws w)
           (heap w)).

(** [Math.random()], as the numerator of a multiple of 2^-53 in [0, 1). *)
Definition Math_random : M Z := fun w =>
  (entropy w (draws w) mod 2 ^ 53,
   mkWorld (localStorage w) (clock w) (ticks w) (entropy w) (S (draws w))
           (heap w)).

Definition setStorage (v : option Saved.t) : M unit := fun w =>
  (tt, mkWorld v (clock w) (ticks w) (entropy w) (draws w) (heap w)).

(** A new object on the heap; the result is its reference. *)
Definition alloc (c : Candidate) : M nat := fun w =>
  (length (heap w),
   mkWorld (localStorage w) (clock w) (ticks w) (entropy w) (draws w)
           (heap w ++ [c])).

(** Assignment to the fields of the object behind [l]. *)
Definition store (l : nat) (c : Candidate) : M unit := fun w =>
  (tt, mkWorld (localStorage w) (clock w) (ticks w) (entropy w) (draws w)
               (<[l := c]> (heap w))).

Definition getWorld : M World := fun w => (w, w).

(** [a.map(f)] for an [f] with effects. *)
Fixpoint mapM {A B} (f : A -> M B) (l : list A) : M (list B) :=
  match l with
  | [] => mret []
  | x :: l' => y ← f x; ys ← mapM f l'; mret (y :: ys)
  end.

(** [a.forEach(f)] threading an accumulator. *)
Fixpoint foldM {A S} (f : S -> A -> M S) (s : S) (l : list A) : M S :=
  match l with
  | [] => mret s
  | x :: l' => s' ← f s x; foldM f s' l'
  end.

(** A number-or-null that is truthy: a number other than 0. *)
Definition truthyNum (t : option Z) : bool :=
  match t with Some n => negb (n =? 0) | None => false end.

Definition withGridCell (c : Candidate) (cell : option Cell) : Candidate :=
  mkCandidate (ID_xA c) (Node_xA c) (Group_xA c) (Rank_xB c) (AI_Rank_xB c)
              (Root1_xB c) (Root2_xB c) (Root3_xB c)
              (Class1_xB c) (Class2_xB c) (Class3_xB c) cell.

(** [assignGridCell(candidate, grid)].  The index is in range
    ([Float.floor_mul] of a double below 1 and the length), so [splice]
    removes a cell. *)
Definition assignGridCell (candidate : Candidate) (grid : Grid)
    : M (option Cell * Grid) :=
  if (length (availableCells grid) =? 0)%nat then mret (None, grid)
  else
    u ← Math_random;
    let idx :=
      Z.to_nat
        (Float.floor_mul 53 u (Z.of_nat (length (availableCells grid)))) in
    match availableCells grid !! idx with
    | Some cell =>
        mret (Some cell,
              mkGrid (<[keyOf cell := ID_xA candidate]> (cells grid))
                     (delete idx (availableCells grid))
                     (cellSize grid) (spacing grid))
    | None => mret (None, grid)
    end.

(** Field assignments on the session object. *)
Definition set_scores (s : Session) (v : gmap string ScoreEntry) : Session :=
  mkSession (id s) (selectedCandidates s) (selectedIds s) (batchSize s)
    (currentBatchIndex s) (currentBatchCandidates s) v (undecided s)
    (startedAt s) (completedAt s) (grid s) (config s).
Definition set_undecided (s : Session) (v : gset string) : Session :=
  mkSession (id s) (selectedCandidates s) (selectedIds s) (batchSize s)
    (currentBatchIndex s) (currentBatchCandidates s) (scores s) v
    (startedAt s) (completedAt s) (grid s) (config s).
Definition set_completedAt (s : Session) (v : option Z) : Session :=
  mkSession (id s) (selectedCandidates s) (selectedIds s) (batchSize s)
    (currentBatchIndex s) (currentBatchCandidates s) (scores s) (undecided s)
    (startedAt s) v (grid s) (config s).
Definition set_currentBatchIndex (s : Session) (v : Z) : Session :=
  mkSession (id s) (selectedCandidates s) (selectedIds s) (batchSize s)
    v (currentBatchCandidates s) (scores s) (undecided s)
    (startedAt s) (completedAt s) (grid s) (config s).
Definition set_currentBatchCandidates (s : Session) (v : list nat) : Session :=
  mkSession (id s) (selectedCandidates s) (selectedIds s) (batchSize s)
    (currentBatchIndex s) v (scores s) (undecided s)
    (startedAt s) (completedAt s) (grid s) (config s).
Definition set_grid (s : Session) (v : Grid) : Session :=
  mkSession (id s) (selectedCandidates s) (selectedIds s) (batchSize s)
    (currentBatchIndex s) (currentBatchCandidates s) (scores s) (undecided s)
    (startedAt s) (completedAt s) v (config s).

(** [new Map(entries)]: a later entry for a key replaces an earlier one. *)
Definition mapOfEntries {V} (l : list (string * V)) : gmap string V :=
  foldl (fun m kv => <[kv.1 := kv.2]> m) ∅ l.

(** ** Persistence adapter *)

(** [saveSession(session)] *)
Definition saveSession (session : Session) : M unit :=
  w ← getWorld;
  let gridState :=
    Saved.mkGridState (map_to_list (cells (grid session)))
                      (availableCells (grid session))
                      (Some (cellSize (grid session)))
                      (Some (spacing (grid session))) in
  let currentBatchData :=
    map (fun l => Saved.mkBatchItem (ID_xA (rd w l)) (gridCell (rd w l)))
        (currentBatchCandidates session) in
  now ← Date_now;
  setStorage (Some
    (Saved.mk (id session) (selectedIds session) (batchSize session)
       (currentBatchIndex session) (Some currentBatchData)
       (map (fun kv => (kv.1, mkScoreEntry (Js.jsonVal (score kv.2))
                                (timestamp kv.2) (waveNumber kv.2)
                                (massScored kv.2)))
            (map_to_list (scores session)))
       (elements (undecided session))
       (startedAt session) (completedAt session) now
       (Some gridState) (config session))).

(** [clearSession()] *)
Definition clearSession : M unit := setStorage None.

(** The loop of [loadSession] that restores the current batch: the
    persisted cell is written onto the object found in the caller's
    dataset, and that same object is pushed. *)
Definition restoreBatchItem (candidateMap : gmap string nat)
    (acc : list nat) (item : Saved.BatchItem) : M (list nat) :=
  match candidateMap !! Saved.item_id item with
  | Some l =>
      w ← getWorld;
      _ ← store l (withGridCell (rd w l) (Saved.item_cell item));
      mret (acc ++ [l])
  | None => mret acc
  end.

(** The grid that [loadSession] restores: [initGrid()], with the fields of
    the snapshot's grid written over it when the snapshot has one
    ([cellSize] and [spacing] only when truthy). *)
Definition restoredGrid (g : option Saved.GridState) : Grid :=
  let grid := initGrid in
  match g with
  | Some g =>
      mkGrid (mapOfEntries (Saved.cells g)) (Saved.availableCells g)
             (default (cellSize grid) (Saved.cellSize g))
             (match Saved.spacing g with
              | Some n => if n =? 0 then spacing grid else n
              | None => spacing grid
              end)
  | None => grid
  end.

(** The [candidateMap] that [loadSession] builds with [forEach]: for an id
    carried by several records the last one stays. *)
Definition candidateMapOf (w : World) (allCandidates : list nat)
    : gmap string nat :=
  foldl (fun m l => <[ID_xA (rd w l) := l]> m) ∅ allCandidates.

(** [loadSession(allCandidates)] *)
Definition loadSession (allCandidates : list nat) : M (option Session) :=
  w ← getWorld;
  match localStorage w with
  | None => mret None
  | Some data =>
      if truthyNum (Saved.completedAt data) then mret None
      else
        let candidateMap := candidateMapOf w allCandidates in
        let selectedCandidates :=
          omap (fun i => candidateMap !! i) (Saved.selectedIds data) in
        if Z.of_nat (length selectedCandidates) * 2 ^ 53
           <? Float.times_point9 (Z.of_nat (length (Saved.selectedIds data)))
        then
          _ ← clearSession; mret None
        else
          let grid1 := restoredGrid (Saved.grid data) in
          currentBatchCandidates ←
            match Saved.currentBatchData data with
            | Some items => foldM (restoreBatchItem candidateMap) [] items
            | None => mret []
            end;
          mret (Some
            (mkSession (Saved.id data) selectedCandidates
               (Saved.selectedIds data) (Saved.batchSize data)
               (Saved.currentBatchIndex data) currentBatchCandidates
               (mapOfEntries (Saved.scores data))
               (list_to_set (Saved.undecided data))
               (Saved.startedAt data) (Saved.completedAt data)
               grid1 (Saved.config data)))
  end.

(** ** Session state machine *)

Definition dquote : string := String (ascii_of_nat 34) EmptyString.

(** [{ error, suggestions }] *)
Record CreateError : Type := mkCreateError {
  error : string;
  suggestions : list string
}.

(** [{ success, evaluationComplete }] or [{ success, error }] *)
Record ScoreResult : Type := mkScoreResult {
  success : bool;
  evaluationComplete : option bool;
  scoreError : option string
}.

(** [{ affected, reScored, scoredIds }] *)
Record MassResult : Type := mkMassResult {
  affected : Z;
  reScored : Z;
  scoredIds : list string
}.

(** The call of [filterCandidates] from the engine: the clock is read
    only by a random selection that has no seed. *)
Definition filterCandidates (allCandidates : list nat) (options : Options)
    : M (list nat) :=
  w ← getWorld;
  let res :=
    Shuffle.filterCandidates (rd w) (clock w (ticks w)) allCandidates options in
  if String.eqb (Opt.selectionMethod options) "random"
     && negb (bool_decide (is_Some (Opt.randomSeed options)))
  then _ ← Date_now; mret res
  else mret res.

(** [createSession(allCandidates, options)] *)
Definition createSession (allCandidates : list nat)
    (options : option UserOptions) : M (CreateError + Session) :=
  let options := mergeOptions options in
  options ←
    (if String.eqb (Opt.selectionMethod options) "random"
        && negb (truthyNum (Opt.randomSeed options))
     then
       now ← Date_now;
       mret (Opt.mkOptions (Opt.selectionCount options) (Opt.batchSize options)
               (Opt.selectionMethod options) (Opt.rankFilter options)
               (Opt.aiScoreThreshold options) (Opt.groupFilter options)
               (Some now))
     else mret options);
  selected ← filterCandidates allCandidates options;
  if (length selected =? 0)%nat then
    mret (inl (mkCreateError "No candidates match the current filters"
                 ["Try expanding the AI score range";
                  "Include ranked candidates (change rank filter to "
                    +:+ dquote +:+ "all" +:+ dquote +:+ ")";
                  "Select more groups"]))
  else
    _ ← clearSession;
    w ← getWorld;
    t0 ← Date_now;
    t1 ← Date_now;
    let session :=
      mkSession ("eval-" +:+ Js.numToString t0) selected
        (map (fun l => ID_xA (rd w l)) selected)
        (Opt.batchSize options) 0 [] ∅ ∅ t1 None initGrid
        (Cfg.mkConfig (Opt.selectionCount options)
           (Opt.selectionMethod options) (Opt.rankFilter options)
           (Opt.aiScoreThreshold options) (Opt.groupFilter options)
           (Opt.randomSeed options)) in
    _ ← saveSession session;
    mret (inr session).

(** [scores.size + undecided.size >= selectedCandidates.length] *)
Definition allProcessed (session : Session) : bool :=
  (length (selectedCandidates session)
   <=? size (scores session) + size (undecided session))%nat.

(** [currentBatchIndex < Math.ceil(length / batchSize) - 1]; a zero batch
    size gives Infinity (or NaN for an empty selection). *)
Definition moreBatches (session : Session) : bool :=
  let len := Z.of_nat (length (selectedCandidates session)) in
  let b := batchSize session in
  if b =? 0 then (0 <? len)
  else currentBatchIndex session <? - ((- len) / b) - 1.

(** [advanceToNextBatch(session)] *)
Definition advanceToNextBatch (session : Session) : M (bool * Session) :=
  if moreBatches session then
    let session :=
      set_currentBatchIndex session (currentBatchIndex session + 1) in
    _ ← saveSession session;
    mret (true, session)
  else mret (false, session).

(** [scoreCandidate(session, candidateId, score)] *)
Definition scoreCandidate (session : Session) (candidateId : string)
    (score : Js.JsVal) : M (ScoreResult * Session) :=
  match scores session !! candidateId with
  | Some _ =>
      mret (mkScoreResult false None (Some "Already scored"), session)
  | None =>
      now ← Date_now;
      let session :=
        set_scores session
          (<[candidateId :=
               mkScoreEntry score now (currentBatchIndex session + 1) false]>
             (scores session)) in
      _ ← saveSession session;
      let evaluationComplete := allProcessed session in
      if evaluationComplete then
        now ← Date_now;
        let session := set_completedAt session (Some now) in
        _ ← saveSession session;
        mret (mkScoreResult true (Some evaluationComplete) None, session)
      else
        mret (mkScoreResult true (Some evaluationComplete) None, session)
  end.

(** [skipCandidate(session, candidateId)] *)
Definition skipCandidate (session : Session) (candidateId : string)
    : M (ScoreResult * Session) :=
  let session :=
    set_undecided session ({[candidateId]} ∪ undecided session) in
  _ ← saveSession session;
  let evaluationComplete := allProcessed session in
  if evaluationComplete then
    now ← Date_now;
    let session := set_completedAt session (Some now) in
    _ ← saveSession session;
    mret (mkScoreResult true (Some evaluationComplete) None, session)
  else
    mret (mkScoreResult true (Some evaluationComplete) None, session).

(** ** Grid methods of the engine *)

Definition unprocessed (w : World) (session : Session) (l : nat) : Prop :=
  scores session !! ID_xA (rd w l) = None
  ∧ ID_xA (rd w l) ∉ undecided session.

#[export] Instance unprocessed_dec w session l :
  Decision (unprocessed w session l).
Proof. unfold unprocessed. apply _. Defined.

(** The callback of the [map] in [getNextBatchWithGridPositions]: a copy
    of the record, with the assigned cell when there is one. *)
Definition placeCopy (acc : Grid) (l : nat) : M (Grid * nat) :=
  w ← getWorld;
  '(cell, g) ← assignGridCell (rd w l) acc;
  match cell with
  | Some c => l' ← alloc (withGridCell (rd w l) (Some c)); mret (g, l')
  | None => l' ← alloc (rd w l); mret (g, l')
  end.

Fixpoint placeAll (g : Grid) (ls : list nat) : M (Grid * list nat) :=
  match ls with
  | [] => mret (g, [])
  | l :: ls' =>
      '(g1, l') ← placeCopy g l;
      '(g2, rest) ← placeAll g1 ls';
      mret (g2, l' :: rest)
  end.

(** [getNextBatchWithGridPositions(session)] *)
Definition getNextBatchWithGridPositions (session : Session)
    : M (list nat * Session) :=
  w ← getWorld;
  let todo := filter (unprocessed w session) (selectedCandidates session) in
  '(g, batch) ← placeAll (grid session) (slice0 (batchSize session) todo);
  let session := set_currentBatchCandidates (set_grid session g) batch in
  _ ← saveSession session;
  mret (batch, session).

(** [currentBatch.find(c => c.ID_xA === candidateId)] *)
Definition findById (w : World) (candidateId : string) (ls : list nat)
    : option nat :=
  snd <$> list_find (fun l => ID_xA (rd w l) = candidateId) ls.

(** [removeFromBatch(session, candidateId)] *)
Definition removeFromBatch (session : Session) (candidateId : string)
    : M (Z * Session) :=
  w ← getWorld;
  let currentBatch := currentBatchCandidates session in
  let g :=
    match findById w candidateId currentBatch with
    | Some departing =>
        match gridCell (rd w departing) with
        | Some c => releaseGridCell (row c) (col c) (grid session)
        | None => grid session
        end
    | None => grid session
    end in
  let session :=
    set_currentBatchCandidates (set_grid session g)
      (filter (fun l => ID_xA (rd w l) ≠ candidateId) currentBatch) in
  _ ← saveSession session;
  mret (Z.of_nat (length (currentBatchCandidates session)), session).

(** [replaceInGrid(session, candidateId)] *)
Definition replaceInGrid (session : Session) (candidateId : string)
    : M (option nat * Session) :=
  w ← getWorld;
  let currentBatch := currentBatchCandidates session in
  match findById w candidateId currentBatch with
  | None => mret (None, session)
  | Some departing =>
      match gridCell (rd w departing) with
      | None => mret (None, session)
      | Some c =>
          let g := releaseGridCell (row c) (col c) (grid session) in
          let rest :=
            filter (fun l => ID_xA (rd w l) ≠ candidateId) currentBatch in
          let currentIds : gset string :=
            list_to_set (map (fun l => ID_xA (rd w l)) rest) in
          let next :=
            list_find (fun l => unprocessed w session l
                                ∧ ID_xA (rd w l) ∉ currentIds)
                      (selectedCandidates session) in
          match next with
          | Some (_, n) =>
              nextWithGrid ← alloc (withGridCell (rd w n) (Some c));
              let g :=
                mkGrid (<[keyOf c := ID_xA (rd w n)]> (cells g))
                       (availableCells g) (cellSize g) (spacing g) in
              let session :=
                set_currentBatchCandidates (set_grid session g)
                  (rest ++ [nextWithGrid]) in
              _ ← saveSession session;
              mret (Some nextWithGrid, session)
          | None =>
              let session :=
                set_currentBatchCandidates (set_grid session g) rest in
              _ ← saveSession session;
              mret (None, session)
          end
      end
  end.

(** ** Mass scoring *)

(** The predicate of the [filter] in [massScoreByAttribute]. *)
Definition matchesAttribute (attributeType attributeValue : string)
    (c : Candidate) : bool :=
  if String.eqb attributeType "root" then
    String.eqb (Root1_xB c) attributeValue
    || String.eqb (Root2_xB c) attributeValue
    || String.eqb (Root3_xB c) attributeValue
  else
    String.eqb (Class1_xB c) attributeValue
    || String.eqb (Class2_xB c) attributeValue
    || String.eqb (Class3_xB c) attributeValue.

(** The first [forEach]: the score is set whether or not one was there. *)
Definition massScoreOne (score : Js.JsVal)
    (acc : Session * MassResult) (l : nat) : M (Session * MassResult) :=
  let '(session, r) := acc in
  w ← getWorld;
  let cid := ID_xA (rd w l) in
  let wasAlreadyScored := bool_decide (is_Some (scores session !! cid)) in
  now ← Date_now;
  let session :=
    set_scores session
      (<[cid := mkScoreEntry score now (currentBatchIndex session + 1) true]>
         (scores session)) in
  mret (session,
        mkMassResult (affected r + 1)
                     (if wasAlreadyScored then reScored r + 1 else reScored r)
                     (scoredIds r ++ [cid])).

(** The second [forEach]: every cell held by [cid] is released; the key is
    split at the comma and both parts go through [parseInt]. *)
Definition releaseCellsOf (g : Grid) (cid : string) : Grid :=
  foldl
    (fun g kv =>
       if String.eqb kv.2 cid then
         match Js.split "," kv.1 with
         | p0 :: p1 :: _ =>
             match Js.parseIntStr p0, Js.parseIntStr p1 with
             | Some r, Some c => releaseGridCell r c g
             | _, _ => g
             end
         | _ => g
         end
       else g)
    g (map_to_list (cells g)).

(** [massScoreByAttribute(session, attributeType, attributeValue, score,
    allNodes)] *)
Definition massScoreByAttribute (session : Session)
    (attributeType attributeValue : string) (score : Js.JsVal)
    (allNodes : option (list nat)) : M (MassResult * Session) :=
  w ← getWorld;
  let candidates := default (selectedCandidates session) allNodes in
  let matching :=
    filter (fun l => matchesAttribute attributeType attributeValue (rd w l)
                     = true) candidates in
  '(session, r) ← foldM (massScoreOne score)
                        (session, mkMassResult 0 0 []) matching;
  let g := foldl releaseCellsOf (grid session) (scoredIds r) in
  let session :=
    set_currentBatchCandidates (set_grid session g)
      (filter (fun l => ID_xA (rd w l) ∉ scoredIds r)
              (currentBatchCandidates session)) in
  t ← (if allProcessed session then now ← Date_now; mret (Some now)
       else mret None);
  let session :=
    match t with
    | Some now => set_completedAt session (Some now)
    | None => session
    end in
  _ ← saveSession session;
  mret (r, session).

(** ** Reads of the stored snapshot *)

(** [hasResumableSession()] *)
Definition hasResumableSession : M bool :=
  w ← getWorld;
  match localStorage w with
  | None => mret false
  | Some data => mret (negb (truthyNum (Saved.completedAt data)))
  end.

(** [{ scored, total, lastSaved, config }] *)
Record SavedInfo : Type := mkSavedInfo {
  info_scored : Z;
  info_total : Z;
  info_lastSaved : Z;
  info_config : Config
}.

(** [getSavedSessionInfo()] *)
Definition getSavedSessionInfo : M (option SavedInfo) :=
  w ← getWorld;
  match localStorage w with
  | None => mret None
  | Some data =>
      if truthyNum (Saved.completedAt data) then mret None
      else
        mret (Some (mkSavedInfo
                      (Z.of_nat (length (Saved.scores data)))
                      (Z.of_nat (length (Saved.selectedIds data)))
                      (Saved.lastSaved data) (Saved.config data)))
  end.

(** ** Reads of the session *)

(** [a.slice(start, end)]: a negative index counts from the back, and both
    are clamped to the array. *)
Definition slice {A} (start finish : Z) (l : list A) : list A :=
  let len := Z.of_nat (length l) in
  let clamp i := if i <? 0 then Z.max (len + i) 0 else Z.min i len in
  let from := clamp start in
  let to := clamp finish in
  take (Z.to_nat (to - from)) (drop (Z.to_nat from) l).

(** [getCurrentBatch(session)] *)
Definition getCurrentBatch (session : Session) : M (list nat) :=
  w ← getWorld;
  let start := currentBatchIndex session * batchSize session in
  let finish := start + batchSize session in
  let batchCandidates := slice start finish (selectedCandidates session) in
  mret (filter (unprocessed w session) batchCandidates).

(** [countByAttribute(attributeType, attributeValue, allNodes)] *)
Definition countByAttribute (attributeType attributeValue : string)
    (allNodes : option (list nat)) : M Z :=
  w ← getWorld;
  let candidates := default [] allNodes in
  mret (Z.of_nat (length
          (filter (fun l => matchesAttribute attributeType attributeValue
                              (rd w l) = true) candidates))).

(** [{ root, cls, count }] *)
Record RootEntry : Type := mkRootEntry {
  re_root : string;
  re_cls : string;
  re_count : Z
}.

(** The three [{ root, cls }] pairs of a record, in the order of the
    inner [forEach]. *)
Definition rootSlots (c : Candidate) : list (string * string) :=
  [(Root1_xB c, Class1_xB c); (Root2_xB c, Class2_xB c);
   (Root3_xB c, Class3_xB c)].

(** [r.root + '|' + (r.cls || '')] *)
Definition rootKey (slot : string * string) : string :=
  slot.1 +:+ "|" +:+ slot.2.

(** [rootMap.get(key).count++] *)
Definition countUp (key : string) (kv : string * RootEntry)
    : string * RootEntry :=
  if bool_decide (kv.1 = key)
  then (kv.1, mkRootEntry (re_root kv.2) (re_cls kv.2) (re_count kv.2 + 1))
  else kv.

(** The body of the inner [forEach] on [rootMap], a map in insertion
    order. *)
Definition bumpRoot (rootMap : list (string * RootEntry))
    (slot : string * string) : list (string * RootEntry) :=
  match slot.1 with
  | EmptyString => rootMap
  | _ =>
      let key := rootKey slot in
      let rootMap :=
        if bool_decide (key ∈ rootMap.*1) then rootMap
        else rootMap ++ [(key, mkRootEntry slot.1 slot.2 0)] in
      countUp key <$> rootMap
  end.

(** [getCurrentBatchRoots(session)] *)
Definition getCurrentBatchRoots (session : Session) : M (list RootEntry) :=
  w ← getWorld;
  let batch := currentBatchCandidates session in
  let rootMap :=
    foldl bumpRoot [] (concat (map (fun l => rootSlots (rd w l)) batch)) in
  mret (rootMap.*2).

(** ** The API without a session *)

(** The [filters] object of the grid view.  The launcher passes its score
    range under the key [aiScoreThreshold]; the engine reads
    [aiScoreRange]. *)
Module Flt.
Record Filters : Type := mkFilters {
  rankFilter : option string;
  groupFilter : option (list string);
  aiScoreRange : option (Z * Z);
  selectionMethod : option string;
  aiScoreThreshold : option Threshold
}.
End Flt.
Abbreviation Filters := Flt.Filters.

(** [s || d] for a text that may be missing. *)
Definition textOr (s : option string) (d : string) : string :=
  match s with
  | None | Some EmptyString => d
  | Some x => x
  end.

(** [filters.groupFilter && filters.groupFilter.length > 0
     ? filters.groupFilter : null] *)
Definition groupsOrNull (g : option (list string)) : option (list string) :=
  match g with
  | None | Some [] => None
  | Some gs => Some gs
  end.

(** [{ min: r ? r[0] : 0, max: r ? r[1] : 100 }] *)
Definition rangeThreshold (r : option (Z * Z)) : Threshold :=
  match r with
  | Some (lo, hi) => mkThreshold (Some lo) (Some hi)
  | None => mkThreshold (Some 0) (Some 100)
  end.

(** [createGrid()] *)
Definition createGrid : Grid := initGrid.

(** [releaseCell(row, col, grid)] *)
Definition releaseCell (row col : Z) (grid : Grid) : Grid :=
  releaseGridCell row col grid.

(** [getFilteredBatch(nodes, filters, currentBatchIds, grid, batchSize)];
    the grid is updated in place, so the updated grid is returned with the
    batch. *)
Definition getFilteredBatch (nodes : list nat) (filters : Filters)
    (currentBatchIds : option (list string)) (grid : Grid)
    (batchSize : option Z) : M (list nat * Grid) :=
  let batchSize :=
    match batchSize with
    | None => 6
    | Some n => if n =? 0 then 6 else n
    end in
  let currentSet : gset string := list_to_set (default [] currentBatchIds) in
  now ← Date_now;
  let options :=
    Opt.mkOptions 9999 GRID_CAPACITY
      (textOr (Flt.selectionMethod filters) "top-ai")
      (textOr (Flt.rankFilter filters) "unranked")
      (Some (rangeThreshold (Flt.aiScoreRange filters)))
      (groupsOrNull (Flt.groupFilter filters))
      (Some now) in
  eligible ← filterCandidates nodes options;
  w ← getWorld;
  let eligible :=
    filter (fun l => ID_xA (rd w l) ∉ currentSet) eligible in
  '(g, batch) ← placeAll grid (slice0 batchSize eligible);
  mret (batch, g).

(** [countEligible(nodes, filters)]: of the two properties of that name in
    the engine object the later one, which is the one in force.  Its
    options object has the three keys that [countEligibleCandidates]
    reads; the other fields of the record here are not read. *)
Definition countEligible (nodes : list nat) (filters : Filters) : M Z :=
  w ← getWorld;
  let options :=
    Opt.mkOptions (Opt.selectionCount DEFAULT_SESSION_OPTIONS)
      (Opt.batchSize DEFAULT_SESSION_OPTIONS)
      (Opt.selectionMethod DEFAULT_SESSION_OPTIONS)
      (textOr (Flt.rankFilter filters) "unranked")
      (Some (rangeThreshold (Flt.aiScoreRange filters)))
      (groupsOrNull (Flt.groupFilter filters))
      None in
  mret (Z.of_nat (Filter.countEligibleCandidates (rd w) nodes options)).

(** The call of [countEligible] in the launcher component:
    [countEligible(allCandidates, { rankFilter, aiScoreThreshold:
    { min, max }, groupFilter: groups.length > 0 ? groups : null })]. *)
Definition launcherEligibleCount (allCandidates : list nat)
    (rankFilter : string) (aiScoreMin aiScoreMax : Z)
    (selectedGroups : list string) : M Z :=
  countEligible allCandidates
    (Flt.mkFilters (Some rankFilter)
       (match selectedGroups with [] => None | _ => Some selectedGroups end)
       None None
       (Some (mkThreshold (Some aiScoreMin) (Some aiScoreMax)))).

(* ================================================================== *)
(** * Runs of the engine, and the properties stated about them         *)
(* ================================================================== *)

(** A call on a grid. *)
Inductive GridOp : Type :=
| Assign (candidate : Candidate)
| Release (row col : Z).

Definition gridStep (g : Grid) (op : GridOp) : M Grid :=
  match op with
  | Assign c => '(_, g') ← assignGridCell c g; mret g'
  | Release r c => mret (releaseGridCell r c g)
  end.

(** The grid after a sequence of [assign] and [release] calls. *)
Definition runGrid (ops : list GridOp) (g : Grid) : M Grid :=
  foldM gridStep g ops.

(** A call on a session. *)
Inductive Op : Type :=
| OpScore (candidateId : string) (score : Js.JsVal)
| OpSkip (candidateId : string)
| OpMassScore (attributeType attributeValue : string) (score : Js.JsVal)
              (allNodes : option (list nat))
| OpAdvance
| OpNextBatch
| OpRemove (candidateId : string)
| OpReplace (candidateId : string).

Definition step (op : Op) (s : Session) : M Session :=
  match op with
  | OpScore i v => '(_, s') ← scoreCandidate s i v; mret s'
  | OpSkip i => '(_, s') ← skipCandidate s i; mret s'
  | OpMassScore ty val v all =>
      '(_, s') ← massScoreByAttribute s ty val v all; mret s'
  | OpAdvance => '(_, s') ← advanceToNextBatch s; mret s'
  | OpNextBatch => '(_, s') ← getNextBatchWithGridPositions s; mret s'
  | OpRemove i => '(_, s') ← removeFromBatch s i; mret s'
  | OpReplace i => '(_, s') ← replaceInGrid s i; mret s'
  end.

(** The sessions observed after each call of a sequence. *)
Fixpoint trace (ops : list Op) (s : Session) (w : World) : list Session :=
  match ops with
  | [] => []
  | op :: ops' => let '(s', w') := step op s w in s' :: trace ops' s' w'
  end.

(** No id is both a key of [scores] and a member of [undecided]. *)
Definition exclusive (s : Session) : Prop :=
  ∀ i, is_Some (scores s !! i) → i ∉ undecided s.

(** The ids that [massScoreByAttribute] scores. *)
Definition massTargets (w : World) (s : Session)
    (attributeType attributeValue : string) (allNodes : option (list nat))
    : list string :=
  map (fun l => ID_xA (rd w l))
      (filter (fun l => matchesAttribute attributeType attributeValue (rd w l)
                        = true)
              (default (selectedCandidates s) allNodes)).

(** A call that decides an id not yet decided the other way. *)
Definition decidesOnce (w : World) (s : Session) (op : Op) : Prop :=
  match op with
  | OpScore i _ => i ∉ undecided s
  | OpSkip i => scores s !! i = None
  | OpMassScore ty val _ all =>
      ∀ i, i ∈ massTargets w s ty val all → i ∉ undecided s
  | _ => True
  end.

(** Every call of the sequence is a [decidesOnce] call in the state it
    runs in. *)
Fixpoint runDecidesOnce (ops : list Op) (s : Session) (w : World) : Prop :=
  match ops with
  | [] => True
  | op :: ops' =>
      decidesOnce w s op
      ∧ let '(s', w') := step op s w in runDecidesOnce ops' s' w'
  end.

(** ** Concrete worlds for the examples *)

Definition plain (name : string) (ai : Js.JsVal) : Candidate :=
  mkCandidate name name "G" (Js.VStr "") ai "" "" "" "" "" "" None.

(** A world with heap [h], a clock that starts at 1000 and advances by one
    per read, and a fixed random sequence. *)
Definition demoWorld (h : list Candidate) : World :=
  mkWorld None (fun n => 1000 + Z.of_nat n) 0
          (fun n => Z.of_nat n * 123456789012345) 0 h.

Definition twoRecords : World :=
  demoWorld [plain "A" (Js.VNum 10); plain "B" (Js.VNum 20)].

Definition oneRecord : World := demoWorld [plain "X" (Js.VNum 10)].

(** Fifty-one eligible records. *)
Definition manyRecords : World :=
  demoWorld
    (map (fun n => plain (Js.numToString (Z.of_nat n)) (Js.VStr ""))
         (seq 1 51)).

(** The session and world after [createSession] with the default options;
    [None] when no session was created. *)
Definition started (all : list nat) (w : World) : option (Session * World) :=
  match createSession all None w with
  | (inr s, w') => Some (s, w')
  | (inl _, _) => None
  end.

(** ** Notions used to state the properties *)

(** The grid partitions the coordinate space: the free cells and the
    occupied ones together are the cells of the grid, each once, and the
    keys of [cells] are the keys of the occupied ones. *)
Definition partitions (size : Z) (g : Grid) : Prop :=
  ∃ occupied : list Cell,
    availableCells g ++ occupied ≡ₚ allCells size
    ∧ dom (cells g) = list_to_set (keyOf <$> occupied).

(** The loop of [seededShuffle] on the array alone. *)
Fixpoint shuffle_list {A} (i : nat) (seed : Z) (arr : list A) : list A :=
  match i with
  | O => arr
  | S i' =>
      let '(seed, u) := Shuffle.mulberry32 seed in
      let j := Z.to_nat (Float.floor_mul 32 u (Z.of_nat i + 1)) in
      let arr :=
        match arr !! i, arr !! j with
        | Some temp, Some aj => <[j := temp]> (<[i := aj]> arr)
        | _, _ => arr
        end in
      shuffle_list i' seed arr
  end.

(** The fields of a session that no grid or batch call touches. *)
Definition sameDecisions (s s' : Session) : Prop :=
  scores s' = scores s ∧ undecided s' = undecided s
  ∧ selectedCandidates s' = selectedCandidates s
  ∧ completedAt s' = completedAt s.

(** The options [createSession] works with once it has filled in the seed
    of a random selection. *)
Definition seededOptions (options : Options) (w : World) : Options :=
  if String.eqb (Opt.selectionMethod options) "random"
     && negb (truthyNum (Opt.randomSeed options))
  then Opt.mkOptions (Opt.selectionCount options) (Opt.batchSize options)
         (Opt.selectionMethod options) (Opt.rankFilter options)
         (Opt.aiScoreThreshold options) (Opt.groupFilter options)
         (Some (clock w (ticks w)))
  else options.

(** The eligible records in the order of the selection method, before the
    cut to the selection count. *)
Definition orderedEligible (w : World) (now : Z) (all : list nat)
    (options : Options) : list nat :=
  Shuffle.ordered (rd w) now (Filter.eligible (rd w) all options)
                  (Opt.selectionMethod options) (Opt.randomSeed options).

(** The selection count in force: the caller's, or the default 50. *)
Definition countInForce (uo : option UserOptions) : Z :=
  default 50 (uo ≫= Opt.u_selectionCount).

(** An id resolves when some record of the dataset carries it. *)
Definition resolves (w : World) (all : list nat) (i : string) : Prop :=
  Exists (fun l => ID_xA (rd w l) = i) all.

#[export] Instance resolves_dec w all i : Decision (resolves w all i).
Proof. unfold resolves. apply _. Defined.

(** The map sends an id to a live reference of a record with that id. *)
Definition mapOk (cm : gmap string nat) (w : World) : Prop :=
  forall i l, cm !! i = Some l ->
              ID_xA (rd w l) = i /\ (l < length (heap w))%nat.

#[export] Instance decidesOnce_dec w s op : Decision (decidesOnce w s op).
Proof.
  destruct op as [i v|i|ty val v all| | |i|i]; simpl; try apply _.
  destruct (decide (Forall (fun i => i ∉ undecided s)
                           (massTargets w s ty val all))) as [H|H].
  - left. intros i Hi. by eapply Forall_forall in H.
  - right. intros H'. apply H. by apply Forall_forall.
Defined.

#[export] Instance runDecidesOnce_dec ops s w :
  Decision (runDecidesOnce ops s w).
Proof.
  revert s w. induction ops as [|op ops IH]; intros s w; simpl.
  - apply _.
  - destruct (step op s w) as [s' w']. apply and_dec; [apply _ | apply IH].
Defined.

(** ** More concrete runs for the examples *)

Definition demoOps : list Op :=
  [OpNextBatch; OpScore "A" (Js.VNum 2); OpRemove "A"; OpSkip "B"].

(** A session object with empty fields: what the runs below fall back to
    where [createSession] gives no session (it always gives one there). *)
Definition noSession : Session :=
  mkSession "" [] [] 0 0 [] ∅ ∅ 0 None initGrid
            (Cfg.mkConfig 0 "" "" None None None).

(** A session over one record, completed by scoring that record. *)
Definition completedRun : ScoreResult * Session * World :=
  match started [0%nat] oneRecord with
  | Some (s, w) => scoreCandidate s "X" (Js.VNum 2) w
  | None => (mkScoreResult false None None, noSession, oneRecord)
  end.

(** The world after a session over two records was created and its first
    wave placed on the grid: the slot holds a snapshot to resume. *)
Definition resumableStore : World :=
  match started [0%nat; 1%nat] twoRecords with
  | Some (s, w) => (getNextBatchWithGridPositions s w).2
  | None => twoRecords
  end.

(** The world after a session over one record was created, its wave
    placed and its record scored: the slot holds a completed snapshot. *)
Definition completedStore : World :=
  match started [0%nat] oneRecord with
  | Some (s, w) =>
      let '((_, s1), w1) := getNextBatchWithGridPositions s w in
      (scoreCandidate s1 "X" (Js.VNum 2) w1).2
  | None => oneRecord
  end.

(** ** Notions used by the further properties *)



(** A call other than [replaceInGrid]. *)
Definition notReplace (op : Op) : Prop :=
  match op with OpReplace _ => False | _ => True end.

(** An entry written by a mass score of [v] in wave [wave]. *)
Definition massEntry (v : Js.JsVal) (wave : Z) (e : ScoreEntry) : Prop :=
  score e = v /\ waveNumber e = wave /\ massScored e = true.

(** What a selection by AI rank is: the chosen records followed by the
    ones left out are the eligible records in the order [before], records
    of equal rank in the order of the dataset. *)
Definition selectsByRank {A} (rd : A -> Candidate)
    (before : Z -> Z -> Prop) (eligible sel : list A) : Prop :=
  exists rest : list A,
    sel ++ rest ≡ₚ eligible
    /\ StronglySorted
         (fun a b => before (Filter.rankKey rd a) (Filter.rankKey rd b))
         (sel ++ rest)
    /\ forall k : Z,
         filter (fun c => Filter.rankKey rd c = k) (sel ++ rest)
         = filter (fun c => Filter.rankKey rd c = k) eligible.

(** The four tests of the pipeline on one record. *)
Definition passes {A} (rd : A -> Candidate) (options : Options) (c : A)
    : Prop :=
  Js.trim_nonempty (Node_xA (rd c)) = true
  /\ match Opt.groupFilter options with
     | None | Some [] => True
     | Some gs => Group_xA (rd c) ∈ gs
     end
  /\ (Opt.rankFilter options = "unranked" ->
      Js.isEmpty (Rank_xB (rd c)) = true)
  /\ (Opt.rankFilter options = "ranked" ->
      Js.isEmpty (Rank_xB (rd c)) = false)
  /\ match Opt.aiScoreThreshold options with
     | None => True
     | Some t =>
         Filter.scoreInThreshold (default 0 (th_min t))
           (default 100 (th_max t)) (AI_Rank_xB (rd c)) = true
     end.

(** The batch size that [getFilteredBatch] uses: [batchSize || 6]. *)
Definition batchSizeOr6 (batchSize : option Z) : Z :=
  match batchSize with
  | None => 6
  | Some n => if n =? 0 then 6 else n
  end.

(** Every key of [cells] is the key of a coordinate. *)
Definition wellKeyed (g : Grid) : Prop :=
  forall k : string, is_Some (cells g !! k) -> exists c : Cell, k = keyOf c.

(** One step of the loop over [grid.cells] in [massScoreByAttribute], for
    the scored id [cid]. *)
Definition releaseIfHeld (cid : string) (g : Grid) (kv : string * string)
    : Grid :=
  if String.eqb kv.2 cid then
    match Js.split "," kv.1 with
    | p0 :: p1 :: _ =>
        match Js.parseIntStr p0, Js.parseIntStr p1 with
        | Some r, Some c => releaseGridCell r c g
        | _, _ => g
        end
    | _ => g
    end
  else g.

(** The options that the [config] of a session records, with the batch
    size of the session. *)
Definition optionsOf (c : Config) (batchSize : Z) : Options :=
  Opt.mkOptions (Cfg.selectionCount c) batchSize (Cfg.selectionMethod c)
    (Cfg.rankFilter c) (Cfg.aiScoreThreshold c) (Cfg.groupFilter c)
    (Cfg.randomSeed c).

(** The slots of the current batch that carry a root. *)
Definition batchSlots (w : World) (session : Session)
    : list (string * string) :=
  filter (fun slot => slot.1 <> "")
         (concat (map (fun l => rootSlots (rd w l))
                      (currentBatchCandidates session))).

(** The key under which an entry is kept. *)
Definition entryKey (e : RootEntry) : string :=
  rootKey (re_root e, re_cls e).

(** [rootMap] after the slots [slots] were read: one entry per key, each
    with a pair of [slots] that has the key, counting the slots with the
    key. *)
Definition rootsOf (slots : list (string * string))
    (m : list (string * RootEntry)) : Prop :=
  NoDup m.*1
  /\ (forall k e, (k, e) ∈ m ->
        k = entryKey e
        /\ (re_root e, re_cls e) ∈ slots
        /\ re_count e
           = Z.of_nat (length (filter (fun slot => rootKey slot = k) slots)))
  /\ (forall slot, slot ∈ slots -> rootKey slot ∈ m.*1).

(** The session over two records that [createSession] gives with the
    default options, and the world it leaves. *)
Definition startedRun : Session * World :=
  default (noSession, twoRecords) (started [0%nat; 1%nat] twoRecords).

(** The same session after its first wave was placed on the grid. *)
Definition placedRun : Session * World :=
  let '((_, s), w) :=
    getNextBatchWithGridPositions startedRun.1 startedRun.2 in
  (s, w).

(** The default options with the lowest AI ranks first. *)
Definition bottomOptions : Options :=
  Opt.mkOptions 50 GRID_CAPACITY "bottom-ai" "unranked"
    (Some (mkThreshold (Some 0) (Some 100))) None None.

(* ================================================================== *)
(** * Proofs                                                           *)
(* ================================================================== *)

#[local] Arguments Shuffle.mulberry32 : simpl never.
#[local] Arguments Shuffle.filterCandidates : simpl never.
#[local] Arguments Float.floor_mul : simpl never.
#[local] Arguments Float.fl : simpl never.
#[local] Arguments Float.times_point9 : simpl never.
#[local] Arguments initGrid : simpl never.
#[local] Arguments String.eqb : simpl never.

(** Unfolds the state passing of the engine operations. *)
Ltac run_M :=
  unfold mbind, M_bind, mret, M_ret, getWorld, setStorage, clearSession,
    Date_now, Math_random, alloc, store in *; simpl in *.

(** Reads through a world that differs from [w] outside the heap are
    reads through [w]. *)
Ltac norm_rd :=
  repeat match goal with
         | w : World |- context [rd ?w0] =>
             lazymatch w0 with
             | w => fail
             | _ => change (rd w0) with (rd w)
             end
         end.

(** ** binary64 rounding *)

Section FloatFacts.

(** Rounding moves a value by at most half a unit in the last place, and
    that half unit is at most the value divided by 2^53. *)
Lemma fl_nonneg_near (p : Z) :
  0 <= p ->
  exists h, 0 <= h /\ h * 2 ^ 53 <= p
            /\ p - h <= Float.fl_nonneg p <= p + h.
Proof.
  intros Hp. unfold Float.fl_nonneg.
  destruct (Z.leb_spec (Z.log2 p - 52) 0) as [Hd|Hd].
  - exists 0. lia.
  - assert (Hpos : 0 < p).
    { destruct (Z.eq_dec p 0) as [->|]; [simpl in Hd; lia | lia]. }
    set (d := Z.log2 p - 52) in *.
    destruct (Z.log2_spec p Hpos) as [Hlo _].
    replace (Z.log2 p) with (53 + (d - 1)) in Hlo by (unfold d; lia).
    rewrite Z.pow_add_r in Hlo by lia.
    assert (Hh : 0 < 2 ^ (d - 1)) by (apply Z.pow_pos_nonneg; lia).
    assert (HD : 2 ^ d = 2 * 2 ^ (d - 1)).
    { replace d with (1 + (d - 1)) at 1 by lia.
      rewrite Z.pow_add_r by lia. reflexivity. }
    pose proof (Z.div_mod p (2 ^ d) ltac:(lia)) as Hdm.
    pose proof (Z.mod_pos_bound p (2 ^ d) ltac:(lia)) as Hr.
    exists (2 ^ (d - 1)). split; [lia|]. split; [lia|].
    destruct ((p mod 2 ^ d <? 2 ^ (d - 1))
              || (p mod 2 ^ d =? 2 ^ (d - 1)) && Z.even (p / 2 ^ d)) eqn:Hb.
    + assert (p mod 2 ^ d <= 2 ^ (d - 1)).
      { apply orb_true_iff in Hb as [Hb|Hb]; [lia|].
        apply andb_true_iff in Hb as [Hb _]. lia. }
      nia.
    + apply orb_false_iff in Hb as [Hb _].
      assert (2 ^ (d - 1) <= p mod 2 ^ d) by lia.
      nia.
Qed.

Lemma fl_of_nonneg (z : Z) : 0 <= z -> Float.fl z = Float.fl_nonneg z.
Proof. intros. unfold Float.fl. destruct (Z.ltb_spec z 0); [lia | done]. Qed.

Lemma fl_nonneg_nonneg (p : Z) : 0 <= p -> 0 <= Float.fl_nonneg p.
Proof.
  intros Hp. destruct (fl_nonneg_near p Hp) as (h & Hh & Hhp & Hlo & _).
  assert (h <= p) by nia. lia.
Qed.

(** [Math.floor(r * n)] is an index below [n] for a double [r] in [0, 1)
    with at most 53 fraction bits. *)
Lemma floor_mul_lt (k u n : Z) :
  0 <= k <= 53 -> 0 <= u < 2 ^ k -> 0 < n ->
  0 <= Float.floor_mul k u n < n.
Proof.
  intros Hk Hu Hn. unfold Float.floor_mul.
  assert (Hp : 0 <= u * n) by nia.
  rewrite fl_of_nonneg by done.
  destruct (fl_nonneg_near _ Hp) as (h & Hh & Hhp & _ & Hhi).
  pose proof (fl_nonneg_nonneg _ Hp) as H0.
  assert (Hk2 : 0 < 2 ^ k) by (apply Z.pow_pos_nonneg; lia).
  assert (Hle : 2 ^ k <= 2 ^ 53) by (apply Z.pow_le_mono_r; lia).
  split.
  - apply Z.div_pos; lia.
  - apply Z.div_lt_upper_bound; [lia|].
    assert (h < n) by nia. nia.
Qed.

(** The staleness comparison agrees with the exact one whenever fewer than
    nine tenths resolve. *)
Lemma times_point9_gt (c n : Z) :
  0 <= c -> 0 <= n < 2 ^ 50 -> 10 * c < 9 * n ->
  c * 2 ^ 53 < Float.times_point9 n.
Proof.
  intros Hc Hn Hlt. unfold Float.times_point9.
  assert (Hp : 0 <= n * Float.point9) by (unfold Float.point9; lia).
  rewrite fl_of_nonneg by done.
  destruct (fl_nonneg_near _ Hp) as (h & Hh & Hhp & Hlo & _).
  unfold Float.point9 in *.
  change (2 ^ 53) with 9007199254740992 in *.
  change (2 ^ 50) with 1125899906842624 in *.
  lia.
Qed.

End FloatFacts.

Section Point9.

(** When at least nine tenths resolve, the product [n * 0.9] does not
    exceed the resolved count: the rounded product of a multiple of ten is
    exact. *)
Lemma times_point9_le (c n : Z) :
  0 <= c -> 0 <= n < 2 ^ 32 -> 9 * n <= 10 * c ->
  Float.times_point9 n <= c * 2 ^ 53.
Proof.
  intros Hc Hn Hge. unfold Float.times_point9.
  assert (Hp : 0 <= n * Float.point9) by (unfold Float.point9; lia).
  rewrite fl_of_nonneg by done.
  destruct (Z.eq_dec (10 * c) (9 * n)) as [Heq|Hne].
  - (* exactly nine tenths *)
    destruct (Z.eq_dec n 0) as [->|Hn0].
    { assert (c = 0) as -> by lia. reflexivity. }
    assert (Hc9 : 9 <= c) by lia.
    set (e := n * Float.point9 - c * 2 ^ 53).
    assert (He : 9 * e = 2 * c).
    { unfold e, Float.point9. change (2 ^ 53) with 9007199254740992. lia. }
    assert (HP : n * Float.point9 = c * 2 ^ 53 + e) by (unfold e; lia).
    unfold Float.fl_nonneg. rewrite HP.
    assert (Hpos : 0 < c * 2 ^ 53 + e) by lia.
    destruct (Z.log2_spec _ Hpos) as [Hlo Hhi].
    set (L := Z.log2 (c * 2 ^ 53 + e)) in *.
    assert (HL56 : 56 <= L).
    { apply Z.log2_le_pow2; [lia|].
      change (2 ^ 56) with (8 * 2 ^ 53). lia. }
    assert (HL85 : L < 86).
    { apply Z.log2_lt_pow2; [lia|].
      change (2 ^ 86) with (2 ^ 33 * 2 ^ 53).
      assert (c < 2 ^ 32) by lia.
      change (2 ^ 33) with (2 * 2 ^ 32). change (2 ^ 32) with 4294967296 in *.
      change (2 ^ 53) with 9007199254740992 in *. lia. }
    destruct (Z.leb_spec (L - 52) 0) as [Hd|Hd]; [lia|].
    set (d := L - 52) in *.
    assert (H2d : 2 ^ 53 = 2 ^ (53 - d) * 2 ^ d).
    { rewrite <- Z.pow_add_r by lia. f_equal. lia. }
    assert (Hdpos : 0 < 2 ^ d) by (apply Z.pow_pos_nonneg; lia).
    assert (HD : 2 ^ d = 2 * 2 ^ (d - 1)).
    { replace d with (1 + (d - 1)) at 1 by lia.
      rewrite Z.pow_add_r by lia. reflexivity. }
    assert (Hh : 0 < 2 ^ (d - 1)) by (apply Z.pow_pos_nonneg; lia).
    assert (Hhi' : c * 2 ^ 53 + e < 4 * 2 ^ (d - 1) * 2 ^ 52).
    { replace (Z.succ L) with (2 + (d - 1) + 52) in Hhi by (unfold d; lia).
      rewrite !Z.pow_add_r in Hhi by lia. exact Hhi. }
    assert (Heh : e < 2 ^ (d - 1)).
    { change (2 ^ 53) with (2 * 2 ^ 52) in Hhi'.
      assert (0 < 2 ^ 52) by done. nia. }
    assert (Hq : (c * 2 ^ 53 + e) / 2 ^ d = c * 2 ^ (53 - d)).
    { symmetry. apply (Z.div_unique _ _ _ e); [lia|]. rewrite H2d. lia. }
    assert (Hr : (c * 2 ^ 53 + e) mod 2 ^ d = e).
    { symmetry. apply (Z.mod_unique _ _ (c * 2 ^ (53 - d))); [lia|].
      rewrite H2d. lia. }
    rewrite Hq, Hr.
    rewrite (proj2 (Z.ltb_lt _ _) Heh). simpl.
    rewrite H2d. lia.
  - (* more than nine tenths *)
    destruct (fl_nonneg_near _ Hp) as (h & Hh & Hhp & _ & Hhi).
    unfold Float.point9 in *.
    change (2 ^ 53) with 9007199254740992 in *.
    change (2 ^ 32) with 4294967296 in *.
    lia.
Qed.

(** The staleness test of [loadSession] is the exact one: fewer than nine
    tenths of the ids resolve. *)
Lemma stale_iff (c n : Z) :
  0 <= c -> 0 <= n < 2 ^ 32 ->
  (c * 2 ^ 53 <? Float.times_point9 n) = true <-> 10 * c < 9 * n.
Proof.
  intros Hc Hn. rewrite Z.ltb_lt. split.
  - intros H. destruct (Z.lt_ge_cases (10 * c) (9 * n)) as [|Hge]; [done|].
    pose proof (times_point9_le c n Hc Hn Hge). lia.
  - intros H. apply times_point9_gt; [done| |done].
    split; [lia|]. eapply Z.lt_trans; [apply Hn|]. done.
Qed.

End Point9.

(** ** Cell keys *)

Section KeyFacts.

(** A decimal numeral followed by a comma determines the numeral and what
    follows the comma. *)
Lemma uint_comma_inj (d d' : Decimal.uint) (t t' : string) :
  NilEmpty.string_of_uint d +:+ String "," t
  = NilEmpty.string_of_uint d' +:+ String "," t' ->
  d = d' /\ t = t'.
Proof.
  revert d'. induction d as [|d IH|d IH|d IH|d IH|d IH|d IH|d IH|d IH|d IH|d IH];
    intros [|e|e|e|e|e|e|e|e|e|e] H; simpl in H; try discriminate H;
    try (injection H as H; apply IH in H as [-> ->]; done).
  injection H as ->. done.
Qed.

Lemma nonnil_string (u : Decimal.uint) :
  u <> Decimal.Nil -> NilZero.string_of_uint u = NilEmpty.string_of_uint u.
Proof. by destruct u. Qed.

Lemma uint_no_dash (u : Decimal.uint) (s t : string) :
  NilEmpty.string_of_uint u +:+ String "," t <> String "-" s.
Proof. destruct u; simpl; discriminate. Qed.

Lemma to_int_nonnil (z : Z) :
  match Z.to_int z with Decimal.Pos u | Decimal.Neg u => u <> Decimal.Nil end.
Proof.
  destruct z; simpl; [discriminate | apply Unsigned.to_uint_nonnil ..].
Qed.

Lemma numToString_comma_inj (a b : Z) (t t' : string) :
  Js.numToString a +:+ String "," t = Js.numToString b +:+ String "," t' ->
  a = b /\ t = t'.
Proof.
  unfold Js.numToString. intros H.
  pose proof (to_int_nonnil a) as Ha. pose proof (to_int_nonnil b) as Hb.
  cut (Z.to_int a = Z.to_int b /\ t = t').
  { intros [E ->]. split; [by apply DecimalZ.to_int_inj | done]. }
  destruct (Z.to_int a) as [u|u], (Z.to_int b) as [v|v]; simpl in H;
    rewrite ?(nonnil_string u), ?(nonnil_string v) in H by done.
  - apply uint_comma_inj in H as [-> ->]. done.
  - by apply uint_no_dash in H.
  - symmetry in H. by apply uint_no_dash in H.
  - injection H as H. apply uint_comma_inj in H as [-> ->]. done.
Qed.

(** The key [row + ',' + col] names one coordinate. *)
Lemma cellKey_inj (r c r' c' : Z) :
  cellKey r c = cellKey r' c' -> r = r' /\ c = c'.
Proof.
  unfold cellKey. intros H.
  apply numToString_comma_inj in H as [-> H]. split; [done|].
  assert (E : Js.numToString c +:+ String "," "" 
              = Js.numToString c' +:+ String "," "") by (by rewrite H).
  by apply numToString_comma_inj in E as [-> _].
Qed.

Lemma keyOf_inj : Inj (=) (=) keyOf.
Proof.
  intros [r c] [r' c'] H. unfold keyOf in H; simpl in H.
  by apply cellKey_inj in H as [-> ->].
Qed.

End KeyFacts.

(** ** Grid allocator *)

Section GridFacts.
Context (dim : Z).

Lemma allCells_NoDup : NoDup (allCells dim).
Proof.
  unfold allCells. apply NoDup_bind.
  - intros r1 r2 c Hr1 Hr2 H1 H2.
    apply list_elem_of_bind in H1 as (c1 & H1 & _).
    apply list_elem_of_bind in H2 as (c2 & H2 & _).
    apply list_elem_of_singleton in H1, H2. congruence.
  - intros r _. apply NoDup_bind.
    + intros c1 c2 c H1 H2 Hc1 Hc2.
      apply list_elem_of_singleton in Hc1, Hc2. congruence.
    + intros c _. apply NoDup_singleton.
    + apply NoDup_seqZ.
  - apply NoDup_seqZ.
Qed.

Lemma partitions_init : partitions dim (initGridOf dim).
Proof.
  exists []. simpl. rewrite app_nil_r. split; [done|]. apply dom_empty_L.
Qed.

Lemma partitions_assign (c : Candidate) (g : Grid) (w : World) :
  partitions dim g -> partitions dim (assignGridCell c g w).1.2.
Proof.
  intros (occ & Hperm & Hdom). unfold assignGridCell.
  destruct (length (availableCells g) =? 0)%nat; [by exists occ|].
  unfold mbind, M_bind, Math_random; simpl.
  destruct (availableCells g !! _) as [cell|] eqn:Hcell; simpl;
    [|by exists occ].
  exists (cell :: occ). split.
  - pose proof (delete_Permutation _ _ _ Hcell) as Hd.
    etrans; [|exact Hperm].
    etrans; [symmetry; apply Permutation_middle|]. simpl.
    rewrite app_comm_cons. apply Permutation_app; [by symmetry | done].
  - simpl. rewrite dom_insert_L, Hdom. done.
Qed.

Lemma partitions_release (r c : Z) (g : Grid) :
  partitions dim g -> partitions dim (releaseGridCell r c g).
Proof.
  intros (occ & Hperm & Hdom). unfold releaseGridCell.
  destruct (cells g !! cellKey r c) as [v|] eqn:Hk; [|by exists occ].
  assert (Hin : cellKey r c ∈ dom (cells g)) by (apply elem_of_dom; eauto).
  rewrite Hdom, elem_of_list_to_set, list_elem_of_fmap in Hin.
  destruct Hin as (c0 & Hkey & Hc0).
  assert (c0 = mkCell r c) as ->.
  { destruct c0 as [r0 c0]. unfold keyOf in Hkey; simpl in Hkey.
    by apply cellKey_inj in Hkey as [-> ->]. }
  apply elem_of_Permutation in Hc0 as (occ' & Hocc).
  assert (Hnd : NoDup (availableCells g ++ mkCell r c :: occ')).
  { rewrite <- Hocc, Hperm. apply allCells_NoDup. }
  apply NoDup_app in Hnd as (_ & _ & Hnd). apply NoDup_cons in Hnd as [Hnot _].
  exists occ'. simpl. split.
  - rewrite <- Hperm, Hocc, <- app_assoc. done.
  - rewrite dom_delete_L, Hdom.
    rewrite (list_to_set_perm_L _ _ (fmap_Permutation keyOf _ _ Hocc)).
    simpl. fold (cellKey r c).
    assert (cellKey r c ∉ (list_to_set (keyOf <$> occ') : gset string)).
    { rewrite elem_of_list_to_set, list_elem_of_fmap. intros (c1 & Hk1 & Hc1).
      destruct c1 as [r1 c1]. unfold keyOf in Hk1; simpl in Hk1.
      apply cellKey_inj in Hk1 as [-> ->]. done. }
    change (keyOf (mkCell r c)) with (cellKey r c).
    apply set_eq. intros k.
    rewrite elem_of_difference, elem_of_union, !elem_of_singleton.
    split; [intros [[->|?] ?]; done|].
    intros Hin. split; [by right|]. by intros ->.
Qed.

Lemma partitions_run (ops : list GridOp) (g : Grid) (w : World) :
  partitions dim g -> partitions dim (runGrid ops g w).1.
Proof.
  revert g w. induction ops as [|op ops IH]; intros g w Hg; [done|].
  unfold runGrid in *. simpl. unfold mbind, M_bind.
  destruct (gridStep g op w) as [g' w'] eqn:Hstep.
  apply IH. destruct op as [c|r c]; simpl in Hstep.
  - unfold mbind, M_bind in Hstep.
    pose proof (partitions_assign c g w Hg) as H.
    destruct (assignGridCell c g w) as [[o g1] w1]. simpl in *.
    by injection Hstep as <- _.
  - injection Hstep as <- _. by apply partitions_release.
Qed.

Lemma partitions_spec (g : Grid) :
  partitions dim g ->
  NoDup (availableCells g)
  ∧ (∀ c, c ∈ allCells dim
          ↔ c ∈ availableCells g ∨ is_Some (cells g !! keyOf c))
  ∧ (∀ c, c ∈ availableCells g → cells g !! keyOf c = None)
  ∧ (∀ k, is_Some (cells g !! k) → ∃ c, c ∈ allCells dim ∧ keyOf c = k)
  ∧ (length (availableCells g) + size (cells g) = length (allCells dim))%nat.
Proof.
  intros (occ & Hperm & Hdom).
  pose proof allCells_NoDup as Hnd. rewrite <- Hperm in Hnd.
  apply NoDup_app in Hnd as (Hav & Hdisj & Hocc).
  assert (Hkey : ∀ c, is_Some (cells g !! keyOf c) ↔ c ∈ occ).
  { intros c. rewrite <- elem_of_dom, Hdom, elem_of_list_to_set,
      list_elem_of_fmap. split.
    - intros (c' & E & Hc'). by apply keyOf_inj in E as ->.
    - intros Hc. eauto. }
  split; [done|]. split.
  { intros c. rewrite <- Hperm, elem_of_app, Hkey. done. }
  split.
  { intros c Hc. apply eq_None_not_Some. rewrite Hkey. by apply Hdisj. }
  split.
  { intros k Hk. apply elem_of_dom in Hk.
    rewrite Hdom, elem_of_list_to_set, list_elem_of_fmap in Hk.
    destruct Hk as (c & -> & Hc). exists c. split; [|done].
    rewrite <- Hperm, elem_of_app. by right. }
  rewrite <- Hperm, length_app. f_equal.
  rewrite <- size_dom, Hdom, size_list_to_set.
  - by rewrite length_fmap.
  - apply NoDup_fmap; [apply keyOf_inj | done].
Qed.

End GridFacts.

(** C4.  For every grid produced by [initGrid] (whatever the grid
    constant) and every finite sequence of assign and release calls, with
    any behaviour of the random source: the free cells hold no coordinate
    twice, a coordinate of the grid is free or is a key of [cells], never
    both, every key of [cells] is the key of a coordinate of the grid, and
    the two collections together count exactly the cells of the grid. *)
Theorem grid_partition (dim : Z) (ops : list GridOp) (w : World) :
  let g := (runGrid ops (initGridOf dim) w).1 in
  NoDup (availableCells g)
  ∧ (∀ c, c ∈ allCells dim
          ↔ c ∈ availableCells g ∨ is_Some (cells g !! keyOf c))
  ∧ (∀ c, c ∈ availableCells g → cells g !! keyOf c = None)
  ∧ (∀ k, is_Some (cells g !! k) → ∃ c, c ∈ allCells dim ∧ keyOf c = k)
  ∧ (length (availableCells g) + size (cells g) = length (allCells dim))%nat.
Proof.
  intros g. apply partitions_spec, partitions_run, partitions_init.
Qed.

(** ** Seeded shuffle *)

Section ShuffleFacts.
Context {A : Type} (rd : A -> Candidate).

Lemma swap_Permutation (arr : list A) (i j : nat) (x y : A) :
  arr !! i = Some x -> arr !! j = Some y ->
  <[j := x]> (<[i := y]> arr) ≡ₚ arr.
Proof.
  intros Hi Hj.
  pose proof (lookup_lt_Some _ _ _ Hi) as Hli.
  pose proof (lookup_lt_Some _ _ _ Hj) as Hlj.
  apply Permutation_inj. split; [by rewrite !length_insert|].
  exists (fun k => if decide (k = i) then j else if decide (k = j) then i else k).
  split.
  - intros a b. repeat case_decide; intros; subst; congruence.
  - intros k. destruct (decide (k = j)) as [->|Hkj].
    + rewrite list_lookup_insert_eq by (by rewrite length_insert).
      repeat case_decide; subst; congruence.
    + rewrite list_lookup_insert_ne by done.
      destruct (decide (k = i)) as [->|Hki].
      * rewrite list_lookup_insert_eq by done. congruence.
      * rewrite list_lookup_insert_ne by done.
        repeat case_decide; congruence.
Qed.

Lemma shuffle_list_Permutation (i : nat) (seed : Z) (arr : list A) :
  shuffle_list i seed arr ≡ₚ arr.
Proof.
  revert seed arr. induction i as [|i IH]; intros seed arr; [done|].
  cbn [shuffle_list]. destruct (Shuffle.mulberry32 seed) as [seed' u].
  set (j := Z.to_nat _). clearbody j.
  etrans; [apply IH|].
  destruct (arr !! S i) as [x|] eqn:Hi; [|done].
  destruct (arr !! j) as [y|] eqn:Hj; [|done].
  by apply swap_Permutation.
Qed.

Lemma alter_to_insert {B} (f : B -> B) (l : list B) (a : nat) (x : B) :
  l !! a = Some x -> alter f a l = <[a := f x]> l.
Proof.
  intros Hx. apply list_eq. intros k. destruct (decide (k = a)) as [->|Hne].
  - rewrite list_lookup_alter_eq, Hx. simpl.
    by rewrite list_lookup_insert_eq by (by eapply lookup_lt_Some).
  - by rewrite list_lookup_alter_ne, list_lookup_insert_ne.
Qed.

(** The in-place loop changes the array behind [a] and nothing else. *)
Lemma shuffle_from_insert (i : nat) (seed : Z) (st : list (list A))
    (a : nat) (arr : list A) :
  st !! a = Some arr ->
  Shuffle.shuffle_from i seed st a = <[a := shuffle_list i seed arr]> st.
Proof.
  revert seed st arr. induction i as [|i IH]; intros seed st arr Ha.
  { cbn [shuffle_list Shuffle.shuffle_from]. symmetry. by apply list_insert_id. }
  cbn [shuffle_list Shuffle.shuffle_from].
  destruct (Shuffle.mulberry32 seed) as [seed' u].
  pose proof (lookup_lt_Some _ _ _ Ha) as Hlt.
  set (j := Z.to_nat _). clearbody j.
  unfold Shuffle.aget. rewrite Ha. cbn [mbind option_bind].
  destruct (arr !! S i) as [x|] eqn:Hi; [|by apply IH].
  destruct (arr !! j) as [y|] eqn:Hj; [|by apply IH].
  unfold Shuffle.aset.
  rewrite (alter_to_insert _ st a arr Ha).
  rewrite (alter_to_insert _ (<[a:=<[S i:=y]> arr]> st) a (<[S i:=y]> arr))
    by (by apply list_lookup_insert_eq).
  rewrite (list_insert_insert_eq st a).
  rewrite (IH _ _ (<[j:=x]> (<[S i:=y]> arr)))
    by (by apply list_lookup_insert_eq).
  by rewrite (list_insert_insert_eq st a).
Qed.

(** With the random method and a seed, the call appends one new array, the
    shuffled copy; the clock reading plays no part. *)
Lemma applySelectionMethod_random (now : Z) (st : list (list A)) (R : nat)
    (arr : list A) (S : Z) :
  st !! R = Some arr ->
  Shuffle.applySelectionMethod rd now st R "random" (Some S)
  = (length st, st ++ [shuffle_list (length arr - 1) S arr]).
Proof.
  intros HR. unfold Shuffle.applySelectionMethod. simpl.
  rewrite HR. simpl. f_equal. unfold Shuffle.seededShuffle. simpl.
  assert (Hnew : (st ++ [arr]) !! length st = Some arr).
  { rewrite lookup_app_r by lia. by rewrite Nat.sub_diag. }
  rewrite Hnew. simpl.
  rewrite (shuffle_from_insert _ _ _ _ arr Hnew).
  rewrite insert_app_r_alt by lia. by rewrite Nat.sub_diag.
Qed.

End ShuffleFacts.

(** C8.  Applying the selection policy with the ['random'] method and an
    explicit seed twice to the array behind [R] gives, both times, a new
    array with the same contents, a permutation of the input, whatever the
    clock says; the input array itself is left as it was by both calls. *)
Theorem seeded_shuffle_reproducible {A : Type} (rd : A -> Candidate)
    (st : list (list A)) (R : nat) (arr : list A) (S now1 now2 : Z) :
  st !! R = Some arr ->
  let call1 := Shuffle.applySelectionMethod rd now1 st R "random" (Some S) in
  let call2 :=
    Shuffle.applySelectionMethod rd now2 call1.2 R "random" (Some S) in
  exists out : list A,
    call1.2 !! call1.1 = Some out
    /\ call2.2 !! call2.1 = Some out
    /\ out ≡ₚ arr
    /\ call1.2 !! R = Some arr
    /\ call2.2 !! R = Some arr.
Proof.
  intros HR. cbv zeta.
  pose proof (lookup_lt_Some _ _ _ HR) as Hlt.
  rewrite (applySelectionMethod_random rd now1 st R arr S HR). cbn [fst snd].
  assert (HR1 : (st ++ [shuffle_list (length arr - 1) S arr]) !! R = Some arr)
    by (by rewrite lookup_app_l).
  rewrite (applySelectionMethod_random rd now2 _ R arr S HR1). cbn [fst snd].
  exists (shuffle_list (length arr - 1) S arr).
  repeat split.
  - rewrite lookup_app_r by lia. by rewrite Nat.sub_diag.
  - rewrite lookup_app_r by lia. by rewrite Nat.sub_diag.
  - apply shuffle_list_Permutation.
  - done.
  - rewrite lookup_app_l by (rewrite length_app; simpl; lia). done.
Qed.

(** ** Scoring and skipping *)

Section ScoreFacts.
Context (session : Session) (candidateId : string) (w : World).

Lemma saveSession_unit (s : Session) (w0 : World) : (saveSession s w0).1 = tt.
Proof. by destruct (saveSession s w0) as [[] ?]. Qed.

(** What [scoreCandidate] returns for an id that has no score yet. *)
Lemma scoreCandidate_new (v : Js.JsVal) :
  scores session !! candidateId = None ->
  let s1 :=
    set_scores session
      (<[candidateId :=
           mkScoreEntry v (clock w (ticks w)) (currentBatchIndex session + 1)
                        false]> (scores session)) in
  exists t w',
    scoreCandidate session candidateId v w
    = ((mkScoreResult true (Some (allProcessed s1)) None,
        if allProcessed s1 then set_completedAt s1 (Some t) else s1), w').
Proof.
  intros Hnone s1. unfold scoreCandidate. rewrite Hnone.
  unfold saveSession. run_M. fold s1.
  destruct (allProcessed s1); simpl;
    [eexists _, _; reflexivity | exists 0; eexists; reflexivity].
Qed.

Lemma skipCandidate_result :
  let s1 := set_undecided session ({[candidateId]} ∪ undecided session) in
  exists t w',
    skipCandidate session candidateId w
    = ((mkScoreResult true (Some (allProcessed s1)) None,
        if allProcessed s1 then set_completedAt s1 (Some t) else s1), w').
Proof.
  intros s1. unfold skipCandidate, saveSession. run_M. fold s1.
  destruct (allProcessed s1); simpl;
    [eexists _, _; reflexivity | exists 0; eexists; reflexivity].
Qed.

End ScoreFacts.

Section Frames.

Lemma rd_same_heap (w w' : World) : heap w' = heap w -> rd w' = rd w.
Proof. intros H. unfold rd. by rewrite H. Qed.

Lemma advance_frame (s : Session) (w : World) :
  sameDecisions s (advanceToNextBatch s w).1.2.
Proof.
  unfold advanceToNextBatch. destruct (moreBatches s); [|done].
  unfold saveSession. run_M. done.
Qed.

Lemma nextBatch_frame (s : Session) (w : World) :
  sameDecisions s (getNextBatchWithGridPositions s w).1.2.
Proof.
  unfold getNextBatchWithGridPositions. run_M.
  destruct (placeAll _ _ _) as [[g batch] w1]. unfold saveSession. run_M.
  done.
Qed.

Lemma remove_frame (s : Session) (i : string) (w : World) :
  sameDecisions s (removeFromBatch s i w).1.2.
Proof. unfold removeFromBatch, saveSession. run_M. done. Qed.

Lemma replace_frame (s : Session) (i : string) (w : World) :
  sameDecisions s (replaceInGrid s i w).1.2.
Proof.
  unfold replaceInGrid. run_M.
  destruct (findById w i _) as [d|]; [|done].
  destruct (gridCell (rd w d)) as [c|]; [|done].
  destruct (list_find _ _) as [[k n]|]; unfold saveSession; run_M; done.
Qed.

(** The first loop of [massScoreByAttribute]. *)
Lemma massScoreOne_fold (v : Js.JsVal) (ls : list nat) (s : Session)
    (r : MassResult) (w : World) :
  let out := foldM (massScoreOne v) (s, r) ls w in
  heap out.2 = heap w
  ∧ undecided out.1.1 = undecided s
  ∧ selectedCandidates out.1.1 = selectedCandidates s
  ∧ completedAt out.1.1 = completedAt s
  ∧ (∀ i, is_Some (scores out.1.1 !! i)
          ↔ is_Some (scores s !! i) ∨ i ∈ map (fun l => ID_xA (rd w l)) ls).
Proof.
  revert s r w. induction ls as [|l ls IH]; intros s r w; simpl.
  { repeat split; try done. - by left. - intros [?|H]; [done|]. by apply elem_of_nil in H. }
  unfold mbind, M_bind. unfold massScoreOne at 1. run_M.
  match goal with |- context [foldM _ (?s1, ?r1) ls ?w1] =>
    specialize (IH s1 r1 w1) end.
  simpl in IH. destruct IH as (Hh & Hu & Hsel & Hc & Hs).
  repeat split; try done.
  - intros H. apply Hs in H as [H|H].
    + simpl in H. destruct (decide (ID_xA (rd w l) = i)) as [<-|Hne].
      * right. apply elem_of_cons. by left.
      * rewrite lookup_insert_ne in H by done. by left.
    + right. apply elem_of_cons. right.
      erewrite rd_same_heap in H; [exact H|done].
  - intros H. apply Hs. simpl.
    destruct (decide (ID_xA (rd w l) = i)) as [<-|Hne].
    + left. rewrite lookup_insert_eq. eauto.
    + rewrite lookup_insert_ne by done.
      destruct H as [H|H]; [by left|].
      apply elem_of_cons in H as [->|H]; [done|]. right.
      erewrite rd_same_heap; [exact H|done].
Qed.

Lemma massScore_frame (s : Session) (ty val : string) (v : Js.JsVal)
    (all : option (list nat)) (w : World) :
  let s' := (massScoreByAttribute s ty val v all w).1.2 in
  undecided s' = undecided s
  ∧ selectedCandidates s' = selectedCandidates s
  ∧ (is_Some (completedAt s) → is_Some (completedAt s'))
  ∧ (∀ i, is_Some (scores s' !! i)
          ↔ is_Some (scores s !! i) ∨ i ∈ massTargets w s ty val all).
Proof.
  unfold massScoreByAttribute. run_M.
  match goal with |- context [foldM _ (s, ?r0) ?ls w] =>
    pose proof (massScoreOne_fold v ls s r0 w) as H;
    destruct (foldM (massScoreOne v) (s, r0) ls w) as [[s1 r1] w1] end.
  simpl in H. destruct H as (Hh & Hu & Hsel & Hc & Hs).
  destruct (allProcessed _); unfold saveSession; run_M;
    (split; [done|]; split; [done|]; split; [|exact Hs]).
  - eauto.
  - by rewrite Hc.
Qed.

End Frames.

(** ** Exclusivity of scores and undecided *)

Section Exclusive.

Lemma completed_if (b : bool) (s : Session) (t : Z) :
  scores (if b then set_completedAt s (Some t) else s) = scores s
  ∧ undecided (if b then set_completedAt s (Some t) else s) = undecided s
  ∧ selectedCandidates (if b then set_completedAt s (Some t) else s)
    = selectedCandidates s.
Proof. by destruct b. Qed.

Lemma step_exclusive (op : Op) (s : Session) (w : World) :
  exclusive s -> decidesOnce w s op -> exclusive (step op s w).1.
Proof.
  intros Hex Hop. unfold exclusive in *. intros i. destruct op as [c v|c|ty val v all| | |c|c];
    cbn [step decidesOnce] in *; unfold mbind, M_bind.
  - destruct (scores s !! c) as [e|] eqn:Hc.
    + unfold scoreCandidate. rewrite Hc. simpl. apply Hex.
    + destruct (scoreCandidate_new s c w v Hc) as (t & w' & ->). simpl.
      destruct (completed_if (allProcessed
        (set_scores s (<[c:=mkScoreEntry v (clock w (ticks w))
                              (currentBatchIndex s + 1) false]> (scores s))))
        (set_scores s (<[c:=mkScoreEntry v (clock w (ticks w))
                              (currentBatchIndex s + 1) false]> (scores s))) t)
        as (-> & -> & _). simpl.
      destruct (decide (c = i)) as [<-|Hne]; [done|].
      rewrite lookup_insert_ne by done. apply Hex.
  - destruct (skipCandidate_result s c w) as (t & w' & ->). simpl.
    destruct (completed_if (allProcessed
        (set_undecided s ({[c]} ∪ undecided s)))
        (set_undecided s ({[c]} ∪ undecided s)) t) as (-> & -> & _). simpl.
    intros Hi. rewrite elem_of_union, elem_of_singleton.
    intros [->|Hin]; [rewrite Hop in Hi; by destruct Hi | by apply (Hex i)].
  - pose proof (massScore_frame s ty val v all w) as (Hu & _ & _ & Hs).
    destruct (massScoreByAttribute s ty val v all w) as [[r s'] w']. simpl in *.
    rewrite Hu. intros Hi. apply Hs in Hi as [Hi|Hi]; [by apply Hex | by apply Hop].
  - pose proof (advance_frame s w) as (Hs & Hu & _).
    destruct (advanceToNextBatch s w) as [[r s'] w']. simpl in *. unfold mret, M_ret; simpl.
    rewrite Hs, Hu. apply Hex.
  - pose proof (nextBatch_frame s w) as (Hs & Hu & _).
    destruct (getNextBatchWithGridPositions s w) as [[r s'] w']. simpl in *. unfold mret, M_ret; simpl.
    rewrite Hs, Hu. apply Hex.
  - pose proof (remove_frame s c w) as (Hs & Hu & _).
    destruct (removeFromBatch s c w) as [[r s'] w']. simpl in *. unfold mret, M_ret; simpl.
    rewrite Hs, Hu. apply Hex.
  - pose proof (replace_frame s c w) as (Hs & Hu & _).
    destruct (replaceInGrid s c w) as [[r s'] w']. simpl in *. unfold mret, M_ret; simpl.
    rewrite Hs, Hu. apply Hex.
Qed.

Lemma trace_exclusive (ops : list Op) (s : Session) (w : World) :
  exclusive s -> runDecidesOnce ops s w -> Forall exclusive (trace ops s w).
Proof.
  revert s w. induction ops as [|op ops IH]; intros s w Hex Hrun; simpl.
  { constructor. }
  destruct Hrun as [Hop Hrun].
  pose proof (step_exclusive op s w Hex Hop) as Hs.
  destruct (step op s w) as [s' w']. simpl in Hs.
  constructor; [done|]. by apply IH.
Qed.

End Exclusive.

(** ** Session creation *)

Section Create.
Context (all : list nat) (uo : option UserOptions) (w : World).

Lemma createSession_unfold :
  exists now w',
    let options := seededOptions (mergeOptions uo) w in
    let selected := Shuffle.filterCandidates (rd w) now all options in
    heap w' = heap w
    /\ ((createSession all uo w).1 = inl (mkCreateError "No candidates match the current filters"
                 ["Try expanding the AI score range";
                  "Include ranked candidates (change rank filter to "
                    +:+ dquote +:+ "all" +:+ dquote +:+ ")";
                  "Select more groups"]) /\ selected = []
        \/ exists s, createSession all uo w = (inr s, w')
             /\ selected <> []
             /\ selectedCandidates s = selected
             /\ selectedIds s = map (fun l => ID_xA (rd w l)) selected
             /\ batchSize s = Opt.batchSize options
             /\ currentBatchIndex s = 0
             /\ currentBatchCandidates s = []
             /\ scores s = ∅ /\ undecided s = ∅ /\ completedAt s = None
             /\ grid s = initGrid).
Proof.
  unfold createSession, seededOptions.
  set (o := mergeOptions uo).
  destruct (String.eqb (Opt.selectionMethod o) "random"
            && negb (truthyNum (Opt.randomSeed o))) eqn:Hseed.
  - run_M. unfold filterCandidates. run_M.
    apply andb_true_iff in Hseed as [Hm _]. rewrite Hm. simpl.
    norm_rd.
    match goal with |- context [Shuffle.filterCandidates ?r ?n all ?oo] =>
      set (sel := Shuffle.filterCandidates r n all oo);
      exists n end.
    destruct sel as [|x sel'] eqn:Hsel; simpl.
    + exists w. split; [reflexivity|]. left. split; [reflexivity|].
      subst sel. exact Hsel.
    + unfold saveSession. run_M. eexists. split; cycle 1.
      { right. eexists. split; [reflexivity|]. simpl.
        fold sel. rewrite Hsel. repeat split; done. }
      reflexivity.
  - run_M. unfold filterCandidates. run_M.
    destruct (String.eqb (Opt.selectionMethod o) "random"
              && negb (bool_decide (is_Some (Opt.randomSeed o)))) eqn:Hs2.
    { exfalso. apply andb_true_iff in Hs2 as [Hm Hn].
      rewrite Hm in Hseed. simpl in Hseed.
      destruct (Opt.randomSeed o) as [z|]; simpl in *; done. }
    run_M.
    norm_rd.
    match goal with |- context [Shuffle.filterCandidates ?r ?n all ?oo] =>
      set (sel := Shuffle.filterCandidates r n all oo);
      exists n end.
    destruct sel as [|x sel'] eqn:Hsel; simpl.
    + exists w. split; [reflexivity|]. left. split; [reflexivity|].
      subst sel. exact Hsel.
    + unfold saveSession. run_M. eexists. split; cycle 1.
      { right. eexists. split; [reflexivity|]. simpl.
        fold sel. rewrite Hsel. repeat split; done. }
      reflexivity.
Qed.

End Create.

Lemma created_exclusive (all : list nat) (uo : option UserOptions) (w : World)
    (s : Session) (w0 : World) :
  createSession all uo w = (inr s, w0) -> exclusive s.
Proof.
  intros E. destruct (createSession_unfold all uo w) as (now & w' & _ & H).
  destruct H as [[H _]|(s' & E' & _ & _ & _ & _ & _ & _ & Hs & _)].
  - rewrite E in H. done.
  - rewrite E in E'. injection E' as <- _. intros i. rewrite Hs, lookup_empty.
    by intros [? ?].
Qed.

(** C1, as amended.  From a created session, along every sequence of
    engine calls in which [scoreCandidate] and [massScoreByAttribute] are
    given only ids that are not in [undecided] and [skipCandidate] only ids
    that have no score, no id is at any point both a key of [scores] and a
    member of [undecided]. *)
Theorem decided_once_stays_exclusive (all : list nat)
    (uo : option UserOptions) (w : World) (ops : list Op) :
  match createSession all uo w with
  | (inr s, w0) =>
      runDecidesOnce ops s w0 -> Forall exclusive (s :: trace ops s w0)
  | (inl _, _) => True
  end.
Proof.
  destruct (createSession all uo w) as [[e|s] w0] eqn:E; [done|].
  intros Hrun. pose proof (created_exclusive _ _ _ _ _ E) as Hex.
  constructor; [done|]. by apply trace_exclusive.
Qed.

(** The amended C1 at a concrete run: a wave is placed, "A" is scored and
    leaves the grid, "B" is skipped. *)
Lemma decided_once_witness :
  match createSession [0%nat; 1%nat] None twoRecords with
  | (inr s, w0) => Forall exclusive (s :: trace demoOps s w0)
  | (inl _, _) => False
  end.
Proof.
  pose proof (decided_once_stays_exclusive [0%nat; 1%nat] None twoRecords
                demoOps) as H.
  eassert (E : createSession [0%nat; 1%nat] None twoRecords = (inr _, _))
    by (vm_compute; reflexivity).
  rewrite E in H |- *. apply H.
  refine (bool_decide_unpack _ _). vm_compute. exact I.
Defined.

(** C1 as stated fails: scoring "A" and then skipping "A" leaves "A" in both
    collections; [skipCandidate] does not look at [scores]. *)
Lemma score_then_skip_overlaps :
  match createSession [0%nat; 1%nat] None twoRecords with
  | (inr s, w0) =>
      ¬ Forall exclusive
          (s :: trace [OpScore "A" (Js.VNum 2); OpSkip "A"] s w0)
  | (inl _, _) => False
  end.
Proof.
  eassert (E : createSession [0%nat; 1%nat] None twoRecords = (inr _, _))
    by (vm_compute; reflexivity).
  rewrite E. intros HF.
  apply Forall_cons in HF as [_ HF].
  match type of HF with
  | Forall _ ?l =>
      eassert (E2 : l = [_; _]) by (vm_compute; reflexivity);
      rewrite E2 in HF
  end.
  apply Forall_cons in HF as [_ HF]. apply Forall_cons in HF as [HF _].
  apply (HF "A").
  - refine (bool_decide_unpack _ _). vm_compute. exact I.
  - refine (bool_decide_unpack _ _). vm_compute. exact I.
Qed.

(** ** Loading a snapshot *)

Section Load.
Context (w : World) (all : list nat).

Lemma candidateMap_fold (ls : list nat) (m : gmap string nat) (i : string)
    (l : nat) :
  foldl (fun m l => <[ID_xA (rd w l) := l]> m) m ls !! i = Some l ->
  m !! i = Some l \/ (l ∈ ls /\ ID_xA (rd w l) = i).
Proof.
  revert m. induction ls as [|x ls IH]; intros m H; simpl in H; [by left|].
  apply IH in H as [H|[H1 H2]].
  - destruct (decide (ID_xA (rd w x) = i)) as [E|E].
    + rewrite <- E, lookup_insert_eq in H. injection H as ->.
      right. split; [by left|done].
    + rewrite lookup_insert_ne in H by done. by left.
  - right. split; [by right|done].
Qed.

Lemma candidateMap_some (ls : list nat) (m : gmap string nat) (i : string) :
  is_Some (foldl (fun m l => <[ID_xA (rd w l) := l]> m) m ls !! i)
  <-> is_Some (m !! i) \/ Exists (fun l => ID_xA (rd w l) = i) ls.
Proof.
  revert m. induction ls as [|x ls IH]; intros m; simpl.
  { rewrite Exists_nil. tauto. }
  rewrite IH, Exists_cons.
  destruct (decide (ID_xA (rd w x) = i)) as [E|E].
  - rewrite <- E, lookup_insert_eq. split; [|by eauto]. intros _. eauto.
  - rewrite lookup_insert_ne by done. tauto.
Qed.

Lemma candidateMapOf_sound (i : string) (l : nat) :
  candidateMapOf w all !! i = Some l -> l ∈ all /\ ID_xA (rd w l) = i.
Proof.
  intros H. apply candidateMap_fold in H as [H|H]; [|done].
  by rewrite lookup_empty in H.
Qed.

Lemma candidateMapOf_resolves (i : string) :
  is_Some (candidateMapOf w all !! i) <-> resolves w all i.
Proof.
  unfold candidateMapOf, resolves. rewrite candidateMap_some, lookup_empty.
  split; [intros [[? ?]|?]; done | by right].
Qed.

Lemma resolved_count (ids : list string) :
  length (omap (fun i => candidateMapOf w all !! i) ids)
  = length (filter (resolves w all) ids).
Proof.
  induction ids as [|i ids IH]; [done|]. simpl in IH |- *.
  rewrite filter_cons.
  destruct (candidateMapOf w all !! i) as [l|] eqn:E.
  - rewrite decide_True by (apply candidateMapOf_resolves; eauto).
    simpl. f_equal. exact IH.
  - rewrite decide_False; [exact IH|].
    intros H. apply candidateMapOf_resolves in H. rewrite E in H.
    by destruct H.
Qed.

End Load.

(** C5.  For a stored snapshot that is not completed, with N selected
    ids (N below the array length limit 2^32), and a dataset in which fewer
    than 0.9 * N of them resolve, [loadSession] returns null and empties
    the storage slot; the records are not touched. *)
Theorem loadSession_discards_stale (all : list nat) (w : World)
    (data : Saved.t) :
  localStorage w = Some data ->
  Saved.completedAt data = None ->
  Z.of_nat (length (Saved.selectedIds data)) < 2 ^ 32 ->
  10 * Z.of_nat (length (filter (resolves w all) (Saved.selectedIds data)))
  < 9 * Z.of_nat (length (Saved.selectedIds data)) ->
  (loadSession all w).1 = None
  /\ localStorage (loadSession all w).2 = None
  /\ heap (loadSession all w).2 = heap w.
Proof.
  intros Hst Hc Hn Hlt. unfold loadSession. run_M. rewrite Hst, Hc. simpl.
  rewrite resolved_count.
  rewrite (proj2 (Z.ltb_lt _ _)); [done|].
  apply times_point9_gt; [lia| |done].
  split; [lia|]. eapply Z.lt_trans; [exact Hn|]. done.
Qed.

Section Restore.
Context (cm : gmap string nat).

Lemma rd_store_eq (w : World) (l : nat) (c : Candidate) :
  (l < length (heap w))%nat -> rd (store l c w).2 l = c.
Proof.
  intros Hl. unfold rd, store. simpl.
  by rewrite list_lookup_insert_eq.
Qed.

Lemma rd_store_ne (w : World) (l l' : nat) (c : Candidate) :
  l <> l' -> rd (store l c w).2 l' = rd w l'.
Proof.
  intros Hl. unfold rd, store. simpl.
  by rewrite list_lookup_insert_ne.
Qed.

Lemma restoreBatchItem_found (acc : list nat) (it : Saved.BatchItem)
    (w : World) (l0 : nat) :
  cm !! Saved.item_id it = Some l0 ->
  restoreBatchItem cm acc it w
  = (acc ++ [l0],
     (store l0 (withGridCell (rd w l0) (Saved.item_cell it)) w).2).
Proof. intros E. unfold restoreBatchItem. by rewrite E. Qed.

Lemma restoreBatchItem_missing (acc : list nat) (it : Saved.BatchItem)
    (w : World) :
  cm !! Saved.item_id it = None -> restoreBatchItem cm acc it w = (acc, w).
Proof. intros E. unfold restoreBatchItem. by rewrite E. Qed.

Lemma restore_fold (items : list Saved.BatchItem) (acc : list nat)
    (w : World) :
  mapOk cm w ->
  let out := foldM (restoreBatchItem cm) acc items w in
  length (heap out.2) = length (heap w)
  /\ localStorage out.2 = localStorage w
  /\ (forall l, ID_xA (rd out.2 l) = ID_xA (rd w l))
  /\ (forall l, (forall item, item ∈ items ->
                              cm !! Saved.item_id item <> Some l) ->
                rd out.2 l = rd w l)
  /\ (forall k item l,
        items !! k = Some item -> cm !! Saved.item_id item = Some l ->
        (forall k' item', (k < k')%nat -> items !! k' = Some item' ->
                          Saved.item_id item' <> Saved.item_id item) ->
        gridCell (rd out.2 l) = Saved.item_cell item)
  /\ (forall item l, item ∈ items -> cm !! Saved.item_id item = Some l ->
                     l ∈ out.1)
  /\ (forall l, l ∈ acc -> l ∈ out.1)
  /\ (forall l, l ∈ out.1 ->
                l ∈ acc \/ exists item, item ∈ items
                                        /\ cm !! Saved.item_id item = Some l).
Proof.
  revert acc w. induction items as [|it items IH]; intros acc w Hok;
    cbn [foldM].
  { repeat split; eauto; intros;
      match goal with
      | H : _ ∈ [] |- _ => by apply elem_of_nil in H
      | H : [] !! _ = Some _ |- _ => by rewrite lookup_nil in H
      end. }
  unfold mbind, M_bind.
  destruct (cm !! Saved.item_id it) as [l0|] eqn:E0.
  - rewrite (restoreBatchItem_found _ _ _ _ E0).
    set (w1 := (store l0 (withGridCell (rd w l0) (Saved.item_cell it)) w).2).
    destruct (Hok _ _ E0) as [Hid0 Hl0].
    assert (Hsame : forall l, l <> l0 -> rd w1 l = rd w l).
    { intros l Hne. by apply rd_store_ne. }
    assert (Hat : rd w1 l0 = withGridCell (rd w l0) (Saved.item_cell it)).
    { by apply rd_store_eq. }
    assert (Hids : forall l, ID_xA (rd w1 l) = ID_xA (rd w l)).
    { intros l. destruct (decide (l = l0)) as [->|Hne];
        [by rewrite Hat | by rewrite Hsame]. }
    assert (Hok1 : mapOk cm w1).
    { intros i l Hil. destruct (Hok _ _ Hil) as [H1 H2]. split.
      - by rewrite Hids.
      - unfold w1. simpl. by rewrite length_insert. }
    destruct (IH (acc ++ [l0]) w1 Hok1)
      as (Hlen & Hst & Hid & Hun & Hcell & Hin & Hacc & Hout).
    split; [rewrite Hlen; unfold w1; simpl; by rewrite length_insert|].
    split; [by rewrite Hst|].
    split; [intros l; by rewrite Hid, Hids|].
    split.
    { intros l Hno. rewrite Hun.
      - apply Hsame. intros ->. apply (Hno it); [by left|done].
      - intros item Hitem. apply Hno. by right. }
    split.
    { intros k item l Hk Hl Hlast. destruct k as [|k]; simpl in Hk.
      - injection Hk as <-. rewrite E0 in Hl. injection Hl as <-.
        rewrite Hun; [by rewrite Hat|].
        intros item' Hin' Hl'. apply list_elem_of_lookup in Hin' as [k' Hk'].
        apply (Hlast (S k') item'); [lia|done|].
        destruct (Hok _ _ Hl') as [<- _]. by destruct (Hok _ _ E0) as [<- _].
      - apply (Hcell k item l Hk Hl). intros k' item' Hlt Hk'.
        apply (Hlast (S k') item'); [lia|done]. }
    split.
    { intros item l Hitem Hl. apply elem_of_cons in Hitem as [->|Hitem].
      - rewrite E0 in Hl. injection Hl as <-. apply Hacc.
        apply elem_of_app. right. by left.
      - by apply (Hin item). }
    split.
    { intros l Hl. apply Hacc. apply elem_of_app. by left. }
    intros l Hl. apply Hout in Hl as [Hl|(item & Hitem & Hl)].
    + apply elem_of_app in Hl as [Hl|Hl]; [by left|].
      apply list_elem_of_singleton in Hl as ->. right. exists it.
      split; [by left|done].
    + right. exists item. split; [by right|done].
  - rewrite (restoreBatchItem_missing _ _ _ E0).
    destruct (IH acc w Hok)
      as (Hlen & Hst & Hid & Hun & Hcell & Hin & Hacc & Hout).
    split; [done|]. split; [done|]. split; [done|].
    split.
    { intros l Hno. apply Hun. intros item Hitem. apply Hno. by right. }
    split.
    { intros k item l Hk Hl Hlast. destruct k as [|k]; simpl in Hk.
      - injection Hk as <-. rewrite E0 in Hl. done.
      - apply (Hcell k item l Hk Hl). intros k' item' Hlt Hk'.
        apply (Hlast (S k') item'); [lia|done]. }
    split.
    { intros item l Hitem Hl. apply elem_of_cons in Hitem as [->|Hitem].
      - rewrite E0 in Hl. done.
      - by apply (Hin item). }
    split; [done|].
    intros l Hl. apply Hout in Hl as [Hl|(item & Hitem & Hl)]; [by left|].
    right. exists item. split; [by right|done].
Qed.

End Restore.

Section Resume.
Context (all : list nat) (w : World) (data : Saved.t).
Hypothesis Hstored : localStorage w = Some data.
Hypothesis Hopen : truthyNum (Saved.completedAt data) = false.
Hypothesis Hsize : Z.of_nat (length (Saved.selectedIds data)) < 2 ^ 32.
Hypothesis Hfresh :
  9 * Z.of_nat (length (Saved.selectedIds data))
  <= 10 * Z.of_nat (length (filter (resolves w all) (Saved.selectedIds data))).

(** A snapshot that is neither completed nor stale is resumed. *)
Lemma loadSession_resumes :
  let out :=
    foldM (restoreBatchItem (candidateMapOf w all)) []
          (default [] (Saved.currentBatchData data)) w in
  loadSession all w
  = (Some (mkSession (Saved.id data)
             (omap (fun i => candidateMapOf w all !! i)
                   (Saved.selectedIds data))
             (Saved.selectedIds data) (Saved.batchSize data)
             (Saved.currentBatchIndex data) out.1
             (mapOfEntries (Saved.scores data))
             (list_to_set (Saved.undecided data))
             (Saved.startedAt data) (Saved.completedAt data)
             (restoredGrid (Saved.grid data)) (Saved.config data)),
     out.2).
Proof.
  unfold loadSession. run_M. rewrite Hstored, Hopen. simpl.
  rewrite resolved_count.
  destruct (Z.ltb_spec
              (Z.of_nat (length (filter (resolves w all)
                                        (Saved.selectedIds data))) * 2 ^ 53)
              (Float.times_point9
                 (Z.of_nat (length (Saved.selectedIds data))))) as [Hlt|_].
  { exfalso. apply Z.ltb_lt in Hlt. apply stale_iff in Hlt; lia. }
  destruct (Saved.currentBatchData data) as [items|]; simpl.
  - destruct (foldM _ _ _ _) as [batch w']. done.
  - done.
Qed.

End Resume.

(** C9, as amended.  When the stored snapshot is one that [loadSession]
    resumes (not completed, at least nine tenths of its selected ids
    resolving), every entry of its current-batch data whose id resolves
    against the caller's dataset (the last entry, where an id occurs more
    than once) has its gridRow and gridCol written onto the record of the
    dataset itself: that record is the one pushed on the current batch,
    and no object is created. *)
Theorem loadSession_writes_onto_dataset (all : list nat) (w : World)
    (data : Saved.t) (items : list Saved.BatchItem) (k : nat)
    (item : Saved.BatchItem) (l : nat) :
  localStorage w = Some data ->
  truthyNum (Saved.completedAt data) = false ->
  Z.of_nat (length (Saved.selectedIds data)) < 2 ^ 32 ->
  9 * Z.of_nat (length (Saved.selectedIds data))
  <= 10 * Z.of_nat (length (filter (resolves w all)
                                   (Saved.selectedIds data))) ->
  (forall r, r ∈ all -> (r < length (heap w))%nat) ->
  Saved.currentBatchData data = Some items ->
  items !! k = Some item ->
  candidateMapOf w all !! Saved.item_id item = Some l ->
  (forall k' item', (k < k')%nat -> items !! k' = Some item' ->
                    Saved.item_id item' <> Saved.item_id item) ->
  exists s,
    (loadSession all w).1 = Some s
    /\ l ∈ all
    /\ gridRow (rd (loadSession all w).2 l) = row <$> Saved.item_cell item
    /\ gridCol (rd (loadSession all w).2 l) = col <$> Saved.item_cell item
    /\ l ∈ currentBatchCandidates s
    /\ length (heap (loadSession all w).2) = length (heap w).
Proof.
  intros Hst Hopen Hsize Hfresh Hlive Hitems Hk Hl Hlast.
  rewrite (loadSession_resumes all w data Hst Hopen Hsize Hfresh).
  rewrite Hitems. change (default [] (Some items)) with items.
  cbv zeta. cbn [fst snd].
  assert (Hok : mapOk (candidateMapOf w all) w).
  { intros i r Hr. apply candidateMapOf_sound in Hr as [Hin Hid].
    split; [done | by apply Hlive]. }
  destruct (restore_fold (candidateMapOf w all) items [] w Hok)
    as (Hlen & _ & _ & _ & Hcell & Hin & _ & _).
  eexists. split; [reflexivity|]. cbn [currentBatchCandidates].
  split; [by apply (candidateMapOf_sound w all _ _ Hl)|].
  unfold gridRow, gridCol.
  rewrite (Hcell k item l Hk Hl Hlast).
  repeat split; [|done].
  apply (Hin item l); [|done]. by eapply list_elem_of_lookup_2.
Qed.

(** ** Selection count *)

Section Selection.

Lemma slice0_min_take {A} (k : Z) (l : list A) :
  0 <= k -> slice0 (Z.min k (Z.of_nat (length l))) l = take (Z.to_nat k) l.
Proof.
  intros Hk. unfold slice0.
  destruct (Z.ltb_spec (Z.min k (Z.of_nat (length l))) 0) as [|_]; [lia|].
  destruct (Z.le_ge_cases k (Z.of_nat (length l))) as [H|H].
  - by rewrite Z.min_l.
  - rewrite Z.min_r by done. rewrite Nat2Z.id.
    rewrite !take_ge; [done|lia|lia].
Qed.

Lemma mergeOptions_count (uo : option UserOptions) :
  Opt.selectionCount (mergeOptions uo) = countInForce uo.
Proof. destruct uo as [[[k|] ? ? ? ? ? ?]|]; reflexivity. Qed.

Lemma seededOptions_fields (o : Options) (w : World) :
  Opt.selectionCount (seededOptions o w) = Opt.selectionCount o
  /\ Opt.selectionMethod (seededOptions o w) = Opt.selectionMethod o
  /\ Opt.rankFilter (seededOptions o w) = Opt.rankFilter o
  /\ Opt.aiScoreThreshold (seededOptions o w) = Opt.aiScoreThreshold o
  /\ Opt.groupFilter (seededOptions o w) = Opt.groupFilter o
  /\ (String.eqb (Opt.selectionMethod o) "random" = true ->
      is_Some (Opt.randomSeed (seededOptions o w))).
Proof.
  unfold seededOptions.
  destruct (String.eqb (Opt.selectionMethod o) "random") eqn:Hm; simpl.
  - destruct (Opt.randomSeed o) as [z|] eqn:Hs; simpl.
    + destruct (z =? 0); simpl; rewrite ?Hs; eauto 10.
    + eauto 10.
  - repeat split; done.
Qed.

(** The clock reading is used only by a random selection without seed. *)
Lemma ordered_clock_free {A} (rd : A -> Candidate) (now now' : Z)
    (l : list A) (method : string) (seed : option Z) :
  (String.eqb method "random" = true -> is_Some seed) ->
  Shuffle.ordered rd now l method seed = Shuffle.ordered rd now' l method seed.
Proof.
  intros H. unfold Shuffle.ordered, Shuffle.applySelectionMethod.
  destruct (String.eqb method "top-ai"); [done|].
  destruct (String.eqb method "bottom-ai"); [done|].
  destruct (String.eqb method "random"); [|done].
  destruct (H eq_refl) as [z ->]. done.
Qed.

Lemma step_keeps_selection (op : Op) (s : Session) (w : World) :
  selectedCandidates (step op s w).1 = selectedCandidates s.
Proof.
  destruct op as [c v|c|ty val v all| | |c|c]; cbn [step];
    unfold mbind, M_bind.
  - destruct (scores s !! c) as [e|] eqn:Hc.
    + unfold scoreCandidate. by rewrite Hc.
    + destruct (scoreCandidate_new s c w v Hc) as (t & w' & ->). simpl.
      by destruct (allProcessed _).
  - destruct (skipCandidate_result s c w) as (t & w' & ->). simpl.
    by destruct (allProcessed _).
  - pose proof (massScore_frame s ty val v all w) as (_ & H & _).
    by destruct (massScoreByAttribute s ty val v all w) as [[r s'] w'].
  - pose proof (advance_frame s w) as (_ & _ & H & _).
    by destruct (advanceToNextBatch s w) as [[r s'] w'].
  - pose proof (nextBatch_frame s w) as (_ & _ & H & _).
    by destruct (getNextBatchWithGridPositions s w) as [[r s'] w'].
  - pose proof (remove_frame s c w) as (_ & _ & H & _).
    by destruct (removeFromBatch s c w) as [[r s'] w'].
  - pose proof (replace_frame s c w) as (_ & _ & H & _).
    by destruct (replaceInGrid s c w) as [[r s'] w'].
Qed.

Lemma trace_keeps_selection (ops : list Op) (s : Session) (w : World) :
  Forall (fun s' => selectedCandidates s' = selectedCandidates s)
         (trace ops s w).
Proof.
  revert s w. induction ops as [|op ops IH]; intros s w; simpl; [done|].
  pose proof (step_keeps_selection op s w) as H.
  destruct (step op s w) as [s' w']. simpl in H.
  constructor; [done|]. rewrite <- H. apply IH.
Qed.

End Selection.

(** C3, as amended.  The selection count in force is the caller's or, when
    the options give none, 50.  For a count that is not negative,
    [createSession] selects the first that-many records of the filtered
    and ordered eligible set (all of them when there are fewer), reporting
    an error when that is empty; no later call on the session changes the
    selection. *)
Theorem createSession_cuts_once (all : list nat) (uo : option UserOptions)
    (w : World) (now : Z) (ops : list Op) :
  0 <= countInForce uo ->
  let full :=
    orderedEligible w now all (seededOptions (mergeOptions uo) w) in
  match createSession all uo w with
  | (inr s, w0) =>
      selectedCandidates s = take (Z.to_nat (countInForce uo)) full
      /\ Forall (fun s' => selectedCandidates s' = selectedCandidates s)
                (trace ops s w0)
  | (inl _, _) => take (Z.to_nat (countInForce uo)) full = []
  end.
Proof.
  intros Hk full.
  destruct (createSession_unfold all uo w) as (now' & w' & _ & H).
  cbv zeta in H.
  destruct (seededOptions_fields (mergeOptions uo) w)
    as (Hcount & Hm & _ & _ & _ & Hseed).
  assert (Hsel : Shuffle.filterCandidates (rd w) now' all
                   (seededOptions (mergeOptions uo) w)
                 = take (Z.to_nat (countInForce uo)) full).
  { unfold Shuffle.filterCandidates.
    rewrite Hcount, mergeOptions_count, slice0_min_take by done.
    unfold full, orderedEligible. f_equal.
    apply ordered_clock_free. by rewrite Hm. }
  destruct H as [[E Hnil]|(s & E & Hne & Hs & _)].
  - destruct (createSession all uo w) as [[e|s] w0]; simpl in E; [|done].
    by rewrite <- Hsel.
  - rewrite E. split; [by rewrite Hs|]. apply trace_keeps_selection.
Qed.

(** The amended C3 at 51 eligible records and no options. *)
Lemma createSession_cuts_once_witness :
  0 <= countInForce None
  /\ match createSession (seq 0 51) None manyRecords with
     | (inr s, w0) =>
         selectedCandidates s
         = take 50 (orderedEligible manyRecords 0 (seq 0 51)
                      (seededOptions (mergeOptions None) manyRecords))
         /\ Forall (fun s' => selectedCandidates s' = selectedCandidates s)
                   (trace [OpNextBatch; OpAdvance] s w0)
     | (inl _, _) => False
     end.
Proof.
  split; [done|].
  pose proof (createSession_cuts_once (seq 0 51) None manyRecords 0
                [OpNextBatch; OpAdvance]) as H.
  eassert (E : createSession (seq 0 51) None manyRecords = (inr _, _))
    by (vm_compute; reflexivity).
  rewrite E in H |- *. apply H. done.
Defined.

(** C3 as stated fails: with 51 eligible records and no selection count,
    the session selects 50 of them. *)
Lemma default_count_is_fifty :
  length (orderedEligible manyRecords 0 (seq 0 51)
            (seededOptions (mergeOptions None) manyRecords)) = 51%nat
  /\ match createSession (seq 0 51) None manyRecords with
     | (inr s, _) => length (selectedCandidates s) = 50%nat
     | (inl _, _) => False
     end.
Proof. split; vm_compute; reflexivity. Qed.

(** ** Scoring results *)

(** C6.  For an id that already has a score, [scoreCandidate] returns
    the failure result and the session and the world are exactly as
    before; for an id without one it returns success and the entry for the
    id is the score given, the clock reading, wave number
    [currentBatchIndex + 1]. *)
Theorem scoreCandidate_spec (session : Session) (candidateId : string)
    (v : Js.JsVal) (w : World) :
  (∀ e, scores session !! candidateId = Some e →
        scoreCandidate session candidateId v w
        = ((mkScoreResult false None (Some "Already scored"), session), w))
  ∧ (scores session !! candidateId = None →
       success (scoreCandidate session candidateId v w).1.1 = true
       ∧ scores (scoreCandidate session candidateId v w).1.2 !! candidateId
         = Some (mkScoreEntry v (clock w (ticks w))
                              (currentBatchIndex session + 1) false)).
Proof.
  split.
  - intros e He. unfold scoreCandidate. by rewrite He.
  - intros Hnone.
    destruct (scoreCandidate_new session candidateId w v Hnone) as (t & w' & ->).
    simpl. split; [done|].
    destruct (allProcessed _); simpl; apply lookup_insert_eq.
Qed.

(** C6 at the scenario of the specification: "X" holds score 2, a second
    call with 3 fails and changes nothing; "Y" has no score yet. *)
Lemma scoreCandidate_spec_witness :
  (scores completedRun.1.2 !! "X"
     = Some (mkScoreEntry (Js.VNum 2) 1003 1 false)
   ∧ scoreCandidate completedRun.1.2 "X" (Js.VNum 3) completedRun.2
     = ((mkScoreResult false None (Some "Already scored"), completedRun.1.2),
        completedRun.2))
  ∧ (scores completedRun.1.2 !! "Y" = None
     ∧ success (scoreCandidate completedRun.1.2 "Y" (Js.VNum 3)
                               completedRun.2).1.1 = true
     ∧ scores (scoreCandidate completedRun.1.2 "Y" (Js.VNum 3)
                               completedRun.2).1.2 !! "Y"
       = Some (mkScoreEntry (Js.VNum 3)
                 (clock completedRun.2 (ticks completedRun.2))
                 (currentBatchIndex completedRun.1.2 + 1) false)).
Proof.
  assert (HX : scores completedRun.1.2 !! "X"
               = Some (mkScoreEntry (Js.VNum 2) 1003 1 false))
    by (vm_compute; reflexivity).
  assert (HY : scores completedRun.1.2 !! "Y" = None)
    by (vm_compute; reflexivity).
  split.
  - split; [exact HX|].
    exact (proj1 (scoreCandidate_spec completedRun.1.2 "X" (Js.VNum 3)
                    completedRun.2) _ HX).
  - split; [exact HY|].
    exact (proj2 (scoreCandidate_spec completedRun.1.2 "Y" (Js.VNum 3)
                    completedRun.2) HY).
Defined.

(** C10.  For an id without a score and any value whatever as the score
    argument, [scoreCandidate] returns success and the stored score is
    that value. *)
Theorem scoreCandidate_takes_any_value (session : Session)
    (candidateId : string) (v : Js.JsVal) (w : World) :
  scores session !! candidateId = None ->
  success (scoreCandidate session candidateId v w).1.1 = true
  /\ score <$> scores (scoreCandidate session candidateId v w).1.2
               !! candidateId = Some v.
Proof.
  intros Hnone.
  destruct (scoreCandidate_new session candidateId w v Hnone) as (t & w' & ->).
  simpl. split; [done|].
  destruct (allProcessed _); simpl; by rewrite lookup_insert_eq.
Qed.

(** C10 with a text as the score. *)
Lemma scoreCandidate_takes_any_value_witness :
  scores completedRun.1.2 !! "Y" = None
  /\ success (scoreCandidate completedRun.1.2 "Y" (Js.VStr "great")
                             completedRun.2).1.1 = true
  /\ score <$> scores (scoreCandidate completedRun.1.2 "Y" (Js.VStr "great")
                                      completedRun.2).1.2 !! "Y"
     = Some (Js.VStr "great").
Proof.
  assert (HY : scores completedRun.1.2 !! "Y" = None)
    by (vm_compute; reflexivity).
  split; [exact HY|].
  exact (scoreCandidate_takes_any_value completedRun.1.2 "Y"
           (Js.VStr "great") completedRun.2 HY).
Defined.

(** C2, as amended.  On a completed session, [scoreCandidate] and
    [skipCandidate] never set [completedAt] back to null and never remove
    an id from [scores] or [undecided]; [scoreCandidate] of an id that has
    a score changes nothing.  An id not yet recorded is still added. *)
Theorem completed_is_never_reopened (session : Session)
    (candidateId : string) (v : Js.JsVal) (w : World) :
  is_Some (completedAt session) ->
  let s1 := (scoreCandidate session candidateId v w).1.2 in
  let s2 := (skipCandidate session candidateId w).1.2 in
  is_Some (completedAt s1) /\ is_Some (completedAt s2)
  /\ (is_Some (scores session !! candidateId) -> s1 = session)
  /\ (forall i, is_Some (scores session !! i) -> is_Some (scores s1 !! i))
  /\ undecided s1 = undecided session
  /\ scores s2 = scores session
  /\ undecided s2 = {[candidateId]} ∪ undecided session.
Proof.
  intros Hdone s1 s2.
  assert (H2 : is_Some (completedAt s2) /\ scores s2 = scores session
               /\ undecided s2 = {[candidateId]} ∪ undecided session).
  { unfold s2.
    destruct (skipCandidate_result session candidateId w) as (t & w' & ->).
    simpl. destruct (allProcessed _); simpl; eauto. }
  destruct H2 as (Hc2 & Hs2 & Hu2).
  destruct (scores session !! candidateId) as [e|] eqn:Hc.
  - assert (s1 = session) as ->.
    { unfold s1, scoreCandidate. by rewrite Hc. }
    repeat split; eauto.
  - unfold s1.
    destruct (scoreCandidate_new session candidateId w v Hc) as (t & w' & ->).
    simpl. split; [destruct (allProcessed _); simpl; eauto|].
    split; [done|]. split; [by intros [? ?]|].
    split; [|split; [by destruct (allProcessed _)|done]].
    intros i Hi.
    assert (Hi' : is_Some (<[candidateId:=mkScoreEntry v (clock w (ticks w))
                     (currentBatchIndex session + 1) false]>
                     (scores session) !! i)).
    { destruct (decide (candidateId = i)) as [<-|Hne].
      - rewrite lookup_insert_eq. eauto.
      - by rewrite lookup_insert_ne. }
    by destruct (allProcessed _).
Qed.

(** The amended C2 at a session completed by its only record. *)
Lemma completed_is_never_reopened_witness :
  is_Some (completedAt completedRun.1.2)
  /\ is_Some (completedAt (skipCandidate completedRun.1.2 "Y"
                                         completedRun.2).1.2)
  /\ is_Some (completedAt (scoreCandidate completedRun.1.2 "Y" (Js.VNum 1)
                                          completedRun.2).1.2).
Proof.
  assert (Hd : is_Some (completedAt completedRun.1.2))
    by (vm_compute; eauto).
  split; [exact Hd|].
  destruct (completed_is_never_reopened completedRun.1.2 "Y" (Js.VNum 1)
              completedRun.2 Hd) as (H1 & H2 & _).
  split; [exact H2 | exact H1].
Defined.

(** C2 as stated fails: on a completed session [skipCandidate] succeeds
    and adds the id to [undecided]. *)
Lemma completed_session_still_changes :
  is_Some (completedAt completedRun.1.2)
  /\ ("Y" ∉ undecided completedRun.1.2)
  /\ success (skipCandidate completedRun.1.2 "Y" completedRun.2).1.1 = true
  /\ "Y" ∈ undecided (skipCandidate completedRun.1.2 "Y" completedRun.2).1.2.
Proof.
  split; [vm_compute; eauto|].
  split; [refine (bool_decide_unpack _ _); vm_compute; exact I|].
  split; [vm_compute; reflexivity|].
  refine (bool_decide_unpack _ _). vm_compute. exact I.
Qed.

(** ** Score threshold, and the examples *)

(** C7 as stated fails: the text "12abc" is not a number, and the record
    is kept. *)
Lemma leading_digits_pass_the_threshold :
  let c := plain "N" (Js.VStr "12abc") in
  Js.isEmpty (AI_Rank_xB c) = false
  /\ Filter.applyAIScoreThreshold (fun x => x) [c]
       (Some (mkThreshold (Some 0) (Some 100))) = [c].
Proof. split; vm_compute; reflexivity. Qed.

(** C5 at a snapshot of two ids and an empty dataset. *)
Lemma loadSession_discards_stale_witness :
  is_Some (localStorage resumableStore)
  /\ (loadSession [] resumableStore).1 = None
  /\ localStorage (loadSession [] resumableStore).2 = None.
Proof.
  eassert (E : localStorage resumableStore = Some _)
    by (vm_compute; reflexivity).
  split; [rewrite E; eauto|].
  destruct (loadSession_discards_stale [] resumableStore _ E)
    as (H1 & H2 & _); [vm_compute; reflexivity ..|].
  split; [exact H1 | exact H2].
Defined.

(** C8 at five elements and seed 42. *)
Lemma seeded_shuffle_reproducible_witness :
  exists out : list nat,
    let st := [[1; 2; 3; 4; 5]%nat] in
    let call1 :=
      Shuffle.applySelectionMethod (fun _ => noCandidate) 0 st 0 "random"
                                   (Some 42) in
    let call2 :=
      Shuffle.applySelectionMethod (fun _ => noCandidate) 7 call1.2 0
                                   "random" (Some 42) in
    call1.2 !! call1.1 = Some out /\ call2.2 !! call2.1 = Some out
    /\ out ≡ₚ [1; 2; 3; 4; 5]%nat
    /\ call1.2 !! 0%nat = Some [1; 2; 3; 4; 5]%nat
    /\ call2.2 !! 0%nat = Some [1; 2; 3; 4; 5]%nat.
Proof.
  exact (seeded_shuffle_reproducible (fun _ => noCandidate)
           [[1; 2; 3; 4; 5]%nat] 0 [1; 2; 3; 4; 5]%nat 42 0 7 eq_refl).
Defined.

(** The amended C9 at a snapshot whose wave put "B" on cell (0, 0): the
    record "B" of the dataset had no cell and has that one after the
    load. *)
Lemma loadSession_writes_onto_dataset_witness :
  gridCell (rd resumableStore 1) = None
  /\ exists s,
       (loadSession [0%nat; 1%nat] resumableStore).1 = Some s
       /\ gridRow (rd (loadSession [0%nat; 1%nat] resumableStore).2 1)
          = Some 0
       /\ gridCol (rd (loadSession [0%nat; 1%nat] resumableStore).2 1)
          = Some 0
       /\ 1%nat ∈ currentBatchCandidates s.
Proof.
  split; [vm_compute; reflexivity|].
  eassert (E : localStorage resumableStore = Some _)
    by (vm_compute; reflexivity).
  edestruct (loadSession_writes_onto_dataset [0%nat; 1%nat] resumableStore
               _ [Saved.mkBatchItem "B" (Some (mkCell 0 0));
                  Saved.mkBatchItem "A" (Some (mkCell 0 1))]
               0%nat (Saved.mkBatchItem "B" (Some (mkCell 0 0))) 1%nat E)
    as (s & Hs & _ & Hr & Hc & Hin & _).
  - vm_compute; reflexivity.
  - vm_compute; reflexivity.
  - vm_compute. intros ?; discriminate.
  - intros r Hr. apply elem_of_cons in Hr as [->|Hr]; [vm_compute; lia|].
    apply list_elem_of_singleton in Hr as ->. vm_compute. lia.
  - reflexivity.
  - reflexivity.
  - vm_compute; reflexivity.
  - intros [|[|k']] item' Hlt Hk'; [lia| |discriminate Hk'].
    injection Hk' as <-. discriminate.
  - exists s. split; [exact Hs|]. split; [exact Hr|]. split; [exact Hc|].
    exact Hin.
Defined.

(** C9 as stated fails: the snapshot is completed, its batch entry for
    "X" resolves, and [loadSession] returns null without writing the
    cell. *)
Lemma completed_snapshot_is_not_restored :
  match localStorage completedStore with
  | Some data =>
      (exists item, Saved.currentBatchData data = Some [item]
                    /\ Saved.item_id item = "X"
                    /\ Saved.item_cell item = Some (mkCell 0 0))
      /\ candidateMapOf completedStore [0%nat] !! "X" = Some 0%nat
      /\ (loadSession [0%nat] completedStore).1 = None
      /\ gridCell (rd (loadSession [0%nat] completedStore).2 0) = None
  | None => False
  end.
Proof.
  eassert (E : localStorage completedStore = Some _)
    by (vm_compute; reflexivity).
  rewrite E.
  split; [eexists; vm_compute; repeat split; reflexivity|].
  split; [vm_compute; reflexivity|].
  split; vm_compute; reflexivity.
Qed.

(* ================================================================== *)
(** * Further properties of the engine                                 *)
(* ================================================================== *)

#[local] Arguments assignGridCell : simpl never.

(** ** Loading: staleness and completed snapshots *)

Section LoadEdges.
Context (all : list nat) (w : World).

Lemma loadSession_stale_open (data : Saved.t) :
  localStorage w = Some data ->
  truthyNum (Saved.completedAt data) = false ->
  Z.of_nat (length (Saved.selectedIds data)) < 2 ^ 32 ->
  10 * Z.of_nat (length (filter (resolves w all) (Saved.selectedIds data)))
  < 9 * Z.of_nat (length (Saved.selectedIds data)) ->
  loadSession all w = (None, (clearSession w).2).
Proof.
  intros Hst Hc Hn Hlt. unfold loadSession. run_M. rewrite Hst, Hc. simpl.
  rewrite resolved_count.
  rewrite (proj2 (Z.ltb_lt _ _)); [done|].
  apply times_point9_gt; [lia| |done].
  split; [lia|]. eapply Z.lt_trans; [exact Hn|]. done.
Qed.

End LoadEdges.

(** X1.  A stored snapshot that is not completed is discarded as stale
    exactly when fewer than nine tenths of its selected ids resolve
    against the dataset: for a selection of fewer than 2^32 ids the test
    [selectedCandidates.length < selectedIds.length * 0.9], made on
    doubles, agrees with [10 * resolved < 9 * total] on integers. *)
Theorem loadSession_stale_exactly (all : list nat) (w : World)
    (data : Saved.t) :
  localStorage w = Some data ->
  truthyNum (Saved.completedAt data) = false ->
  Z.of_nat (length (Saved.selectedIds data)) < 2 ^ 32 ->
  (loadSession all w).1 = None
  <-> 10 * Z.of_nat (length (filter (resolves w all)
                                    (Saved.selectedIds data)))
      < 9 * Z.of_nat (length (Saved.selectedIds data)).
Proof.
  intros Hst Hc Hn. split.
  - intros Hnone.
    destruct (Z.lt_ge_cases
                (10 * Z.of_nat (length (filter (resolves w all)
                                               (Saved.selectedIds data))))
                (9 * Z.of_nat (length (Saved.selectedIds data))))
      as [|Hge]; [done|].
    rewrite (loadSession_resumes all w data Hst Hc Hn Hge) in Hnone.
    discriminate Hnone.
  - intros Hlt. by rewrite (loadSession_stale_open all w data Hst Hc Hn Hlt).
Qed.

(** X1 at the snapshot of two ids: an empty dataset makes it stale, the
    dataset it was taken from does not. *)
Lemma loadSession_stale_exactly_witness :
  (loadSession [] resumableStore).1 = None
  /\ (loadSession [0%nat; 1%nat] resumableStore).1 <> None.
Proof.
  eassert (E : localStorage resumableStore = Some _)
    by (vm_compute; reflexivity).
  pose proof (loadSession_stale_exactly [] resumableStore _ E
                ltac:(vm_compute; reflexivity) ltac:(vm_compute; reflexivity))
    as H0.
  pose proof (loadSession_stale_exactly [0%nat; 1%nat] resumableStore _ E
                ltac:(vm_compute; reflexivity) ltac:(vm_compute; reflexivity))
    as H1.
  split.
  - apply H0. vm_compute. reflexivity.
  - intros Hn. apply H1 in Hn. vm_compute in Hn. discriminate Hn.
Defined.

(** X2.  When [hasResumableSession] answers false (the slot is empty or
    holds a completed snapshot), [loadSession] returns null and changes
    nothing; in particular a completed snapshot stays in the slot. *)
Theorem loadSession_needs_resumable (all : list nat) (w : World) :
  (hasResumableSession w).1 = false -> loadSession all w = (None, w).
Proof.
  unfold hasResumableSession, loadSession. run_M.
  destruct (localStorage w) as [data|]; simpl; [|done].
  intros H. apply negb_false_iff in H. by rewrite H.
Qed.

(** X2 at a completed snapshot. *)
Lemma loadSession_needs_resumable_witness :
  (hasResumableSession completedStore).1 = false
  /\ loadSession [0%nat] completedStore = (None, completedStore).
Proof.
  assert (H : (hasResumableSession completedStore).1 = false)
    by (vm_compute; reflexivity).
  split; [exact H|]. exact (loadSession_needs_resumable _ _ H).
Defined.

(** ** Saving and loading *)

Section Entries.
Context {V : Type}.




End Entries.



(** ** Cells and copies *)

Section Assign.
Context (c : Candidate) (g : Grid) (w : World).

Lemma assignGridCell_none :
  availableCells g = [] -> assignGridCell c g w = ((None, g), w).
Proof. intros H. unfold assignGridCell. by rewrite H. Qed.

Lemma assignGridCell_some :
  availableCells g <> [] ->
  exists (idx : nat) (cell : Cell),
    availableCells g !! idx = Some cell
    /\ assignGridCell c g w
       = ((Some cell,
           mkGrid (<[keyOf cell := ID_xA c]> (cells g))
                  (delete idx (availableCells g)) (cellSize g) (spacing g)),
          (Math_random w).2).
Proof.
  intros Hne. unfold assignGridCell.
  destruct (Nat.eqb_spec (length (availableCells g)) 0) as [H0|Hlen].
  { by apply nil_length_inv in H0. }
  unfold mbind, M_bind. simpl.
  set (idx := Z.to_nat (Float.floor_mul 53 _ _)).
  assert (Hidx : (idx < length (availableCells g))%nat).
  { unfold idx.
    pose proof (floor_mul_lt 53 (entropy w (draws w) mod 2 ^ 53)
                  (Z.of_nat (length (availableCells g)))
                  ltac:(lia) ltac:(apply Z.mod_pos_bound; lia) ltac:(lia)).
    lia. }
  destruct (lookup_lt_is_Some_2 _ _ Hidx) as [cell Hcell].
  exists idx, cell. split; [done|]. by rewrite Hcell.
Qed.

End Assign.

(** X4.  [assignGridCell] returns null exactly when no cell is free, and
    then changes neither the grid nor the world (no random number is
    drawn).  A cell that it returns was free; it is taken out of the free
    cells once, its key is bound to the candidate's id, and one random
    number was drawn. *)
Theorem assignGridCell_takes_a_free_cell (c : Candidate) (g : Grid)
    (w : World) :
  let out := assignGridCell c g w in
  (out.1.1 = None <-> availableCells g = [])
  /\ (availableCells g = [] -> out = ((None, g), w))
  /\ (forall cell : Cell, out.1.1 = Some cell ->
        cell ∈ availableCells g
        /\ cells out.1.2 = <[keyOf cell := ID_xA c]> (cells g)
        /\ availableCells g ≡ₚ cell :: availableCells out.1.2
        /\ draws out.2 = S (draws w)).
Proof.
  simpl. destruct (decide (availableCells g = [])) as [He|Hne].
  - rewrite (assignGridCell_none c g w He). simpl.
    split; [done|]. split; [done|]. intros cell [=].
  - destruct (assignGridCell_some c g w Hne) as (idx & cell & Hcell & ->).
    simpl. split; [done|]. split; [done|].
    intros cell' [= <-]. split; [by eapply list_elem_of_lookup_2|].
    split; [done|]. split; [|done].
    by apply delete_Permutation.
Qed.

Section Place.

Lemma withGridCell_same (c : Candidate) : withGridCell c (gridCell c) = c.
Proof. by destruct c. Qed.

Lemma rd_app (w w' : World) (extra : list Candidate) (l : nat) :
  heap w' = heap w ++ extra -> (l < length (heap w))%nat -> rd w' l = rd w l.
Proof.
  intros H Hl. unfold rd. by rewrite H, lookup_app_l.
Qed.

Lemma placeCopy_spec (g : Grid) (l : nat) (w : World) :
  let out := placeCopy g l w in
  exists cell : option Cell,
    heap out.2 = heap w ++ [withGridCell (rd w l) cell]
    /\ out.1.2 = length (heap w)
    /\ localStorage out.2 = localStorage w
    /\ out.1.1 = (assignGridCell (rd w l) g w).1.2.
Proof.
  simpl. unfold placeCopy. unfold mbind, M_bind, getWorld.
  destruct (decide (availableCells g = [])) as [He|Hne].
  - rewrite (assignGridCell_none _ g w He). simpl.
    exists (gridCell (rd w l)). by rewrite withGridCell_same.
  - destruct (assignGridCell_some (rd w l) g w Hne) as (i & cell & _ & ->).
    simpl. by exists (Some cell).
Qed.

Lemma placeAll_spec (ls : list nat) :
  forall (g : Grid) (w : World),
    Forall (fun l => (l < length (heap w))%nat) ls ->
    let out := placeAll g ls w in
    exists copies : list Candidate,
      heap out.2 = heap w ++ copies
      /\ out.1.2 = seq (length (heap w)) (length ls)
      /\ Forall2 (fun c l => exists cell, c = withGridCell (rd w l) cell)
                 copies ls
      /\ localStorage out.2 = localStorage w.
Proof.
  induction ls as [|l ls IH]; intros g w Hlive; simpl.
  { exists []. by rewrite app_nil_r. }
  apply Forall_cons in Hlive as [Hl Hls].
  unfold mbind, M_bind.
  destruct (placeCopy_spec g l w) as (cell & Hh & Hr & Hst & _).
  destruct (placeCopy g l w) as [[g1 l'] w1]. simpl in Hh, Hr, Hst.
  assert (Hls1 : Forall (fun l => (l < length (heap w1))%nat) ls).
  { eapply Forall_impl; [exact Hls|]. intros x Hx. simpl in Hx.
    rewrite Hh, length_app. lia. }
  destruct (IH g1 w1 Hls1) as (copies & Hh2 & Hr2 & Hc2 & Hst2).
  destruct (placeAll g1 ls w1) as [[g2 rest] w2]. simpl in *.
  exists (withGridCell (rd w l) cell :: copies). repeat split.
  - by rewrite Hh2, Hh, <- app_assoc.
  - rewrite Hr, Hr2, Hh, length_app. simpl. do 2 f_equal. lia.
  - constructor; [by exists cell|].
    clear -Hc2 Hls Hh. induction Hc2 as [|c x cs xs [cl ->] _ IH2];
      [constructor|].
    apply Forall_cons in Hls as [Hx Hxs]. constructor; [|by apply IH2].
    exists cl. by rewrite (rd_app w w1 _ x Hh Hx).
  - by rewrite Hst2.
Qed.

End Place.

(** X5.  [getNextBatchWithGridPositions] hands out copies: when the
    selected records are live, no object that existed before the call is
    changed, every entry of the batch is a new object, the batch is stored
    as the session's current batch, and the entries are, in order, the
    first [batchSize] unprocessed selected records, each equal to its
    source except for gridRow and gridCol. *)
Theorem nextBatch_hands_out_copies (s : Session) (w : World) :
  Forall (fun l => (l < length (heap w))%nat) (selectedCandidates s) ->
  let out := getNextBatchWithGridPositions s w in
  let todo :=
    slice0 (batchSize s)
           (filter (unprocessed w s) (selectedCandidates s)) in
  take (length (heap w)) (heap out.2) = heap w
  /\ out.1.1 = seq (length (heap w)) (length todo)
  /\ currentBatchCandidates out.1.2 = out.1.1
  /\ Forall2 (fun l' l => exists cell : option Cell,
                rd out.2 l' = withGridCell (rd w l) cell)
             out.1.1 todo.
Proof.
  intros Hlive. simpl.
  set (todo := slice0 _ _).
  assert (Htodo : Forall (fun l => (l < length (heap w))%nat) todo).
  { apply Forall_forall. intros l Hl.
    rewrite Forall_forall in Hlive. apply Hlive.
    unfold todo, slice0 in Hl.
    destruct (_ <? 0); apply elem_of_take in Hl as (i & Hi & _);
      apply list_elem_of_lookup_2 in Hi;
      by apply list_elem_of_filter in Hi as [_ Hi]. }
  unfold getNextBatchWithGridPositions. unfold mbind, M_bind, getWorld.
  fold todo.
  destruct (placeAll_spec todo (grid s) w Htodo) as (copies & Hh & Hb & Hc & _).
  destruct (placeAll (grid s) todo w) as [[g batch] w1]. simpl in Hh, Hb.
  unfold saveSession, mbind, M_bind, getWorld, Date_now, setStorage. simpl.
  rewrite Hh. repeat split.
  - by rewrite take_app_length.
  - done.
  - rewrite Hb. clear -Hc.
    assert (Hlen : length copies = length todo) by (by eapply Forall2_length).
    apply Forall2_same_length_lookup. split; [by rewrite length_seq|].
    intros i l' l Hl' Hl. 
    apply lookup_seq in Hl' as [-> Hi].
    destruct (lookup_lt_is_Some_2 copies i ltac:(lia)) as [c Hci].
    destruct (Forall2_lookup_lr _ _ _ _ _ _ Hc Hci Hl) as [cell ->].
    exists cell. unfold rd at 1. simpl.
    by rewrite lookup_app_r, Nat.add_comm, Nat.add_sub, Hci by lia.
Qed.

(** ** The grid along a session *)

Section SessionGrid.
Context (dim : Z).

Lemma scoreCandidate_grid (s : Session) (i : string) (v : Js.JsVal)
    (w : World) :
  grid (scoreCandidate s i v w).1.2 = grid s.
Proof.
  unfold scoreCandidate. destruct (scores s !! i); [done|].
  unfold saveSession. run_M. by destruct (allProcessed _).
Qed.

Lemma skipCandidate_grid (s : Session) (i : string) (w : World) :
  grid (skipCandidate s i w).1.2 = grid s.
Proof.
  unfold skipCandidate, saveSession. run_M. by destruct (allProcessed _).
Qed.

Lemma advance_grid (s : Session) (w : World) :
  grid (advanceToNextBatch s w).1.2 = grid s.
Proof.
  unfold advanceToNextBatch. destruct (moreBatches s); [|done].
  unfold saveSession. run_M. done.
Qed.

Lemma placeAll_partitions (ls : list nat) :
  forall (g : Grid) (w : World),
    partitions dim g -> partitions dim (placeAll g ls w).1.1.
Proof.
  induction ls as [|l ls IH]; intros g w Hg; [done|]. simpl.
  unfold mbind, M_bind.
  destruct (placeCopy_spec g l w) as (_ & _ & _ & _ & Hg1).
  destruct (placeCopy g l w) as [[g1 l'] w1]. simpl in Hg1.
  assert (H1 : partitions dim g1)
    by (rewrite Hg1; by apply partitions_assign).
  specialize (IH g1 w1 H1).
  by destruct (placeAll g1 ls w1) as [[g2 rest] w2].
Qed.

Lemma nextBatch_partitions (s : Session) (w : World) :
  partitions dim (grid s) ->
  partitions dim (grid (getNextBatchWithGridPositions s w).1.2).
Proof.
  intros Hg. unfold getNextBatchWithGridPositions.
  unfold mbind, M_bind, getWorld.
  match goal with |- context [placeAll ?g ?ls ?w0] =>
    pose proof (placeAll_partitions ls g w0 Hg) as H;
    destruct (placeAll g ls w0) as [[g1 batch] w1] end.
  exact H.
Qed.

Lemma remove_partitions (s : Session) (i : string) (w : World) :
  partitions dim (grid s) ->
  partitions dim (grid (removeFromBatch s i w).1.2).
Proof.
  intros Hg. unfold removeFromBatch, saveSession. run_M.
  destruct (findById w i _) as [d|]; [|done].
  destruct (gridCell (rd w d)) as [c|]; [|done].
  by apply partitions_release.
Qed.

Lemma releaseCellsOf_partitions (g : Grid) (cid : string) :
  partitions dim g -> partitions dim (releaseCellsOf g cid).
Proof.
  unfold releaseCellsOf. generalize (map_to_list (cells g)). intros l.
  revert g. induction l as [|kv l IH]; intros g Hg; [done|]. simpl.
  apply IH. destruct (String.eqb _ _); [|done].
  destruct (Js.split "," kv.1) as [|p0 [|p1 ?]]; try done.
  destruct (Js.parseIntStr p0); [|done].
  destruct (Js.parseIntStr p1); [|done].
  by apply partitions_release.
Qed.

Lemma massScoreOne_grid (v : Js.JsVal) (ls : list nat) :
  forall (s : Session) (r : MassResult) (w : World),
    grid (foldM (massScoreOne v) (s, r) ls w).1.1 = grid s.
Proof.
  induction ls as [|l ls IH]; intros s r w; [done|]. simpl.
  unfold mbind at 1, M_bind at 1. simpl. run_M. by rewrite IH.
Qed.

Lemma massScore_partitions (s : Session) (ty val : string) (v : Js.JsVal)
    (all : option (list nat)) (w : World) :
  partitions dim (grid s) ->
  partitions dim (grid (massScoreByAttribute s ty val v all w).1.2).
Proof.
  intros Hg. unfold massScoreByAttribute.
  unfold mbind at 1, M_bind at 1, getWorld.
  unfold mbind at 1, M_bind at 1.
  match goal with |- context [foldM _ (s, ?r0) ?ls w] =>
    pose proof (massScoreOne_grid v ls s r0 w) as Hgr;
    destruct (foldM (massScoreOne v) (s, r0) ls w) as [[s1 r1] w1] end.
  simpl in Hgr.
  assert (H : partitions dim (foldl releaseCellsOf (grid s1) (scoredIds r1))).
  { rewrite Hgr. generalize (scoredIds r1). intros ids.
    revert Hg. generalize (grid s). induction ids as [|i ids IH];
      intros g Hg; [done|].
    simpl. by apply IH, releaseCellsOf_partitions. }
  unfold saveSession. run_M.
  by destruct (allProcessed _).
Qed.

Lemma step_partitions (op : Op) (s : Session) (w : World) :
  notReplace op ->
  partitions dim (grid s) -> partitions dim (grid (step op s w).1).
Proof.
  intros Hop Hg. destruct op as [i v|i|ty val v all| | |i|i]; cbn [step];
    unfold mbind, M_bind.
  - pose proof (scoreCandidate_grid s i v w) as H.
    destruct (scoreCandidate s i v w) as [[r s'] w']. simpl in *.
    by rewrite H.
  - pose proof (skipCandidate_grid s i w) as H.
    destruct (skipCandidate s i w) as [[r s'] w']. simpl in *.
    by rewrite H.
  - pose proof (massScore_partitions s ty val v all w Hg) as H.
    by destruct (massScoreByAttribute s ty val v all w) as [[r s'] w'].
  - pose proof (advance_grid s w) as H.
    destruct (advanceToNextBatch s w) as [[r s'] w']. simpl in *.
    by rewrite H.
  - pose proof (nextBatch_partitions s w Hg) as H.
    by destruct (getNextBatchWithGridPositions s w) as [[r s'] w'].
  - pose proof (remove_partitions s i w Hg) as H.
    by destruct (removeFromBatch s i w) as [[r s'] w'].
  - done.
Qed.

End SessionGrid.

(** X6.  The grid of a session keeps partitioning its coordinates along
    every sequence of calls of [scoreCandidate], [skipCandidate],
    [massScoreByAttribute], [advanceToNextBatch],
    [getNextBatchWithGridPositions] and [removeFromBatch]. *)
Theorem session_grid_partition (ops : list Op) (s : Session) (w : World) :
  partitions GRID_SIZE (grid s) ->
  Forall notReplace ops ->
  Forall (fun s' => partitions GRID_SIZE (grid s')) (trace ops s w).
Proof.
  revert s w. induction ops as [|op ops IH]; intros s w Hg Hops;
    [constructor|].
  apply Forall_cons in Hops as [Hop Hops]. cbn [trace].
  pose proof (step_partitions GRID_SIZE op s w Hop Hg) as H.
  destruct (step op s w) as [s' w']. constructor; [exact H|].
  by apply IH.
Qed.

(** ** Replacement on the grid *)

(** X7.  [replaceInGrid] breaks the partition.  When the departing record
    is in the current batch with a cell that the grid holds, and a
    replacement is found, the cell is afterwards both among the free cells
    (it was released) and a key of [cells] (it was bound to the
    replacement without being taken out of the free cells); the grid is a
    partition for no size. *)
Theorem replaceInGrid_leaves_cell_listed (s : Session) (i : string)
    (w : World) (d : nat) (c : Cell) :
  findById w i (currentBatchCandidates s) = Some d ->
  gridCell (rd w d) = Some c ->
  is_Some (cells (grid s) !! keyOf c) ->
  is_Some (replaceInGrid s i w).1.1 ->
  let g' := grid (replaceInGrid s i w).1.2 in
  c ∈ availableCells g'
  /\ is_Some (cells g' !! keyOf c)
  /\ forall dim : Z, ~ partitions dim g'.
Proof.
  intros Hd Hc Hk Hsome. simpl.
  unfold replaceInGrid in *. unfold mbind, M_bind, getWorld in *.
  rewrite Hd, Hc in *.
  destruct (list_find _ (selectedCandidates s)) as [[k n]|]; cycle 1.
  { unfold saveSession in Hsome. run_M. by destruct Hsome. }
  clear Hsome. unfold saveSession. run_M.
  assert (Hin : c ∈ availableCells (releaseGridCell (row c) (col c) (grid s))).
  { unfold releaseGridCell. fold (keyOf c). destruct Hk as [v ->]. simpl.
    apply elem_of_app. right. destruct c. simpl. left. }
  assert (Hkey : is_Some (<[keyOf c := ID_xA (rd w n)]>
                   (cells (releaseGridCell (row c) (col c) (grid s)))
                   !! keyOf c)).
  { rewrite lookup_insert_eq. eauto. }
  split; [exact Hin|]. split; [exact Hkey|].
  intros dim Hp. apply partitions_spec in Hp as (_ & _ & Hfree & _).
  specialize (Hfree c Hin). simpl in Hfree.
  rewrite Hfree in Hkey. by destruct Hkey.
Qed.

(** ** Mass scoring *)

Section MassScore.
Context (v : Js.JsVal).

Lemma massScoreOne_eq (s : Session) (r : MassResult) (l : nat) (w : World) :
  massScoreOne v (s, r) l w
  = ((set_scores s
        (<[ID_xA (rd w l) :=
             mkScoreEntry v (clock w (ticks w)) (currentBatchIndex s + 1)
                          true]> (scores s)),
      mkMassResult (affected r + 1)
        (if bool_decide (is_Some (scores s !! ID_xA (rd w l)))
         then reScored r + 1 else reScored r)
        (scoredIds r ++ [ID_xA (rd w l)])),
     (Date_now w).2).
Proof. reflexivity. Qed.

Lemma massScoreOne_fold_entries (ls : list nat) :
  forall (s : Session) (r : MassResult) (w : World),
    let out := foldM (massScoreOne v) (s, r) ls w in
    let ids := map (fun l => ID_xA (rd w l)) ls in
    scoredIds out.1.2 = scoredIds r ++ ids
    /\ affected out.1.2 = affected r + Z.of_nat (length ls)
    /\ reScored r <= reScored out.1.2 <= reScored r + Z.of_nat (length ls)
    /\ currentBatchIndex out.1.1 = currentBatchIndex s
    /\ currentBatchCandidates out.1.1 = currentBatchCandidates s
    /\ (forall i, i ∈ ids ->
          exists e, scores out.1.1 !! i = Some e
                    /\ massEntry v (currentBatchIndex s + 1) e)
    /\ (forall i, i ∉ ids -> scores out.1.1 !! i = scores s !! i).
Proof.
  induction ls as [|l ls IH]; intros s r w.
  { simpl. rewrite app_nil_r. repeat split; try done; try lia.
    intros i Hi. by apply elem_of_nil in Hi. }
  cbn zeta. cbn [foldM map length].
  unfold mbind, M_bind. rewrite massScoreOne_eq.
  set (w1 := (Date_now w).2).
  assert (Hrd : rd w1 = rd w) by (by apply rd_same_heap).
  match goal with |- context [foldM _ (?s1, ?r1) ls w1] =>
    specialize (IH s1 r1 w1);
    destruct (foldM (massScoreOne v) (s1, r1) ls w1) as [[s2 r2] w2] end.
  simpl in IH |- *. rewrite Hrd in IH.
  destruct IH as (Hids & Haff & Hre & Hidx & Hcb & Hin & Hout).
  split; [by rewrite Hids, <- app_assoc|].
  split; [lia|].
  split; [destruct (bool_decide _); lia|].
  split; [done|]. split; [done|]. split.
  - intros i Hi.
    destruct (decide (i ∈ map (fun l0 => ID_xA (rd w l0)) ls)) as [Hl|Hl].
    + by apply Hin.
    + apply elem_of_cons in Hi as [->|Hi]; [|done].
      rewrite (Hout _ Hl), lookup_insert_eq. eexists. split; [done|].
      by repeat split.
  - intros i Hi. apply not_elem_of_cons in Hi as [Hne Hi].
    rewrite (Hout _ Hi). by rewrite lookup_insert_ne.
Qed.

Lemma massScore_result (s : Session) (ty val : string)
    (all : option (list nat)) (w : World) :
  let ls :=
    filter (fun l => matchesAttribute ty val (rd w l) = true)
           (default (selectedCandidates s) all) in
  let f := foldM (massScoreOne v) (s, mkMassResult 0 0 []) ls w in
  let s2 :=
    set_currentBatchCandidates
      (set_grid f.1.1 (foldl releaseCellsOf (grid f.1.1) (scoredIds f.1.2)))
      (filter (fun l => ID_xA (rd w l) ∉ scoredIds f.1.2)
              (currentBatchCandidates f.1.1)) in
  exists w' : World,
    massScoreByAttribute s ty val v all w
    = ((f.1.2,
        if allProcessed s2
        then set_completedAt s2 (Some (clock f.2 (ticks f.2))) else s2),
       w').
Proof.
  intros ls f s2. unfold massScoreByAttribute.
  unfold mbind at 1, M_bind at 1, getWorld.
  unfold mbind at 1, M_bind at 1. fold ls. fold f.
  subst s2. destruct f as [[s1 r1] w1]. cbn [fst snd].
  destruct (allProcessed _); eexists; reflexivity.
Qed.

End MassScore.

(** X8.  What [massScoreByAttribute] does.  The ids it reports are those
    of the matching records of the dataset (of the selection when no
    dataset is passed), in order; [affected] is their number and
    [reScored] lies between 0 and it; every reported id ends with an entry
    holding the given score, the current wave number and
    [massScored = true], whether or not it had a score before; the entries
    of all other ids are untouched; the current batch loses exactly the
    records with a reported id. *)
Theorem massScore_outcome (s : Session) (ty val : string) (v : Js.JsVal)
    (all : option (list nat)) (w : World) :
  let out := massScoreByAttribute s ty val v all w in
  let r := out.1.1 in
  let s' := out.1.2 in
  let targets := massTargets w s ty val all in
  scoredIds r = targets
  /\ affected r = Z.of_nat (length targets)
  /\ 0 <= reScored r <= affected r
  /\ (forall i, i ∈ targets ->
        exists e, scores s' !! i = Some e
                  /\ massEntry v (currentBatchIndex s + 1) e)
  /\ (forall i, i ∉ targets -> scores s' !! i = scores s !! i)
  /\ currentBatchCandidates s'
     = filter (fun l => ID_xA (rd w l) ∉ targets) (currentBatchCandidates s).
Proof.
  intros out r s' targets. subst r s'.
  destruct (massScore_result v s ty val all w) as [w' E].
  subst out. rewrite E. clear E. cbn [fst snd].
  unfold massTargets in targets.
  set (ls := filter _ (default (selectedCandidates s) all)) in *.
  pose proof (massScoreOne_fold_entries v ls s (mkMassResult 0 0 []) w) as H.
  destruct (foldM (massScoreOne v) (s, mkMassResult 0 0 []) ls w)
    as [[s1 r1] w1].
  simpl in H. destruct H as (Hids & Haff & Hre & Hidx & Hcb & Hin & Hout).
  fold targets in Hids, Hin, Hout.
  assert (Hlen : length targets = length ls) by apply length_map.
  cbn [fst snd].
  split; [done|]. split; [lia|]. split; [lia|].
  destruct (allProcessed _); simpl; rewrite Hids, Hcb; done.
Qed.

(** X9.  [countByAttribute] previews [massScoreByAttribute] when both are
    given the same dataset: the count is the [affected] of the mass
    score.  Without a dataset they part: the count is 0, while the mass
    score falls back to the session's selection. *)
Theorem countByAttribute_previews_massScore (s : Session) (ty val : string)
    (v : Js.JsVal) (all : list nat) (w : World) :
  (countByAttribute ty val (Some all) w).1
  = affected (massScoreByAttribute s ty val v (Some all) w).1.1
  /\ (countByAttribute ty val None w).1 = 0
  /\ affected (massScoreByAttribute s ty val v None w).1.1
     = Z.of_nat (length (massTargets w s ty val None)).
Proof.
  destruct (massScore_result v s ty val (Some all) w) as [w1 E1].
  destruct (massScore_result v s ty val None w) as [w2 E2].
  rewrite E1, E2. clear E1 E2. cbn [fst snd default].
  unfold countByAttribute, massTargets. cbn [fst snd default].
  unfold mbind, M_bind, getWorld, mret, M_ret. cbn [fst snd default].
  rewrite length_map. unfold Datatypes.id.
  split; [|split; [done|]].
  - set (ls := filter (fun l => matchesAttribute ty val (rd w l) = true) all).
    pose proof (massScoreOne_fold_entries v ls s (mkMassResult 0 0 []) w) as H.
    destruct (foldM (massScoreOne v) (s, mkMassResult 0 0 []) ls w)
      as [[s1 r1] w1'].
    simpl in H. destruct H as (_ & Haff & _). simpl. lia.
  - set (ls := filter (fun l => matchesAttribute ty val (rd w l) = true)
                      (selectedCandidates s)).
    pose proof (massScoreOne_fold_entries v ls s (mkMassResult 0 0 []) w) as H.
    destruct (foldM (massScoreOne v) (s, mkMassResult 0 0 []) ls w)
      as [[s1 r1] w1'].
    simpl in H. destruct H as (_ & Haff & _). simpl. lia.
Qed.

(** ** Creation and the slot *)



(** ** Batches *)

Section Windows.
Context {A : Type}.

Lemma slice_window (b k : Z) (l : list A) :
  0 <= k -> 0 <= b ->
  slice k (k + b) l = take (Z.to_nat b) (drop (Z.to_nat k) l).
Proof.
  intros Hk Hb. unfold slice.
  destruct (Z.ltb_spec k 0) as [|_]; [lia|].
  destruct (Z.ltb_spec (k + b) 0) as [|_]; [lia|].
  destruct (Z.le_gt_cases (Z.of_nat (length l)) k) as [Hout|Hin].
  - rewrite !Z.min_r by lia.
    rewrite (drop_ge l (Z.to_nat k)) by lia.
    rewrite drop_ge by lia. by rewrite !take_nil.
  - rewrite (Z.min_l k) by lia.
    destruct (Z.le_gt_cases (k + b) (Z.of_nat (length l))) as [Hfit|Hcut].
    + rewrite Z.min_l by lia. f_equal. lia.
    + rewrite Z.min_r by lia.
      rewrite !take_ge; [done| |]; rewrite length_drop; lia.
Qed.

Lemma window_nonempty (b k : Z) (l : list A) :
  0 <= k -> 0 < b ->
  slice k (k + b) l <> [] <-> k < Z.of_nat (length l).
Proof.
  intros Hk Hb. rewrite slice_window by lia.
  rewrite <- length_zero_iff_nil, length_take, length_drop. lia.
Qed.

End Windows.

Lemma moreBatches_iff (s : Session) :
  0 < batchSize s ->
  moreBatches s = true
  <-> (currentBatchIndex s + 1) * batchSize s
      < Z.of_nat (length (selectedCandidates s)).
Proof.
  intros Hb. unfold moreBatches.
  destruct (Z.eqb_spec (batchSize s) 0) as [|_]; [lia|].
  rewrite Z.ltb_lt.
  set (len := Z.of_nat (length (selectedCandidates s))).
  set (b := batchSize s) in *. set (i := currentBatchIndex s).
  pose proof (Z.div_mod (- len) b ltac:(lia)) as Hdm.
  pose proof (Z.mod_pos_bound (- len) b Hb) as Hr.
  set (q := - len / b) in *. set (r := (- len) mod b) in *.
  split; intros H; nia.
Qed.

(** X11.  For a positive batch size and a batch index that is not
    negative, [advanceToNextBatch] returns true exactly when the window of
    the next index, the one [getCurrentBatch] would slice, holds at least
    one selected record; it then adds one to the index, and otherwise
    changes neither the session nor the world. *)
Theorem advance_iff_next_window (s : Session) (w : World) :
  0 < batchSize s -> 0 <= currentBatchIndex s ->
  let out := advanceToNextBatch s w in
  let next := (currentBatchIndex s + 1) * batchSize s in
  (out.1.1 = true
   <-> slice next (next + batchSize s) (selectedCandidates s) <> [])
  /\ (out.1.1 = true ->
      out.1.2 = set_currentBatchIndex s (currentBatchIndex s + 1))
  /\ (out.1.1 = false -> out = ((false, s), w)).
Proof.
  intros Hb Hi. simpl.
  rewrite window_nonempty by lia. rewrite <- moreBatches_iff by done.
  unfold advanceToNextBatch.
  destruct (moreBatches s); unfold saveSession; run_M; done.
Qed.

(** ** The eligible count of the launcher *)

(** X12.  The eligible count shown by the launcher does not depend on the
    score range chosen there: the range is passed under the key
    [aiScoreThreshold], the [countEligible] in force reads
    [aiScoreRange], and the count is the one for the range 0 to 100. *)
Theorem launcher_count_ignores_score_range (all : list nat) (rf : string)
    (lo hi : Z) (groups : list string) (w : World) :
  launcherEligibleCount all rf lo hi groups w
  = countEligible all
      (Flt.mkFilters (Some rf) (Some groups) (Some (0, 100)) None None) w.
Proof.
  unfold launcherEligibleCount, countEligible. by destruct groups.
Qed.

(** ** Selection by rank *)

Lemma StronglySorted_weaken {A} (R R' : A -> A -> Prop) (l : list A) :
  (forall a b, R a b -> R' a b) ->
  StronglySorted R l -> StronglySorted R' l.
Proof.
  intros HR. induction 1 as [|x l Hl IH Hx]; constructor; [done|].
  eapply Forall_impl; [exact Hx|]. intros y Hy. by apply HR.
Qed.

Section Sorting.
Context {A : Type} (key : A -> Z) (cmp : A -> A -> Z).
Hypothesis cmp_key : forall a b, cmp a b <= 0 <-> key a <= key b.

Lemma sort_insert_Permutation (x : A) (l : list A) :
  sort_insert cmp x l ≡ₚ x :: l.
Proof.
  induction l as [|y l IH]; [done|]. simpl.
  destruct (cmp x y <=? 0); [done|].
  etrans; [apply Permutation_skip, IH|]. apply Permutation_swap.
Qed.

Lemma js_sort_Permutation (l : list A) : js_sort cmp l ≡ₚ l.
Proof.
  induction l as [|x l IH]; [done|]. unfold js_sort in *. simpl.
  etrans; [apply sort_insert_Permutation|]. by apply Permutation_skip.
Qed.

Lemma sort_insert_sorted (x : A) (l : list A) :
  StronglySorted (fun a b => key a <= key b) l ->
  StronglySorted (fun a b => key a <= key b) (sort_insert cmp x l).
Proof.
  induction 1 as [|y l Hl IH Hy]; simpl; [repeat constructor|].
  pose proof (cmp_key x y) as Hxy.
  destruct (Z.leb_spec (cmp x y) 0) as [Hle|Hgt].
  - constructor; [by constructor|]. constructor; [lia|].
    eapply Forall_impl; [exact Hy|]. intros z Hz. simpl in Hz. lia.
  - constructor; [exact IH|].
    rewrite (sort_insert_Permutation x l).
    constructor; [lia|exact Hy].
Qed.

Lemma js_sort_sorted (l : list A) :
  StronglySorted (fun a b => key a <= key b) (js_sort cmp l).
Proof.
  induction l as [|x l IH]; [constructor|].
  unfold js_sort in *. simpl. by apply sort_insert_sorted.
Qed.

Lemma sort_insert_stable (k : Z) (x : A) (l : list A) :
  filter (fun a => key a = k) (sort_insert cmp x l)
  = filter (fun a => key a = k) (x :: l).
Proof.
  induction l as [|y l IH]; [done|]. simpl.
  pose proof (cmp_key x y) as Hxy.
  destruct (Z.leb_spec (cmp x y) 0) as [Hle|Hgt]; [done|].
  rewrite (filter_cons _ y (sort_insert _ _ _)), IH.
  rewrite !(filter_cons _ x), !(filter_cons _ y).
  repeat case_decide; try done; lia.
Qed.

Lemma js_sort_stable (k : Z) (l : list A) :
  filter (fun a => key a = k) (js_sort cmp l)
  = filter (fun a => key a = k) l.
Proof.
  induction l as [|x l IH]; [done|].
  unfold js_sort in *. simpl. rewrite sort_insert_stable.
  by rewrite !(filter_cons _ x), IH.
Qed.

End Sorting.

Section RankOrder.
Context {A : Type} (rd : A -> Candidate).

Lemma slice0_is_take (e : Z) (l : list A) :
  exists n : nat, slice0 e l = take n l.
Proof. unfold slice0. destruct (e <? 0); eauto. Qed.

End RankOrder.

(** X13.  With the method ['top-ai'], [filterCandidates] returns the
    eligible records of highest AI rank: the result followed by the
    records left out is the eligible collection sorted by descending
    [parseInt(AI_Rank_xB) || 0], records of equal key in dataset order. *)
Theorem top_ai_selects_highest {A : Type} (rd : A -> Candidate) (now : Z)
    (all : list A) (options : Options) :
  Opt.selectionMethod options = "top-ai" ->
  selectsByRank rd (fun x y => y <= x)
    (Filter.eligible rd all options)
    (Shuffle.filterCandidates rd now all options).
Proof.
  intros Hm. unfold Shuffle.filterCandidates. rewrite Hm.
  set (el := Filter.eligible rd all options).
  assert (Ho : Shuffle.ordered rd now el "top-ai" (Opt.randomSeed options)
               = js_sort (fun a b => Filter.rankKey rd b - Filter.rankKey rd a)
                         el) by reflexivity.
  rewrite Ho. clear Ho.
  set (cmp := fun a b : A => Filter.rankKey rd b - Filter.rankKey rd a).
  assert (Hcmp : forall a b, cmp a b <= 0
                   <-> - Filter.rankKey rd a <= - Filter.rankKey rd b)
    by (intros a b; unfold cmp; lia).
  destruct (slice0_is_take
              (Z.min (Opt.selectionCount options)
                     (Z.of_nat (length (js_sort cmp el))))
              (js_sort cmp el)) as [n ->].
  exists (drop n (js_sort cmp el)). rewrite take_drop.
  split; [by apply (js_sort_Permutation cmp)|]. split.
  - pose proof (js_sort_sorted _ cmp Hcmp el) as Hs.
    eapply StronglySorted_weaken; [|exact Hs].
    intros a b Hab. simpl in Hab. lia.
  - intros k.
    pose proof (js_sort_stable _ cmp Hcmp (- k) el) as Hst.
    erewrite (list_filter_iff _ (fun a => - Filter.rankKey rd a = - k));
      [|intros a; lia].
    rewrite Hst. apply list_filter_iff. intros a. lia.
Qed.

(** X14.  With the method ['bottom-ai'], [filterCandidates] returns the
    eligible records of lowest AI rank, records of equal key in dataset
    order. *)
Theorem bottom_ai_selects_lowest {A : Type} (rd : A -> Candidate) (now : Z)
    (all : list A) (options : Options) :
  Opt.selectionMethod options = "bottom-ai" ->
  selectsByRank rd (fun x y => x <= y)
    (Filter.eligible rd all options)
    (Shuffle.filterCandidates rd now all options).
Proof.
  intros Hm. unfold Shuffle.filterCandidates. rewrite Hm.
  set (el := Filter.eligible rd all options).
  assert (Ho : Shuffle.ordered rd now el "bottom-ai" (Opt.randomSeed options)
               = js_sort (fun a b => Filter.rankKey rd a - Filter.rankKey rd b)
                         el) by reflexivity.
  rewrite Ho. clear Ho.
  set (cmp := fun a b : A => Filter.rankKey rd a - Filter.rankKey rd b).
  assert (Hcmp : forall a b, cmp a b <= 0
                   <-> Filter.rankKey rd a <= Filter.rankKey rd b)
    by (intros a b; unfold cmp; lia).
  destruct (slice0_is_take
              (Z.min (Opt.selectionCount options)
                     (Z.of_nat (length (js_sort cmp el))))
              (js_sort cmp el)) as [n ->].
  exists (drop n (js_sort cmp el)). rewrite take_drop.
  split; [by apply (js_sort_Permutation cmp)|]. split.
  - exact (js_sort_sorted _ cmp Hcmp el).
  - intros k. exact (js_sort_stable _ cmp Hcmp k el).
Qed.

(** ** Eligibility *)

Section Eligible.
Context {A : Type} (rd : A -> Candidate).

Lemma eligible_iff (all : list A) (options : Options) (c : A) :
  c ∈ Filter.eligible rd all options <-> c ∈ all /\ passes rd options c.
Proof.
  unfold Filter.eligible, passes.
  unfold Filter.applyAIScoreThreshold, Filter.applyRankFilter,
    Filter.applyGroupFilter.
  destruct (Opt.aiScoreThreshold options) as [t|];
    destruct (String.eqb_spec (Opt.rankFilter options) "unranked") as [Hu|Hu];
    try destruct (String.eqb_spec (Opt.rankFilter options) "ranked")
      as [Hr|Hr];
    destruct (Opt.groupFilter options) as [[|g gs]|];
    rewrite ?list_elem_of_filter, ?elem_of_list_to_set;
    try (rewrite Hu); try (rewrite Hr); intuition congruence.
Qed.

Lemma eligible_sublist (all : list A) (options : Options) :
  Filter.eligible rd all options `sublist_of` all.
Proof.
  unfold Filter.eligible.
  unfold Filter.applyAIScoreThreshold, Filter.applyRankFilter,
    Filter.applyGroupFilter.
  repeat match goal with
         | |- context [match ?x with _ => _ end] => destruct x
         end;
    repeat (etrans; [apply sublist_filter|]); done.
Qed.

Lemma ordered_Permutation (now : Z) (l : list A) (method : string)
    (seed : option Z) :
  Shuffle.ordered rd now l method seed ≡ₚ l.
Proof.
  unfold Shuffle.ordered, Shuffle.applySelectionMethod.
  destruct (String.eqb method "top-ai"); [apply js_sort_Permutation|].
  destruct (String.eqb method "bottom-ai"); [apply js_sort_Permutation|].
  destruct (String.eqb method "random"); [|done].
  unfold Shuffle.seededShuffle. simpl.
  rewrite (shuffle_from_insert _ _ _ 1 l) by done. simpl.
  apply shuffle_list_Permutation.
Qed.

Lemma filterCandidates_submseteq (now : Z) (all : list A)
    (options : Options) :
  Shuffle.filterCandidates rd now all options
  ⊆+ Filter.eligible rd all options.
Proof.
  unfold Shuffle.filterCandidates.
  destruct (slice0_is_take
    (Z.min (Opt.selectionCount options)
       (Z.of_nat (length (Shuffle.ordered rd now
          (Filter.eligible rd all options)
          (Opt.selectionMethod options) (Opt.randomSeed options)))))
    (Shuffle.ordered rd now (Filter.eligible rd all options)
       (Opt.selectionMethod options) (Opt.randomSeed options)))
    as [n ->].
  etrans; [apply submseteq_take|].
  apply Permutation_submseteq, ordered_Permutation.
Qed.

End Eligible.

(** X15.  Whatever the selection method, seed and count,
    [filterCandidates] returns eligible records only, none more often than
    it occurs among them; the eligible records are a subsequence of the
    dataset, and a record is eligible exactly when it is in the dataset
    and passes the name, group, rank and score tests. *)
Theorem selection_within_eligible {A : Type} (rd : A -> Candidate) (now : Z)
    (all : list A) (options : Options) :
  let sel := Shuffle.filterCandidates rd now all options in
  sel ⊆+ Filter.eligible rd all options
  /\ Filter.eligible rd all options `sublist_of` all
  /\ (forall c : A, c ∈ Filter.eligible rd all options
                    <-> c ∈ all /\ passes rd options c)
  /\ (forall c : A, c ∈ sel -> c ∈ all /\ passes rd options c).
Proof.
  simpl.
  pose proof (filterCandidates_submseteq rd now all options) as Hsub.
  split; [exact Hsub|]. split; [apply eligible_sublist|].
  split; [intros c; apply eligible_iff|].
  intros c Hc. apply eligible_iff.
  eapply elem_of_submseteq; [exact Hc|exact Hsub].
Qed.

(** ** Windows of the selection *)

Section Cover.
Context {A : Type}.

Lemma windows_take (b : nat) (l : list A) (n : nat) :
  concat (map (fun i : nat => take b (drop (i * b) l)) (seq 0 n))
  = take (n * b) l.
Proof.
  induction n as [|n IH]; [done|].
  rewrite seq_S, map_app, concat_app, IH. simpl. rewrite app_nil_r.
  rewrite take_take_drop. f_equal. lia.
Qed.

Lemma windows_cover (b : Z) (l : list A) (n : nat) :
  0 < b -> Z.of_nat (length l) <= Z.of_nat n * b ->
  concat (map (fun i : nat => slice (Z.of_nat i * b) (Z.of_nat i * b + b) l)
              (seq 0 n))
  = l.
Proof.
  intros Hb Hn.
  trans (take (n * Z.to_nat b) l); [|apply take_ge; nia].
  rewrite <- windows_take. f_equal. apply map_ext. intros i.
  rewrite slice_window by nia. do 2 f_equal. nia.
Qed.

End Cover.

(** X16.  The batches cover the selection.  For a positive batch size and
    [n] batches that reach the end of the selection, the results of
    [getCurrentBatch] at the indices 0 to [n - 1], one after the other,
    are the unprocessed selected records, in order and each once. *)
Theorem batches_cover_selection (s : Session) (w : World) (n : nat) :
  0 < batchSize s ->
  Z.of_nat (length (selectedCandidates s)) <= Z.of_nat n * batchSize s ->
  concat (map (fun i : nat =>
                 (getCurrentBatch (set_currentBatchIndex s (Z.of_nat i)) w).1)
              (seq 0 n))
  = filter (unprocessed w s) (selectedCandidates s).
Proof.
  intros Hb Hn.
  pose proof (windows_cover (batchSize s) (selectedCandidates s) n Hb Hn)
    as Hc.
  trans (filter (unprocessed w s)
           (concat (map (fun i : nat =>
                           slice (Z.of_nat i * batchSize s)
                                 (Z.of_nat i * batchSize s + batchSize s)
                                 (selectedCandidates s))
                        (seq 0 n)))); [|by rewrite Hc].
  clear Hc Hn. generalize (seq 0 n). intros idxs.
  induction idxs as [|i idxs IH]; [done|].
  simpl. rewrite filter_app, <- IH. done.
Qed.

(** ** Batches without a session *)

Lemma slice0_length {A} (e : Z) (l : list A) :
  0 <= e -> Z.of_nat (length (slice0 e l)) <= e.
Proof.
  intros He. unfold slice0. destruct (Z.ltb_spec e 0); [lia|].
  rewrite length_take. lia.
Qed.

Lemma slice0_elem {A} (e : Z) (l : list A) (x : A) :
  x ∈ slice0 e l -> x ∈ l.
Proof.
  unfold slice0. destruct (e <? 0); intros (i & Hi & _)%elem_of_take;
    by eapply list_elem_of_lookup_2.
Qed.

Lemma filterCandidates_world (nodes : list nat) (o : Options) (w : World) :
  exists now' : Z,
    (filterCandidates nodes o w).1
    = Shuffle.filterCandidates (rd w) now' nodes o
    /\ heap (filterCandidates nodes o w).2 = heap w
    /\ localStorage (filterCandidates nodes o w).2 = localStorage w.
Proof.
  unfold filterCandidates. unfold mbind, M_bind, getWorld.
  destruct (_ && _); simpl; eauto.
Qed.

(** X17.  [getFilteredBatch] on live records: the batch has at most
    [batchSize || 6] entries when that bound is not negative; no entry
    carries an id of [currentBatchIds]; every entry is a copy of a record
    of [nodes], equal to it except for gridRow and gridCol; no object that
    existed before is changed; the slot is not written; and a grid that
    partitions its coordinates still does. *)
Theorem getFilteredBatch_spec (nodes : list nat) (filters : Filters)
    (currentBatchIds : option (list string)) (g : Grid)
    (batchSize : option Z) (w : World) :
  Forall (fun l => (l < length (heap w))%nat) nodes ->
  let out := getFilteredBatch nodes filters currentBatchIds g batchSize w in
  (0 <= batchSizeOr6 batchSize ->
   Z.of_nat (length out.1.1) <= batchSizeOr6 batchSize)
  /\ Forall (fun l' =>
       (ID_xA (rd out.2 l') ∉ default [] currentBatchIds)
       /\ (exists (l : nat) (cell : option Cell),
             l ∈ nodes /\ rd out.2 l' = withGridCell (rd w l) cell))
       out.1.1
  /\ take (length (heap w)) (heap out.2) = heap w
  /\ localStorage out.2 = localStorage w
  /\ (partitions GRID_SIZE g -> partitions GRID_SIZE out.1.2).
Proof.
  intros Hlive out.
  destruct out as [[batch0 g0] w3] eqn:E. subst out. cbn [fst snd].
  unfold getFilteredBatch in E.
  fold (batchSizeOr6 batchSize) in E.
  unfold mbind at 1, M_bind at 1 in E.
  destruct (Date_now w) as [now w0] eqn:Hnow.
  assert (Hw0 : heap w0 = heap w /\ localStorage w0 = localStorage w).
  { unfold Date_now in Hnow. by injection Hnow as _ <-. }
  destruct Hw0 as [Hh0 Hs0].
  unfold mbind at 1, M_bind at 1 in E.
  match type of E with context [filterCandidates nodes ?o w0] =>
    destruct (filterCandidates_world nodes o w0) as (now' & Hres & Hh1 & Hs1);
    pose proof (filterCandidates_submseteq (rd w0) now' nodes o) as Hsub;
    destruct (filterCandidates nodes o w0) as [res w1]
  end.
  simpl in Hres, Hh1, Hs1. rewrite <- Hres in Hsub. clear Hres.
  unfold mbind at 1, M_bind at 1, getWorld in E.
  set (cur := list_to_set (default [] currentBatchIds) : gset string) in E.
  set (todo := slice0 (batchSizeOr6 batchSize)
                 (filter (fun l => ID_xA (rd w1 l) ∉ cur) res)) in E.
  assert (Hrd : rd w1 = rd w).
  { apply rd_same_heap. by rewrite Hh1. }
  assert (Htodo : forall l, l ∈ todo ->
            l ∈ nodes /\ ID_xA (rd w l) ∉ default [] currentBatchIds).
  { intros l Hl. apply slice0_elem, list_elem_of_filter in Hl as [Hid Hl].
    split.
    - eapply elem_of_submseteq in Hl; [|exact Hsub].
      by apply eligible_iff in Hl as [Hl _].
    - rewrite Hrd in Hid. unfold cur in Hid.
      by rewrite elem_of_list_to_set in Hid. }
  assert (Hlive1 : Forall (fun l => (l < length (heap w1))%nat) todo).
  { apply Forall_forall. intros l Hl. rewrite Forall_forall in Hlive.
    rewrite Hh1, Hh0. apply Hlive. by apply Htodo. }
  destruct (placeAll_spec todo g w1 Hlive1) as (copies & Hh & Hb & Hc & Hst).
  pose proof (placeAll_partitions GRID_SIZE todo g w1) as Hp.
  unfold mbind, M_bind in E.
  destruct (placeAll g todo w1) as [[g' batch] w2].
  simpl in Hh, Hb, Hc, Hst, Hp. simpl in E. injection E as <- <- <-.
  split; [|split; [|split; [|split]]].
  - intros H6. rewrite Hb, length_seq. by apply slice0_length.
  - rewrite Hb. apply Forall_forall. intros l' Hl'.
    apply elem_of_seq in Hl' as [Hlo Hhi].
    assert (Hlen : length copies = length todo) by (by eapply Forall2_length).
    destruct (lookup_lt_is_Some_2 copies (l' - length (heap w1))
                ltac:(lia)) as [c Hci].
    destruct (lookup_lt_is_Some_2 todo (l' - length (heap w1))
                ltac:(lia)) as [l Hli].
    destruct (Forall2_lookup_lr _ _ _ _ _ _ Hc Hci Hli) as [cell ->].
    destruct (Htodo l ltac:(by eapply list_elem_of_lookup_2)) as [Hn Hid].
    assert (Hread : rd w2 l' = withGridCell (rd w1 l) cell).
    { unfold rd at 1. by rewrite Hh, lookup_app_r, Hci by lia. }
    rewrite Hread, Hrd. split; [by destruct (rd w l)|].
    by exists l, cell.
  - rewrite Hh, Hh1, Hh0. by rewrite take_app_length.
  - by rewrite Hst, Hs1, Hs0.
  - exact Hp.
Qed.

(** ** Cell keys read back *)

Section Decode.

Lemma string_app_cons (c : ascii) (s t : string) :
  String c s +:+ t = String c (s +:+ t).
Proof. reflexivity. Qed.

Lemma string_app_nil_l (t : string) : "" +:+ t = t.
Proof. reflexivity. Qed.

Lemma string_app_nil_r (s : string) : s +:+ "" = s.
Proof.
  induction s as [|c s IH]; [done|]. by rewrite string_app_cons, IH.
Qed.

Lemma string_app_assoc (s t u : string) : (s +:+ t) +:+ u = s +:+ t +:+ u.
Proof.
  induction s as [|c s IH]; [done|]. by rewrite !string_app_cons, IH.
Qed.

Lemma rev_app_spec (s t : string) :
  String.rev_app s t = String.rev s +:+ t.
Proof.
  unfold String.rev. revert t. induction s as [|c s IH]; intros t; [done|].
  simpl. rewrite IH, (IH (String c "")), string_app_assoc. done.
Qed.

(** [split] read from the front: the first piece grows until the
    separator. *)
Lemma split_go_cur (sep : ascii) (s cur : string) :
  Js.split_go sep cur s
  = match Js.split_go sep "" s with
    | h :: t => (String.rev cur +:+ h) :: t
    | [] => []
    end.
Proof.
  revert cur. induction s as [|c s IH]; intros cur; simpl.
  { by rewrite string_app_nil_r. }
  destruct (Ascii.eqb c sep).
  - by rewrite string_app_nil_r.
  - rewrite (IH (String c cur)), (IH (String c "")).
    destruct (Js.split_go sep "" s) as [|h t]; [done|].
    unfold String.rev at 1. simpl. rewrite rev_app_spec.
    by rewrite string_app_assoc.
Qed.

Lemma split_cons_ne (sep c : ascii) (s : string) :
  Ascii.eqb c sep = false ->
  Js.split sep (String c s)
  = match Js.split sep s with
    | h :: t => String c h :: t
    | [] => []
    end.
Proof.
  intros Hc. unfold Js.split. simpl. rewrite Hc, split_go_cur.
  by destruct (Js.split_go sep "" s).
Qed.

Lemma split_uint (d : Decimal.uint) (rest : string) :
  Js.split "," (NilEmpty.string_of_uint d +:+ rest)
  = match Js.split "," rest with
    | h :: t => (NilEmpty.string_of_uint d +:+ h) :: t
    | [] => []
    end.
Proof.
  induction d as [|d IH|d IH|d IH|d IH|d IH|d IH|d IH|d IH|d IH|d IH];
    cbn [NilEmpty.string_of_uint];
    rewrite ?string_app_cons, ?string_app_nil_l;
    [by destruct (Js.split "," rest)|..];
    rewrite split_cons_ne, IH by reflexivity;
    by destruct (Js.split "," rest).
Qed.

Lemma split_num (z : Z) (rest : string) :
  Js.split "," (Js.numToString z +:+ rest)
  = match Js.split "," rest with
    | h :: t => (Js.numToString z +:+ h) :: t
    | [] => []
    end.
Proof.
  unfold Js.numToString. pose proof (to_int_nonnil z) as Hz.
  destruct (Z.to_int z) as [u|u]; simpl.
  - rewrite (nonnil_string u Hz). apply split_uint.
  - rewrite (nonnil_string u Hz), string_app_cons.
    rewrite split_cons_ne, split_uint by reflexivity.
    by destruct (Js.split "," rest).
Qed.

Lemma split_cellKey (r c : Z) :
  Js.split "," (cellKey r c) = [Js.numToString r; Js.numToString c].
Proof.
  unfold cellKey. rewrite split_num.
  change ("," +:+ Js.numToString c) with (String "," (Js.numToString c)).
  unfold Js.split at 1. cbn [Js.split_go Ascii.eqb]. simpl (Ascii.eqb _ _).
  cbv iota. fold (Js.split "," (Js.numToString c)).
  rewrite <- (string_app_nil_r (Js.numToString c)) at 1.
  rewrite split_num. simpl. by rewrite !string_app_nil_r.
Qed.

Ltac digit :=
  match goal with
  | |- context [Js.digit_val 10 ?c] =>
      let v := eval vm_compute in (Js.digit_val 10 c) in
      change (Js.digit_val 10 c) with v
  end.

Lemma digits_pos (d : Decimal.uint) (p : positive) :
  Js.digits_prefix 10 (NilEmpty.string_of_uint d) (Some (Z.pos p))
  = Some (Z.pos (Pos.of_uint_acc d p)).
Proof.
  revert p.
  induction d as [|d IH|d IH|d IH|d IH|d IH|d IH|d IH|d IH|d IH|d IH];
    intros p; cbn [NilEmpty.string_of_uint Js.digits_prefix Pos.of_uint_acc];
    [done|..]; digit; cbv iota; cbn [default from_option]; unfold Datatypes.id;
    match goal with |- Js.digits_prefix _ _ (Some ?a) = Some (Z.pos (Pos.of_uint_acc d ?q)) =>
      replace a with (Z.pos q) by lia end; apply IH.
Qed.

Lemma digits_zero (d : Decimal.uint) :
  Js.digits_prefix 10 (NilEmpty.string_of_uint d) (Some 0)
  = Some (Z.of_N (Pos.of_uint d)).
Proof.
  induction d as [|d IH|d IH|d IH|d IH|d IH|d IH|d IH|d IH|d IH|d IH];
    cbn [NilEmpty.string_of_uint Js.digits_prefix Pos.of_uint];
    [done|..]; digit; cbv iota; cbn [default from_option]; unfold Datatypes.id;
    [exact IH|..]; apply digits_pos.
Qed.

Lemma digits_none (d : Decimal.uint) :
  d <> Decimal.Nil ->
  Js.digits_prefix 10 (NilEmpty.string_of_uint d) None
  = Some (Z.of_N (Pos.of_uint d)).
Proof.
  intros Hd. rewrite <- digits_zero. by destruct d.
Qed.

Lemma parseIntStr_uint (d : Decimal.uint) :
  d <> Decimal.Nil ->
  Js.parseIntStr (NilEmpty.string_of_uint d)
  = (fun m => 1 * m) <$> Js.digits_prefix 10 (NilEmpty.string_of_uint d) None
  /\ Js.parseIntStr (String "-" (NilEmpty.string_of_uint d))
     = (fun m => -1 * m)
         <$> Js.digits_prefix 10 (NilEmpty.string_of_uint d) None.
Proof.
  intros Hd. destruct d as [|[]| | | | | | | | |]; [done|..];
    split; reflexivity.
Qed.

Lemma parseIntStr_numToString (z : Z) :
  Js.parseIntStr (Js.numToString z) = Some z.
Proof.
  unfold Js.numToString.
  destruct z as [|p|p]; [done|..]; cbn [Z.to_int NilZero.string_of_int];
    pose proof (Unsigned.to_uint_nonnil p) as Hn;
    rewrite (nonnil_string _ Hn);
    destruct (parseIntStr_uint _ Hn) as [E1 E2]; rewrite ?E1, ?E2;
    rewrite (digits_none _ Hn), Unsigned.of_to; simpl; f_equal; lia.
Qed.

End Decode.

(** ** What parseInt reads from a number *)

Section Numerals.

Ltac digit10 :=
  match goal with
  | |- context [Js.digit_val 10 ?c] =>
      let v := eval vm_compute in (Js.digit_val 10 c) in
      change (Js.digit_val 10 c) with v
  end.

Lemma digits_pos_app (d : Decimal.uint) (rest : string) (p : positive) :
  Js.digits_prefix 10 (NilEmpty.string_of_uint d +:+ rest) (Some (Z.pos p))
  = Js.digits_prefix 10 rest (Some (Z.pos (Pos.of_uint_acc d p))).
Proof.
  revert p.
  induction d as [|d IH|d IH|d IH|d IH|d IH|d IH|d IH|d IH|d IH|d IH];
    intros p; cbn [NilEmpty.string_of_uint Pos.of_uint_acc];
    rewrite ?string_app_cons, ?string_app_nil_l; [done|..];
    cbn [Js.digits_prefix]; digit10; cbv iota; cbn [default from_option];
    unfold Datatypes.id;
    match goal with
    | |- Js.digits_prefix _ _ (Some ?a)
         = Js.digits_prefix _ _ (Some (Z.pos (Pos.of_uint_acc d ?q))) =>
        replace a with (Z.pos q) by lia
    end; apply IH.
Qed.

Lemma digits_zero_app (d : Decimal.uint) (rest : string) :
  Js.digits_prefix 10 (NilEmpty.string_of_uint d +:+ rest) (Some 0)
  = Js.digits_prefix 10 rest (Some (Z.of_N (Pos.of_uint d))).
Proof.
  induction d as [|d IH|d IH|d IH|d IH|d IH|d IH|d IH|d IH|d IH|d IH];
    cbn [NilEmpty.string_of_uint Pos.of_uint];
    rewrite ?string_app_cons, ?string_app_nil_l; [done|..];
    cbn [Js.digits_prefix]; digit10; cbv iota; cbn [default from_option];
    unfold Datatypes.id; [exact IH|..]; apply digits_pos_app.
Qed.

Lemma digits_none_app (d : Decimal.uint) (rest : string) :
  d <> Decimal.Nil ->
  Js.digits_prefix 10 (NilEmpty.string_of_uint d +:+ rest) None
  = Js.digits_prefix 10 rest (Some (Z.of_N (Pos.of_uint d))).
Proof.
  intros Hd. rewrite <- digits_zero_app. by destruct d.
Qed.

Lemma digits_zeros (m : nat) (a : Z) :
  Js.digits_prefix 10 (Js.zeros m) (Some a) = Some (a * 10 ^ Z.of_nat m).
Proof.
  revert a. induction m as [|m IH]; intros a.
  { simpl. f_equal. lia. }
  cbn [Js.zeros Js.digits_prefix]. digit10. cbv iota.
  cbn [default from_option]. unfold Datatypes.id. rewrite IH. f_equal.
  rewrite Nat2Z.inj_succ, Z.pow_succ_r by lia. lia.
Qed.

Lemma parseIntStr_padded (d : Decimal.uint) (m : nat) :
  d <> Decimal.Nil ->
  Js.parseIntStr (NilEmpty.string_of_uint d +:+ Js.zeros m)
  = (fun v => 1 * v)
      <$> Js.digits_prefix 10 (NilEmpty.string_of_uint d +:+ Js.zeros m) None
  /\ Js.parseIntStr (String "-" (NilEmpty.string_of_uint d +:+ Js.zeros m))
     = (fun v => -1 * v)
         <$> Js.digits_prefix 10 (NilEmpty.string_of_uint d +:+ Js.zeros m)
               None.
Proof.
  intros Hd. destruct d as [|[]| | | | | | | | |]; [done|..];
    try (split; reflexivity).
  destruct m; split; reflexivity.
Qed.

(** The numeral of [s] followed by [m] zeros reads as [s * 10^m]. *)
Lemma parseIntStr_numeral (s : Z) (m : nat) :
  0 <= s ->
  Js.parseIntStr (Js.numToString s +:+ Js.zeros m)
  = Some (s * 10 ^ Z.of_nat m)
  /\ Js.parseIntStr (String "-" (Js.numToString s +:+ Js.zeros m))
     = Some (- (s * 10 ^ Z.of_nat m)).
Proof.
  intros Hs.
  assert (Hd : exists d, d <> Decimal.Nil
            /\ Js.numToString s = NilEmpty.string_of_uint d
            /\ Z.of_N (Pos.of_uint d) = s).
  { destruct s as [|q|q]; [| |lia].
    - exists (Decimal.D0 Decimal.Nil). by repeat split.
    - exists (Pos.to_uint q). pose proof (Unsigned.to_uint_nonnil q) as Hn.
      split; [done|]. split.
      + unfold Js.numToString. cbn [Z.to_int NilZero.string_of_int].
        by apply nonnil_string.
      + by rewrite Unsigned.of_to. }
  destruct Hd as (d & Hn & -> & <-).
  destruct (parseIntStr_padded d m Hn) as [-> ->].
  rewrite (digits_none_app d _ Hn), digits_zeros. simpl. split; f_equal; lia.
Qed.

End Numerals.

Section Shortest.

Lemma fl_opp (y : Z) : 0 <= y -> Float.fl (- y) = - Float.fl y.
Proof.
  intros Hy. unfold Float.fl.
  destruct (Z.ltb_spec (- y) 0), (Z.ltb_spec y 0); try lia.
  - by rewrite Z.opp_involutive.
  - by replace y with 0 by lia.
Qed.

Lemma fl_abs (n : Z) : Float.fl n = n -> Float.fl (Z.abs n) = Z.abs n.
Proof.
  intros H. destruct (Z.abs_spec n) as [[Hn ->]|[Hn ->]]; [done|].
  unfold Float.fl in *.
  destruct (Z.ltb_spec n 0), (Z.ltb_spec (- n) 0); lia.
Qed.

Lemma digitsAt_rounds (x k s p : Z) :
  1 <= k -> 0 <= x ->
  Js.digitsAt x k = Some (s, p) ->
  0 <= s /\ 0 <= p /\ Float.fl (s * 10 ^ p) = x.
Proof.
  intros Hk Hx. unfold Js.digitsAt.
  set (p0 := Z.of_nat (String.length (Js.numToString x)) - k).
  destruct (Z.ltb_spec p0 0) as [|Hp0]; [done|].
  set (lo := x / 10 ^ p0).
  assert (Hlo : 0 <= lo).
  { apply Z.div_pos; [done|]. apply Z.pow_pos_nonneg; lia. }
  assert (Hpick : forall c, 0 <= c -> Float.fl (c * 10 ^ p0) = x ->
            Some (if c =? 10 ^ k then (10 ^ (k - 1), p0 + 1) else (c, p0))
            = Some (s, p) ->
            0 <= s /\ 0 <= p /\ Float.fl (s * 10 ^ p) = x).
  { intros c Hc Hfl E. destruct (Z.eqb_spec c (10 ^ k)) as [Hck|_];
      injection E as <- <-.
    - split; [apply Z.pow_nonneg; lia|]. split; [lia|].
      rewrite <- Hfl, Hck. f_equal.
      rewrite <- !Z.pow_add_r by lia. f_equal. lia.
    - done. }
  destruct (Z.eqb_spec (Float.fl (lo * 10 ^ p0)) x) as [El|_];
    destruct (Z.eqb_spec (Float.fl ((lo + 1) * 10 ^ p0)) x) as [Eh|_];
    try done.
  - destruct (x - lo * 10 ^ p0 <? (lo + 1) * 10 ^ p0 - x);
      [by apply Hpick|].
    destruct ((lo + 1) * 10 ^ p0 - x <? x - lo * 10 ^ p0);
      [apply Hpick; [lia|done]|].
    destruct (Z.even lo); [by apply Hpick|]. apply Hpick; [lia|done].
  - by apply Hpick.
  - apply Hpick; [lia|done].
Qed.

Lemma shortestFrom_rounds (fuel : nat) (x : Z) :
  0 <= x -> Float.fl x = x ->
  forall k : Z, 1 <= k ->
    0 <= (Js.shortestFrom fuel x k).1
    /\ 0 <= (Js.shortestFrom fuel x k).2
    /\ Float.fl ((Js.shortestFrom fuel x k).1
                 * 10 ^ (Js.shortestFrom fuel x k).2) = x.
Proof.
  intros Hx Hfl. induction fuel as [|fuel IH]; intros k Hk; simpl.
  { rewrite Z.mul_1_r. done. }
  destruct (Js.digitsAt x k) as [[s p]|] eqn:E.
  - by apply (digitsAt_rounds x k).
  - apply IH. lia.
Qed.

(** [parseInt] gives a double below 10^21 back: the digits that
    Number-to-string writes round to it. *)
Lemma parseInt_number (n : Z) :
  Float.fl n = n -> Z.abs n < 10 ^ 21 ->
  Js.parseInt (Js.VNum n) = Some n.
Proof.
  intros Hfl Hn. unfold Js.parseInt, Js.numberToString.
  destruct (shortestFrom_rounds 17 (Z.abs n) ltac:(lia) (fl_abs n Hfl) 1
              ltac:(lia)) as (Hs & Hp & Hr).
  destruct (Js.shortestFrom 17 (Z.abs n) 1) as [s p]. simpl in Hs, Hp, Hr.
  destruct (Z.ltb_spec (Z.abs n) (10 ^ 21)) as [_|]; [|lia].
  destruct (parseIntStr_numeral s (Z.to_nat p) Hs) as [Epos Eneg].
  rewrite Z2Nat.id in Epos, Eneg by done.
  destruct (Z.ltb_spec n 0) as [Hneg|Hpos].
  - rewrite string_app_cons, string_app_nil_l, Eneg. simpl. f_equal.
    rewrite fl_opp, Hr by nia. lia.
  - rewrite string_app_nil_l, Epos. simpl. f_equal. rewrite Hr. lia.
Qed.

End Shortest.

Section Exponent.

Lemma nzhead_head (d : Decimal.uint) :
  match Decimal.nzhead d with Decimal.D0 _ => False | _ => True end.
Proof. induction d; simpl; done. Qed.

Lemma to_uint_head (q : positive) :
  match Pos.to_uint q with
  | Decimal.Nil | Decimal.D0 _ => False
  | _ => True
  end.
Proof.
  pose proof (DecimalPos.Unsigned.to_of (Pos.to_uint q)) as H.
  rewrite DecimalPos.Unsigned.of_to in H. simpl in H.
  pose proof (Unsigned.to_uint_nonzero q) as Hnz.
  pose proof (nzhead_head (Pos.to_uint q)) as Hh.
  unfold Decimal.unorm in H.
  destruct (Decimal.nzhead (Pos.to_uint q)); rewrite H in *; done.
Qed.

(** The exponent form reads as its first digit. *)
Lemma parseIntStr_expForm (q : positive) (p : Z) :
  let d :=
    match Js.numToString (Z.pos q) with
    | String c _ => default 0 (Js.digit_val 10 c)
    | EmptyString => 0
    end in
  1 <= d <= 9
  /\ Js.parseIntStr (Js.expForm (Z.pos q) p) = Some d
  /\ Js.parseIntStr (String "-" (Js.expForm (Z.pos q) p)) = Some (- d).
Proof.
  unfold Js.expForm.
  change (Js.numToString (Z.pos q))
    with (NilZero.string_of_uint (Pos.to_uint q)).
  pose proof (to_uint_head q) as Hh.
  rewrite (nonnil_string _ (Unsigned.to_uint_nonnil q)).
  destruct (Pos.to_uint q) as [|u|u|u|u|u|u|u|u|u|u]; try done;
    cbn [NilEmpty.string_of_uint]; rewrite string_app_cons;
    (split; [vm_compute; split; discriminate|]);
    destruct u; cbn [NilEmpty.string_of_uint];
    rewrite ?string_app_cons, ?string_app_nil_l; split; reflexivity.
Qed.

Lemma parseInt_large (n : Z) :
  Float.fl n = n -> 10 ^ 21 <= Z.abs n ->
  1 <= Js.expDigit n <= 9
  /\ Js.parseInt (Js.VNum n) = Some (Z.sgn n * Js.expDigit n).
Proof.
  intros Hfl Hn. unfold Js.parseInt, Js.numberToString, Js.expDigit.
  destruct (shortestFrom_rounds 17 (Z.abs n) ltac:(lia) (fl_abs n Hfl) 1
              ltac:(lia)) as (Hs & Hp & Hr).
  destruct (Js.shortestFrom 17 (Z.abs n) 1) as [s p]. simpl in Hs, Hp, Hr.
  cbn [fst].
  destruct (Z.ltb_spec (Z.abs n) (10 ^ 21)) as [|_]; [lia|].
  assert (Hpos : 0 < s).
  { destruct (Z.eq_dec s 0) as [->|]; [|lia].
    rewrite Z.mul_0_l in Hr. change (Float.fl 0) with 0 in Hr. lia. }
  destruct s as [|q|q]; try lia.
  destruct (parseIntStr_expForm q p) as (Hd & Epos & Eneg).
  set (d := match Js.numToString (Z.pos q) with
            | String c _ => default 0 (Js.digit_val 10 c)
            | EmptyString => 0
            end) in *.
  split; [done|].
  assert (Hfd : Float.fl d = d /\ Float.fl (- d) = - d).
  { assert (Hc : d = 1 \/ d = 2 \/ d = 3 \/ d = 4 \/ d = 5 \/ d = 6 \/ d = 7
                 \/ d = 8 \/ d = 9) by lia.
    destruct Hc as [->|[->|[->|[->|[->|[->|[->|[->| ->]]]]]]]];
      split; reflexivity. }
  destruct Hfd as [Hf1 Hf2].
  destruct (Z.ltb_spec n 0) as [Hneg|Hnn].
  - rewrite string_app_cons, string_app_nil_l, Eneg. simpl. f_equal.
    rewrite Hf2. rewrite (Z.sgn_neg n) by lia. lia.
  - rewrite string_app_nil_l, Epos. simpl. f_equal.
    rewrite Hf1. rewrite (Z.sgn_pos n) by lia. lia.
Qed.

End Exponent.

(** ** Score threshold *)

(** C7, as amended.  The threshold stage keeps a record with an empty
    score exactly when the bounds are 0 and 100, and a record with any
    other score exactly when [parseInt] reads an integer from it that lies
    within the bounds.  For a number below 10^21 in magnitude the integer
    read is the number itself; a number from 10^21 on is read through its
    exponent form and counts as the first digit of that, with its sign;
    for a text it is the leading integer, rounded to a double; a record
    from whose score [parseInt] reads nothing is excluded. *)
Theorem score_threshold_by_parseInt {A : Type} (rd : A -> Candidate)
    (candidates : list A) (t : Threshold) (c : A) :
  let min := default 0 (th_min t) in
  let max := default 100 (th_max t) in
  let v := AI_Rank_xB (rd c) in
  let kept := c ∈ Filter.applyAIScoreThreshold rd candidates (Some t) in
  (kept <-> c ∈ candidates
            /\ if Js.isEmpty v then min = 0 /\ max = 100
               else exists n, Js.parseInt v = Some n /\ min <= n <= max)
  /\ (forall n, v = Js.VNum n -> Js.isDouble n -> Z.abs n < 10 ^ 21 ->
        kept <-> c ∈ candidates /\ min <= n <= max)
  /\ (forall n, v = Js.VNum n -> Js.isDouble n -> 10 ^ 21 <= Z.abs n ->
        1 <= Js.expDigit n <= 9
        /\ (kept <-> c ∈ candidates
                     /\ min <= Z.sgn n * Js.expDigit n <= max))
  /\ (forall s, v = Js.VStr s -> s <> EmptyString ->
        kept <-> c ∈ candidates
                 /\ exists n, Js.parseIntStr s = Some n
                              /\ min <= Float.fl n <= max)
  /\ (Js.isEmpty v = false -> Js.parseInt v = None -> ¬ kept).
Proof.
  intros min max v kept.
  assert (Hmain : kept <-> c ∈ candidates
            /\ if Js.isEmpty v then min = 0 /\ max = 100
               else exists n, Js.parseInt v = Some n /\ min <= n <= max).
  { unfold kept, Filter.applyAIScoreThreshold. rewrite list_elem_of_filter.
    fold min max v. unfold Filter.scoreInThreshold.
    destruct (Js.isEmpty v).
    - rewrite andb_true_iff, !Z.eqb_eq. tauto.
    - destruct (Js.parseInt v) as [n|].
      + rewrite andb_true_iff, !Z.leb_le. split.
        * intros [? ?]. split; [done|]. exists n. split; [done|lia].
        * intros [? (n' & [= <-] & ?)]. split; [lia|done].
      + split; [intros [? ?]; done|]. intros [_ (n & ? & _)]. done. }
  split; [exact Hmain|]. split; [|split; [|split]].
  - intros n Hv [Hd _] Hn. rewrite Hmain, Hv.
    rewrite (parseInt_number n Hd Hn). simpl. split.
    + intros [? (n' & [= <-] & ?)]. done.
    + intros [? ?]. split; [done|]. by exists n.
  - intros n Hv [Hd _] Hn.
    destruct (parseInt_large n Hd Hn) as (Hd19 & Hp).
    split; [done|]. rewrite Hmain, Hv, Hp. simpl. split.
    + intros [? (n' & [= <-] & ?)]. done.
    + intros [? ?]. split; [done|]. by eexists.
  - intros s Hv Hs. rewrite Hmain, Hv.
    assert (He : Js.isEmpty (Js.VStr s) = false) by (by destruct s).
    rewrite He. unfold Js.parseInt. split.
    + intros [? (n & Hp & ?)]. split; [done|].
      destruct (Js.parseIntStr s) as [m|]; [|done].
      injection Hp as <-. by exists m.
    + intros [? (n & -> & ?)]. split; [done|]. by eexists.
  - intros He Hp Hk. apply Hmain in Hk as [_ Hk].
    rewrite He, Hp in Hk. by destruct Hk as (n & ? & _).
Qed.

(** C7 at the numbers 50 and 10^21 and the text "12abc", under the bounds
    0 and 100: the three records are kept, 10^21 as the digit 1 of its
    exponent form. *)
Lemma score_threshold_by_parseInt_witness :
  let t := mkThreshold (Some 0) (Some 100) in
  let a := plain "A" (Js.VNum 50) in
  let b := plain "B" (Js.VNum (10 ^ 21)) in
  let c := plain "C" (Js.VStr "12abc") in
  Js.isDouble 50 /\ Js.isDouble (10 ^ 21) /\ Js.expDigit (10 ^ 21) = 1
  /\ a ∈ Filter.applyAIScoreThreshold (fun x => x) [a; b; c] (Some t)
  /\ b ∈ Filter.applyAIScoreThreshold (fun x => x) [a; b; c] (Some t)
  /\ c ∈ Filter.applyAIScoreThreshold (fun x => x) [a; b; c] (Some t).
Proof.
  intros t a b c.
  assert (Ha : Js.isDouble 50) by (split; vm_compute; reflexivity).
  assert (Hb : Js.isDouble (10 ^ 21)) by (split; vm_compute; reflexivity).
  assert (He : Js.expDigit (10 ^ 21) = 1) by (vm_compute; reflexivity).
  split; [exact Ha|]. split; [exact Hb|]. split; [exact He|].
  split; [|split].
  - destruct (score_threshold_by_parseInt (fun x => x) [a; b; c] t a)
      as (_ & H & _).
    apply (H 50 eq_refl Ha); [vm_compute; reflexivity|].
    split; [left|]. simpl. lia.
  - destruct (score_threshold_by_parseInt (fun x => x) [a; b; c] t b)
      as (_ & _ & H & _).
    destruct (H (10 ^ 21) eq_refl Hb) as [_ Hk]; [vm_compute; discriminate|].
    apply Hk. split; [right; left|]. rewrite He. simpl. lia.
  - destruct (score_threshold_by_parseInt (fun x => x) [a; b; c] t c)
      as (_ & _ & _ & H & _).
    apply (H "12abc" eq_refl); [discriminate|].
    split; [right; right; left|]. exists 12.
    split; [vm_compute; reflexivity|]. split; vm_compute; discriminate.
Defined.

(** The number 10^21 is not within 0 and 100, and the record is kept:
    [parseInt] reads [1e+21] as 1.  The same record is kept with a
    no-break space before the digits of a text. *)
Lemma exponent_form_passes_the_threshold :
  Filter.applyAIScoreThreshold (fun x => x)
    [plain "N" (Js.VNum (10 ^ 21));
     plain "M" (Js.VStr (String (ascii_of_nat 160) "50"))]
    (Some (mkThreshold (Some 0) (Some 100)))
  = [plain "N" (Js.VNum (10 ^ 21));
     plain "M" (Js.VStr (String (ascii_of_nat 160) "50"))].
Proof. vm_compute. reflexivity. Qed.

(** ** Cells released by a mass score *)

Section Release.
Context (cid : string).

Lemma releaseIfHeld_key (g : Grid) (c : Cell) (v : string) :
  releaseIfHeld cid g (keyOf c, v)
  = if String.eqb v cid then releaseGridCell (row c) (col c) g else g.
Proof.
  unfold releaseIfHeld. simpl. destruct (String.eqb v cid); [|done].
  unfold keyOf. rewrite split_cellKey.
  by rewrite !parseIntStr_numToString.
Qed.

Lemma release_loop (l : list (string * string)) :
  forall g : Grid,
    NoDup l.*1 ->
    (forall k v, (k, v) ∈ l ->
       cells g !! k = Some v /\ exists c : Cell, k = keyOf c) ->
    forall k : string,
      cells (foldl (releaseIfHeld cid) g l) !! k
      = if decide ((k, cid) ∈ l) then None else cells g !! k.
Proof.
  induction l as [|[k0 v0] l IH]; intros g Hnd Hl k.
  { cbn [foldl]. case_decide as Hin; [by apply elem_of_nil in Hin|done]. }
  apply NoDup_cons in Hnd as [Hk0 Hnd]. cbn [foldl].
  destruct (Hl k0 v0 ltac:(left)) as [Hg0 [c0 ->]].
  rewrite releaseIfHeld_key.
  assert (Hrest : forall g1 : Grid,
            (forall k', k' <> keyOf c0 -> cells g1 !! k' = cells g !! k') ->
            forall k v, (k, v) ∈ l ->
              cells g1 !! k = Some v /\ exists c : Cell, k = keyOf c).
  { intros g1 Hg1 k' v' Hin.
    destruct (Hl k' v' ltac:(by right)) as [Hc Hkey]. split; [|done].
    rewrite Hg1; [done|]. intros ->. apply Hk0.
    apply list_elem_of_fmap. by exists (keyOf c0, v'). }
  destruct (String.eqb_spec v0 cid) as [->|Hne].
  - rewrite IH; [|done|].
    + unfold releaseGridCell. fold (keyOf c0). rewrite Hg0. simpl.
      destruct (decide (k = keyOf c0)) as [->|Hk].
      * rewrite (decide_True (P := (keyOf c0, cid) ∈ (keyOf c0, cid) :: l))
          by left.
        case_decide; [done|]. by rewrite lookup_delete_eq.
      * rewrite lookup_delete_ne by done.
        repeat case_decide; try done.
        -- exfalso. match goal with H : ¬ _ |- _ => apply H end. by right.
        -- exfalso.
           match goal with H : _ ∈ _ :: _ |- _ =>
             apply elem_of_cons in H as [[= ?]|?] end; done.
    + apply Hrest. intros k' Hk'. unfold releaseGridCell.
      fold (keyOf c0). rewrite Hg0. simpl. by rewrite lookup_delete_ne.
  - rewrite IH; [|done|by apply Hrest].
    repeat case_decide; try done.
    + exfalso. match goal with H : ¬ _ |- _ => apply H end. by right.
    + exfalso.
      match goal with H : _ ∈ _ :: _ |- _ =>
        apply elem_of_cons in H as [[= ? ?]|?] end; done.
Qed.

Lemma releaseCellsOf_cells (g : Grid) (k : string) :
  wellKeyed g ->
  cells (releaseCellsOf g cid) !! k
  = if decide (cells g !! k = Some cid) then None else cells g !! k.
Proof.
  intros Hwk.
  change (releaseCellsOf g cid)
    with (foldl (releaseIfHeld cid) g (map_to_list (cells g))).
  rewrite release_loop.
  - repeat case_decide; try done.
    + exfalso. match goal with H : ¬ _ |- _ => apply H end.
      by apply elem_of_map_to_list.
    + exfalso. match goal with H : ¬ _ |- _ => apply H end.
      by apply elem_of_map_to_list.
  - apply NoDup_fst_map_to_list.
  - intros k' v Hin. apply elem_of_map_to_list in Hin. split; [done|].
    apply Hwk. eauto.
Qed.

End Release.

Lemma releaseCellsOf_wellKeyed (g : Grid) (cid : string) :
  wellKeyed g -> wellKeyed (releaseCellsOf g cid).
Proof.
  intros Hwk k [v Hv]. rewrite releaseCellsOf_cells in Hv by done.
  case_decide; [done|]. apply Hwk. eauto.
Qed.

Lemma release_all_cells (ids : list string) :
  forall (g : Grid) (k v : string),
    wellKeyed g ->
    cells (foldl releaseCellsOf g ids) !! k = Some v
    <-> cells g !! k = Some v /\ v ∉ ids.
Proof.
  induction ids as [|i ids IH]; intros g k v Hwk; simpl.
  { split; [intros H; split; [done|apply not_elem_of_nil] | by intros [? _]]. }
  rewrite IH by (by apply releaseCellsOf_wellKeyed).
  rewrite releaseCellsOf_cells by done. rewrite not_elem_of_cons.
  case_decide as Hi.
  - split; [by intros [? _]|]. intros [Hv [Hne _]]. congruence.
  - split.
    + intros [Hv Hn]. repeat split; try done. intros ->. done.
    + by intros [Hv [_ Hn]].
Qed.

Lemma partitions_wellKeyed (dim : Z) (g : Grid) :
  partitions dim g -> wellKeyed g.
Proof.
  intros Hp k Hk. apply partitions_spec in Hp as (_ & _ & _ & Hkeys & _).
  destruct (Hkeys k Hk) as (c & _ & <-). by exists c.
Qed.

(** X18.  Mass scoring frees the cells of the records it scores.  On a
    grid that partitions its coordinates, the keys are found again by
    splitting at the comma and [parseInt], so after
    [massScoreByAttribute] the grid binds exactly the keys it bound before
    to ids that were not scored, and it still partitions. *)
Theorem massScore_frees_cells (dim : Z) (s : Session) (ty val : string)
    (v : Js.JsVal) (all : option (list nat)) (w : World) :
  partitions dim (grid s) ->
  let s' := (massScoreByAttribute s ty val v all w).1.2 in
  partitions dim (grid s')
  /\ forall k i : string,
       cells (grid s') !! k = Some i
       <-> cells (grid s) !! k = Some i /\ i ∉ massTargets w s ty val all.
Proof.
  intros Hp s'. split; [by apply massScore_partitions|].
  subst s'. destruct (massScore_result v s ty val all w) as [w' E].
  rewrite E. clear E. cbn [fst snd].
  unfold massTargets.
  set (ls := filter (fun l => matchesAttribute ty val (rd w l) = true)
                    (default (selectedCandidates s) all)).
  pose proof (massScoreOne_fold_entries v ls s (mkMassResult 0 0 []) w) as H.
  pose proof (massScoreOne_grid v ls s (mkMassResult 0 0 []) w) as Hg.
  destruct (foldM (massScoreOne v) (s, mkMassResult 0 0 []) ls w)
    as [[s1 r1] w1].
  simpl in H, Hg. destruct H as (Hids & _). cbn [fst snd].
  intros k i.
  assert (Hgrid : forall b : bool, forall s2 t,
            grid (if b then set_completedAt s2 t else s2) = grid s2)
    by (by intros []).
  rewrite Hgrid. simpl. rewrite Hg, Hids.
  apply release_all_cells. by eapply partitions_wellKeyed.
Qed.

(** ** Persistence of every call *)

Section Persist.









End Persist.


(** X20.  [getSavedSessionInfo] gives an object exactly when
    [hasResumableSession] answers true; neither changes the world, and the
    object counts the score entries and the selected ids of the
    snapshot. *)
Theorem saved_info_iff_resumable (w : World) :
  hasResumableSession w = (bool_decide (is_Some (getSavedSessionInfo w).1), w)
  /\ (getSavedSessionInfo w).2 = w
  /\ forall info : SavedInfo,
       (getSavedSessionInfo w).1 = Some info ->
       exists data : Saved.t,
         localStorage w = Some data
         /\ info_scored info = Z.of_nat (length (Saved.scores data))
         /\ info_total info = Z.of_nat (length (Saved.selectedIds data)).
Proof.
  unfold hasResumableSession, getSavedSessionInfo.
  unfold mbind, M_bind, getWorld.
  destruct (localStorage w) as [data|]; simpl; [|done].
  destruct (truthyNum (Saved.completedAt data)); simpl; [done|].
  repeat split. intros info [= <-]. by exists data.
Qed.

(** X21.  [applyRankFilter] with ['ranked'] and with ['unranked'] split
    the collection in two; with any other filter value the collection is
    returned as it is. *)
Theorem rank_filter_splits {A : Type} (rd : A -> Candidate)
    (candidates : list A) (rankFilter : string) :
  Filter.applyRankFilter rd candidates "ranked"
  ++ Filter.applyRankFilter rd candidates "unranked" ≡ₚ candidates
  /\ (rankFilter <> "ranked" -> rankFilter <> "unranked" ->
      Filter.applyRankFilter rd candidates rankFilter = candidates).
Proof.
  split.
  - unfold Filter.applyRankFilter. simpl.
    induction candidates as [|c l IH]; [done|].
    rewrite !filter_cons.
    destruct (Js.isEmpty (Rank_xB (rd c))); simpl;
      repeat case_decide; try done.
    + rewrite <- Permutation_middle. by apply Permutation_skip.
    + by apply Permutation_skip.
  - intros Hr Hu. unfold Filter.applyRankFilter.
    destruct (String.eqb_spec rankFilter "unranked"); [done|].
    by destruct (String.eqb_spec rankFilter "ranked").
Qed.

(** X22.  [removeFromBatch] of a record of the current batch whose cell
    the grid holds frees that cell: it is among the free cells and no
    longer a key; no record with the id is left in the current batch, the
    number returned is the length of that batch, and nothing is decided:
    scores and undecided are as before. *)
Theorem removeFromBatch_frees_cell (s : Session) (i : string) (w : World)
    (d : nat) (c : Cell) :
  findById w i (currentBatchCandidates s) = Some d ->
  gridCell (rd w d) = Some c ->
  is_Some (cells (grid s) !! keyOf c) ->
  let out := removeFromBatch s i w in
  let s' := out.1.2 in
  c ∈ availableCells (grid s')
  /\ cells (grid s') !! keyOf c = None
  /\ Forall (fun l => ID_xA (rd out.2 l) <> i) (currentBatchCandidates s')
  /\ out.1.1 = Z.of_nat (length (currentBatchCandidates s'))
  /\ scores s' = scores s
  /\ undecided s' = undecided s.
Proof.
  intros Hd Hc [v Hk] out s'. subst s'.
  destruct out as [[n s1] w1] eqn:E. subst out. cbn [fst snd].
  unfold removeFromBatch in E. unfold mbind, M_bind, getWorld in E.
  cbv zeta in E. rewrite Hd, Hc in E.
  unfold releaseGridCell in E. fold (keyOf c) in E. rewrite Hk in E.
  set (s2 := set_currentBatchCandidates _ _) in E.
  assert (Hrd : rd (saveSession s2 w).2 = rd w) by (by apply rd_same_heap).
  destruct (saveSession s2 w) as [[] w2].
  simpl in Hrd, E. injection E as <- <- <-. rewrite Hrd. simpl.
  split; [|split; [|split]].
  - apply elem_of_app. right. destruct c. left.
  - apply lookup_delete_eq.
  - apply Forall_forall. intros l Hl.
    by apply list_elem_of_filter in Hl as [Hl _].
  - done.
Qed.

(** ** One cell per record *)

Section Placed.

Lemma placeCopy_some (g : Grid) (l : nat) (w : World) :
  availableCells g <> [] ->
  exists (idx : nat) (cell : Cell),
    availableCells g !! idx = Some cell
    /\ placeCopy g l w
       = ((mkGrid (<[keyOf cell := ID_xA (rd w l)]> (cells g))
                  (delete idx (availableCells g)) (cellSize g) (spacing g),
           length (heap w)),
          (alloc (withGridCell (rd w l) (Some cell)) (Math_random w).2).2).
Proof.
  intros Hne.
  destruct (assignGridCell_some (rd w l) g w Hne) as (idx & cell & Hc & E).
  exists idx, cell. split; [done|].
  unfold placeCopy. unfold mbind, M_bind, getWorld. by rewrite E.
Qed.

Lemma placeAll_cells (ls : list nat) :
  forall (g : Grid) (w : World),
    NoDup (availableCells g) ->
    Forall (fun l => (l < length (heap w))%nat) ls ->
    (length ls <= length (availableCells g))%nat ->
    let out := placeAll g ls w in
    exists cs : list Cell,
      length cs = length ls
      /\ availableCells g ≡ₚ cs ++ availableCells out.1.1
      /\ (forall k : string,
            k ∉ keyOf <$> cs -> cells out.1.1 !! k = cells g !! k)
      /\ (forall (j : nat) (l : nat) (c : Cell),
            ls !! j = Some l -> cs !! j = Some c ->
            heap out.2 !! (length (heap w) + j)%nat
            = Some (withGridCell (rd w l) (Some c))
            /\ cells out.1.1 !! keyOf c = Some (ID_xA (rd w l))).
Proof.
  induction ls as [|l ls IH]; intros g w Hnd Hlive Hlen out.
  { exists []. simpl. repeat split; try done. }
  destruct out as [[gz restz] wz] eqn:Eo. subst out. cbn [fst snd].
  apply Forall_cons in Hlive as [Hl Hls].
  assert (Hne : availableCells g <> []).
  { intros E. rewrite E in Hlen. simpl in Hlen. lia. }
  destruct (placeCopy_some g l w Hne) as (idx & cell & Hcell & E).
  cbn [placeAll] in Eo. unfold mbind at 1, M_bind at 1 in Eo.
  rewrite E in Eo.
  set (g1 := mkGrid (<[keyOf cell := ID_xA (rd w l)]> (cells g))
                    (delete idx (availableCells g)) (cellSize g) (spacing g))
    in *.
  set (w1 := (alloc (withGridCell (rd w l) (Some cell)) (Math_random w).2).2)
    in *.
  assert (Hh1 : heap w1 = heap w ++ [withGridCell (rd w l) (Some cell)])
    by reflexivity.
  assert (Hnd' : NoDup (cell :: delete idx (availableCells g)))
    by (by rewrite <- (delete_Permutation _ _ _ Hcell)).
  apply NoDup_cons in Hnd' as [Hnot Hnd1].
  change (delete idx (availableCells g)) with (availableCells g1)
    in Hnot, Hnd1.
  assert (Hls1 : Forall (fun l => (l < length (heap w1))%nat) ls).
  { eapply Forall_impl; [exact Hls|]. intros x Hx. simpl in Hx.
    rewrite Hh1, length_app. lia. }
  assert (Hlen1 : (length ls <= length (availableCells g1))%nat).
  { simpl. rewrite length_delete by eauto. simpl in Hlen. lia. }
  destruct (IH g1 w1 Hnd1 Hls1 Hlen1) as (cs & Hcs & Hperm & Hframe & Hbind).
  destruct (placeAll_spec ls g1 w1 Hls1) as (copies & Hcopies & _).
  unfold mbind, M_bind in Eo.
  destruct (placeAll g1 ls w1) as [[g2 rest] w2].
  cbn [fst snd] in Hperm, Hframe, Hbind, Hcopies.
  unfold mret, M_ret in Eo. injection Eo as <- <- <-.
  assert (Hcellcs : cell ∉ cs).
  { intros Hin. apply Hnot. rewrite Hperm. apply elem_of_app. by left. }
  assert (Hkeycs : keyOf cell ∉ keyOf <$> cs).
  { intros Hin. apply list_elem_of_fmap in Hin as (c' & Hk & Hc').
    apply keyOf_inj in Hk as ->. done. }
  exists (cell :: cs). split; [simpl; by rewrite Hcs|]. split; [|split].
  - etrans; [apply (delete_Permutation _ _ _ Hcell)|].
    simpl. apply Permutation_skip. exact Hperm.
  - intros k Hk. rewrite fmap_cons in Hk.
    apply not_elem_of_cons in Hk as [Hk0 Hk].
    rewrite (Hframe k Hk). simpl. by rewrite lookup_insert_ne.
  - intros [|j] l0 c Hl0 Hc; simpl in Hl0, Hc.
    + injection Hl0 as <-. injection Hc as <-. split.
      * rewrite Hcopies, Nat.add_0_r, lookup_app_l
          by (rewrite Hh1, length_app; simpl; lia).
        rewrite Hh1. by rewrite list_lookup_middle.
      * rewrite (Hframe _ Hkeycs). simpl. apply lookup_insert_eq.
    + destruct (Hbind j l0 c Hl0 Hc) as [Hheap Hkey].
      assert (Hl0' : (l0 < length (heap w))%nat).
      { rewrite Forall_forall in Hls. apply Hls.
        by eapply list_elem_of_lookup_2. }
      rewrite (rd_app w w1 _ l0 Hh1 Hl0') in Hheap, Hkey.
      split; [|exact Hkey].
      rewrite <- Hheap. f_equal. rewrite Hh1, length_app. simpl. lia.
Qed.

End Placed.

(** X23.  When the grid partitions its coordinates and has a free cell
    for every record of the next wave, [getNextBatchWithGridPositions]
    puts each record on a cell of its own: the cells are pairwise
    different, were free before, and the grid binds the key of each to the
    id of its record. *)
Theorem nextBatch_gives_each_its_own_cell (dim : Z) (s : Session)
    (w : World) :
  partitions dim (grid s) ->
  Forall (fun l => (l < length (heap w))%nat) (selectedCandidates s) ->
  let todo :=
    slice0 (batchSize s)
           (filter (unprocessed w s) (selectedCandidates s)) in
  (length todo <= length (availableCells (grid s)))%nat ->
  let out := getNextBatchWithGridPositions s w in
  exists cs : list Cell,
    NoDup cs
    /\ cs ⊆ availableCells (grid s)
    /\ Forall2 (fun l' c =>
         gridCell (rd out.2 l') = Some c
         /\ cells (grid out.1.2) !! keyOf c = Some (ID_xA (rd out.2 l')))
         out.1.1 cs.
Proof.
  intros Hp Hlive todo Hfits out.
  destruct out as [[batch s'] w'] eqn:E. subst out. cbn [fst snd].
  assert (Htodo : Forall (fun l => (l < length (heap w))%nat) todo).
  { apply Forall_forall. intros l Hl.
    rewrite Forall_forall in Hlive. apply Hlive.
    unfold todo, slice0 in Hl.
    destruct (_ <? 0); apply elem_of_take in Hl as (i & Hi & _);
      apply list_elem_of_lookup_2 in Hi;
      by apply list_elem_of_filter in Hi as [_ Hi]. }
  apply partitions_spec in Hp as (Hnd & _).
  unfold getNextBatchWithGridPositions in E.
  unfold mbind, M_bind, getWorld in E. fold todo in E.
  destruct (placeAll_cells todo (grid s) w Hnd Htodo Hfits)
    as (cs & Hlen & Hperm & _ & Hbind).
  destruct (placeAll_spec todo (grid s) w Htodo) as (copies & Hh & Hb & _).
  destruct (placeAll (grid s) todo w) as [[g batch0] w1].
  cbn [fst snd] in Hlen, Hperm, Hbind, Hh, Hb.
  set (s1 := set_currentBatchCandidates _ _) in E.
  assert (Hrd : rd (saveSession s1 w1).2 = rd w1) by (by apply rd_same_heap).
  destruct (saveSession s1 w1) as [[] w2]. simpl in Hrd, E.
  injection E as <- <- <-. rewrite Hrd. simpl.
  exists cs. split; [|split].
  - rewrite Hperm in Hnd. by apply NoDup_app in Hnd as [Hcs _].
  - intros c Hc. rewrite Hperm. apply elem_of_app. by left.
  - rewrite Hb. apply Forall2_same_length_lookup.
    split; [by rewrite length_seq|].
    intros j l' c Hl' Hc. apply lookup_seq in Hl' as [-> Hj].
    destruct (lookup_lt_is_Some_2 todo j Hj) as [l Hl].
    destruct (Hbind j l c Hl Hc) as [Hheap Hkey].
    unfold rd at 1 2. rewrite Hheap. simpl.
    split; [done|]. rewrite Hkey. by destruct (rd w l).
Qed.

(** ** The recorded configuration *)

Section Config.
Context (all : list nat) (uo : option UserOptions) (w : World).

Lemma createSession_config (s : Session) :
  (createSession all uo w).1 = inr s ->
  exists now : Z,
    selectedCandidates s
    = Shuffle.filterCandidates (rd w) now all
        (seededOptions (mergeOptions uo) w)
    /\ optionsOf (config s) (batchSize s)
       = seededOptions (mergeOptions uo) w
    /\ heap (createSession all uo w).2 = heap w.
Proof.
  unfold createSession, seededOptions.
  set (o := mergeOptions uo).
  destruct (String.eqb (Opt.selectionMethod o) "random"
            && negb (truthyNum (Opt.randomSeed o))) eqn:Hseed.
  - run_M. unfold filterCandidates. run_M.
    apply andb_true_iff in Hseed as [Hm _]. rewrite Hm. simpl.
    norm_rd.
    match goal with |- context [Shuffle.filterCandidates ?r ?n all ?oo] =>
      set (sel := Shuffle.filterCandidates r n all oo);
      intros Hs; exists n end.
    destruct sel as [|x sel'] eqn:Hsel; simpl in Hs; [done|].
    unfold saveSession in Hs |- *. run_M. injection Hs as <-. simpl.
    done.
  - run_M. unfold filterCandidates. run_M.
    destruct (String.eqb (Opt.selectionMethod o) "random"
              && negb (bool_decide (is_Some (Opt.randomSeed o)))) eqn:Hs2.
    { exfalso. apply andb_true_iff in Hs2 as [Hm Hn].
      rewrite Hm in Hseed. simpl in Hseed.
      destruct (Opt.randomSeed o) as [z|]; simpl in *; done. }
    run_M. norm_rd.
    match goal with |- context [Shuffle.filterCandidates ?r ?n all ?oo] =>
      set (sel := Shuffle.filterCandidates r n all oo);
      intros Hs; exists n end.
    destruct sel as [|x sel'] eqn:Hsel; simpl in Hs; [done|].
    unfold saveSession in Hs |- *. run_M. injection Hs as <-. simpl.
    by destruct o.
Qed.

End Config.

(** X24.  The [config] of a session reproduces its selection: running
    [filterCandidates] again on the same dataset with the options that
    [createSession] recorded gives the selected records in the same order,
    whatever the clock says then; a random selection without a seed is
    repeated because the seed drawn from the clock is recorded. *)
Theorem config_reproduces_selection (all : list nat)
    (uo : option UserOptions) (w : World) (s : Session) (w' : World)
    (now' : Z) :
  createSession all uo w = (inr s, w') ->
  Shuffle.filterCandidates (rd w') now' all
    (optionsOf (config s) (batchSize s))
  = selectedCandidates s.
Proof.
  intros E.
  destruct (createSession_config all uo w s) as (now & Hsel & Ho & Hh).
  { by rewrite E. }
  rewrite E in Hh. simpl in Hh.
  rewrite Hsel, Ho, (rd_same_heap w w' Hh).
  destruct (seededOptions_fields (mergeOptions uo) w)
    as (_ & Hm & _ & _ & _ & Hseed).
  unfold Shuffle.filterCandidates.
  rewrite (ordered_clock_free (rd w) now' now); [done|].
  intros Hr. apply Hseed. by rewrite <- Hm.
Qed.

(** ** Roots of the current batch *)

Section Roots.

Lemma filter_none {A} (P : A -> Prop) `{forall x, Decision (P x)}
    (l : list A) :
  Forall (fun x => ~ P x) l -> filter P l = [].
Proof.
  induction 1 as [|x l Hx Hl IH]; [done|].
  by rewrite filter_cons, decide_False.
Qed.

Lemma countUp_keys (m : list (string * RootEntry)) (key : string) :
  (countUp key <$> m).*1 = m.*1.
Proof.
  rewrite <- list_fmap_compose. apply list_fmap_ext. intros i [k e] _.
  unfold countUp. simpl. by case_bool_decide.
Qed.

Lemma bumpRoot_eq (m : list (string * RootEntry)) (slot : string * string) :
  slot.1 <> "" ->
  bumpRoot m slot
  = countUp (rootKey slot)
      <$> (if bool_decide (rootKey slot ∈ m.*1) then m
           else m ++ [(rootKey slot, mkRootEntry slot.1 slot.2 0)]).
Proof.
  intros Hne. unfold bumpRoot. destruct slot as [r c]. simpl in *.
  by destruct r.
Qed.

Lemma rootsOf_bump (slots : list (string * string))
    (m : list (string * RootEntry)) (slot : string * string) :
  slot.1 <> "" ->
  rootsOf slots m -> rootsOf (slots ++ [slot]) (bumpRoot m slot).
Proof.
  intros Hne (Hnd & Hent & Hcov). rewrite bumpRoot_eq by done.
  set (key := rootKey slot).
  set (m1 := if bool_decide (key ∈ m.*1) then m
             else m ++ [(key, mkRootEntry slot.1 slot.2 0)]).
  assert (H1 : NoDup m1.*1
    /\ (forall k e, (k, e) ∈ m1 ->
          k = entryKey e
          /\ (re_root e, re_cls e) ∈ slots ++ [slot]
          /\ re_count e
             = Z.of_nat (length (filter (fun s0 => rootKey s0 = k) slots)))
    /\ key ∈ m1.*1
    /\ (forall s0, s0 ∈ slots -> rootKey s0 ∈ m1.*1)).
  { unfold m1. case_bool_decide as Hin.
    - split; [done|]. split; [|split; [done|done]].
      intros k e Hke. destruct (Hent k e Hke) as (Hk & Hs & Hc).
      split; [done|]. split; [|done]. apply elem_of_app. by left.
    - split; [|split; [|split]].
      + rewrite fmap_app. apply NoDup_app. split; [done|].
        split; [|apply NoDup_singleton].
        intros k Hk Hk'. apply list_elem_of_singleton in Hk'. by subst.
      + intros k e Hke. apply elem_of_app in Hke as [Hke|Hke].
        * destruct (Hent k e Hke) as (Hk & Hs & Hc).
          split; [done|]. split; [|done]. apply elem_of_app. by left.
        * apply list_elem_of_singleton in Hke. injection Hke as -> ->.
          unfold entryKey. simpl.
          split; [by destruct slot|]. split.
          { apply elem_of_app. right. destruct slot. simpl. left. }
          rewrite filter_none; [done|].
          apply Forall_forall. intros s0 Hs0 Hk. apply Hin.
          fold key in Hk. rewrite <- Hk. by apply Hcov.
      + rewrite fmap_app. apply elem_of_app. right. simpl. left.
      + intros s0 Hs0. rewrite fmap_app. apply elem_of_app. left.
        by apply Hcov. }
  destruct H1 as (Hnd1 & Hent1 & Hkey1 & Hcov1).
  split; [by rewrite countUp_keys|]. split.
  - intros k e Hke. apply list_elem_of_fmap in Hke as ([k0 e0] & Heq & Hin0).
    destruct (Hent1 k0 e0 Hin0) as (Hk0 & Hs0 & Hc0).
    rewrite filter_app, length_app, filter_cons, filter_nil.
    unfold countUp in Heq. simpl in Heq. fold key.
    case_bool_decide as Hk; injection Heq as -> ->; unfold entryKey in *;
      simpl; (split; [done|]); (split; [done|]).
    + rewrite decide_True by done. simpl. lia.
    + rewrite decide_False by done. simpl. lia.
  - intros s0 Hs0. rewrite countUp_keys.
    apply elem_of_app in Hs0 as [Hs0|Hs0]; [by apply Hcov1|].
    apply list_elem_of_singleton in Hs0. by subst.
Qed.

Lemma rootsOf_fold (ss : list (string * string)) :
  forall (slots : list (string * string)) (m : list (string * RootEntry)),
    rootsOf slots m ->
    rootsOf (slots ++ filter (fun slot => slot.1 <> "") ss)
            (foldl bumpRoot m ss).
Proof.
  induction ss as [|s0 ss IH]; intros slots m Hm.
  { simpl. by rewrite app_nil_r. }
  cbn [foldl]. rewrite filter_cons.
  destruct (decide (s0.1 <> "")) as [Hne|He].
  - specialize (IH (slots ++ [s0]) (bumpRoot m s0)
                  (rootsOf_bump slots m s0 Hne Hm)).
    by rewrite <- app_assoc in IH.
  - assert (H0 : s0.1 = "") by (by destruct (decide (s0.1 = ""))).
    unfold bumpRoot at 2. rewrite H0. by apply IH.
Qed.

End Roots.

(** X25.  [getCurrentBatchRoots] counts the root slots of the current
    batch by key [root + '|' + cls]: it changes nothing, its entries have
    pairwise different keys, each entry carries a root and class that some
    record of the batch has in one slot, its count is the number of slots
    with the entry's key, and every slot that carries a root has its key
    among the entries. *)
Theorem getCurrentBatchRoots_counts (session : Session) (w : World) :
  let out := (getCurrentBatchRoots session w).1 in
  let slots := batchSlots w session in
  (getCurrentBatchRoots session w).2 = w
  /\ NoDup (entryKey <$> out)
  /\ (forall e, e ∈ out ->
        (re_root e, re_cls e) ∈ slots
        /\ re_count e
           = Z.of_nat (length (filter (fun slot => rootKey slot = entryKey e)
                                      slots)))
  /\ (forall slot, slot ∈ slots -> rootKey slot ∈ entryKey <$> out).
Proof.
  simpl. split; [done|].
  unfold getCurrentBatchRoots, batchSlots. simpl.
  set (ss := concat _).
  destruct (rootsOf_fold ss [] []) as (Hnd & Hent & Hcov).
  { split; [constructor|]. split; [|by intros ? ?%elem_of_nil].
    by intros ? ? ?%elem_of_nil. }
  simpl in Hnd, Hent, Hcov.
  set (m := foldl bumpRoot [] ss) in *.
  assert (Hkeys : entryKey <$> m.*2 = m.*1).
  { rewrite <- list_fmap_compose. apply list_fmap_ext. intros i [k e] Hi.
    simpl. symmetry. apply (Hent k e). by eapply list_elem_of_lookup_2. }
  rewrite Hkeys. split; [done|]. split; [|done].
  intros e He. apply list_elem_of_fmap in He as ([k e0] & -> & Hin).
  destruct (Hent k e0 Hin) as (Hk & Hs & Hc). simpl.
  split; [done|]. by rewrite <- Hk.
Qed.

(** ** The properties at concrete runs *)

Ltac by_eval := refine (bool_decide_unpack _ _); vm_compute; exact I.


(** X5 at the first wave of the session over two records. *)
Lemma nextBatch_hands_out_copies_witness :
  (getNextBatchWithGridPositions startedRun.1 startedRun.2).1.1
  = [2%nat; 3%nat]
  /\ take 2 (heap (getNextBatchWithGridPositions startedRun.1
                                                 startedRun.2).2)
     = heap startedRun.2.
Proof.
  destruct (nextBatch_hands_out_copies startedRun.1 startedRun.2)
    as (Hh & Hb & _).
  - by_eval.
  - split; [rewrite Hb; vm_compute; reflexivity | exact Hh].
Defined.

(** X6 at a run that places a wave, scores, removes and skips. *)
Lemma session_grid_partition_witness :
  Forall (fun s' => partitions GRID_SIZE (grid s'))
         (trace demoOps startedRun.1 startedRun.2).
Proof.
  apply session_grid_partition.
  - exists []. split; [vm_compute; reflexivity|]. vm_compute. reflexivity.
  - repeat constructor.
Defined.

(** X7 at the replacement of "A" in the first wave. *)
Lemma replaceInGrid_leaves_cell_listed_witness :
  exists c : Cell,
    c ∈ availableCells (grid (replaceInGrid placedRun.1 "A" placedRun.2).1.2)
    /\ is_Some (cells (grid (replaceInGrid placedRun.1 "A" placedRun.2).1.2)
                !! keyOf c).
Proof.
  eassert (Hd : findById placedRun.2 "A" (currentBatchCandidates placedRun.1)
                = Some _) by (vm_compute; reflexivity).
  match type of Hd with _ = Some ?d =>
    eassert (Hc : gridCell (rd placedRun.2 d) = Some _)
      by (vm_compute; reflexivity) end.
  eexists.
  destruct (replaceInGrid_leaves_cell_listed placedRun.1 "A" placedRun.2
              _ _ Hd Hc) as (Hin & Hkey & _).
  - vm_compute. eauto.
  - vm_compute. eauto.
  - split; [exact Hin | exact Hkey].
Defined.

(** X11 at a selection that fits in one batch. *)
Lemma advance_iff_next_window_witness :
  (advanceToNextBatch startedRun.1 startedRun.2).1.1 = false
  /\ advanceToNextBatch startedRun.1 startedRun.2
     = ((false, startedRun.1), startedRun.2).
Proof.
  destruct (advance_iff_next_window startedRun.1 startedRun.2)
    as (_ & _ & Hno).
  - vm_compute. reflexivity.
  - vm_compute. discriminate.
  - assert (Hf : (advanceToNextBatch startedRun.1 startedRun.2).1.1 = false)
      by (vm_compute; reflexivity).
    split; [exact Hf | exact (Hno Hf)].
Defined.

(** X13 at the default options. *)
Lemma top_ai_selects_highest_witness :
  selectsByRank (rd twoRecords) (fun x y => y <= x)
    (Filter.eligible (rd twoRecords) [0%nat; 1%nat] DEFAULT_SESSION_OPTIONS)
    (Shuffle.filterCandidates (rd twoRecords) 0 [0%nat; 1%nat]
       DEFAULT_SESSION_OPTIONS).
Proof.
  apply top_ai_selects_highest. reflexivity.
Defined.

(** X14 at the default options with the method changed. *)
Lemma bottom_ai_selects_lowest_witness :
  selectsByRank (rd twoRecords) (fun x y => x <= y)
    (Filter.eligible (rd twoRecords) [0%nat; 1%nat] bottomOptions)
    (Shuffle.filterCandidates (rd twoRecords) 0 [0%nat; 1%nat]
       bottomOptions).
Proof.
  apply bottom_ai_selects_lowest. reflexivity.
Defined.

(** X16 at one batch of nine over two records. *)
Lemma batches_cover_selection_witness :
  concat (map (fun i : nat =>
                 (getCurrentBatch
                    (set_currentBatchIndex startedRun.1 (Z.of_nat i))
                    startedRun.2).1)
              (seq 0 1))
  = filter (unprocessed startedRun.2 startedRun.1)
           (selectedCandidates startedRun.1).
Proof.
  apply batches_cover_selection.
  - vm_compute. reflexivity.
  - vm_compute. discriminate.
Defined.

(** X17 at two records of which "B" is on display. *)
Lemma getFilteredBatch_spec_witness :
  Z.of_nat (length (getFilteredBatch [0%nat; 1%nat]
                      (Flt.mkFilters None None None None None)
                      (Some ["B"]) createGrid (Some 6) twoRecords).1.1)
  <= 6
  /\ Forall (fun l' =>
       ID_xA (rd (getFilteredBatch [0%nat; 1%nat]
                    (Flt.mkFilters None None None None None)
                    (Some ["B"]) createGrid (Some 6) twoRecords).2 l')
       ∉ ["B"])
       (getFilteredBatch [0%nat; 1%nat]
          (Flt.mkFilters None None None None None)
          (Some ["B"]) createGrid (Some 6) twoRecords).1.1.
Proof.
  destruct (getFilteredBatch_spec [0%nat; 1%nat]
              (Flt.mkFilters None None None None None)
              (Some ["B"]) createGrid (Some 6) twoRecords)
    as (Hlen & Hall & _).
  - by_eval.
  - split; [apply Hlen; vm_compute; discriminate|].
    eapply Forall_impl; [exact Hall|]. intros l' [Hid _]. exact Hid.
Defined.

(** X18 at the first wave: both placed records carry the root "", the
    mass score reaches them and their cells are free again. *)
Lemma massScore_frees_cells_witness :
  massTargets placedRun.2 placedRun.1 "root" "" None = ["B"; "A"]
  /\ size (cells (grid placedRun.1)) = 2%nat
  /\ partitions GRID_SIZE
       (grid (massScoreByAttribute placedRun.1 "root" "" (Js.VNum 1) None
                placedRun.2).1.2)
  /\ cells (grid (massScoreByAttribute placedRun.1 "root" "" (Js.VNum 1) None
                    placedRun.2).1.2) = ∅.
Proof.
  assert (Ht : massTargets placedRun.2 placedRun.1 "root" "" None
               = ["B"; "A"]) by (vm_compute; reflexivity).
  split; [exact Ht|]. split; [vm_compute; reflexivity|].
  destruct (massScore_frees_cells GRID_SIZE placedRun.1 "root" ""
              (Js.VNum 1) None placedRun.2) as [Hp Hc].
  - exists [mkCell 0 0; mkCell 0 1]. split; [by_eval|].
    vm_compute. reflexivity.
  - split; [exact Hp|]. apply map_eq. intros k. rewrite lookup_empty.
    destruct (cells _ !! k) as [i|] eqn:E; [|done].
    apply Hc in E as [E Hi]. exfalso. rewrite Ht in Hi.
    assert (Hin : i = "B" \/ i = "A").
    { revert E. generalize k i.
      refine (bool_decide_unpack _ _). vm_compute. exact I. }
    destruct Hin as [->| ->]; apply Hi; [left | right; left].
Defined.

(** X22 at the removal of "A" from the first wave. *)
Lemma removeFromBatch_frees_cell_witness :
  exists c : Cell,
    c ∈ availableCells (grid (removeFromBatch placedRun.1 "A"
                                              placedRun.2).1.2)
    /\ cells (grid (removeFromBatch placedRun.1 "A" placedRun.2).1.2)
       !! keyOf c = None.
Proof.
  eassert (Hd : findById placedRun.2 "A" (currentBatchCandidates placedRun.1)
                = Some _) by (vm_compute; reflexivity).
  match type of Hd with _ = Some ?d =>
    eassert (Hc : gridCell (rd placedRun.2 d) = Some _)
      by (vm_compute; reflexivity) end.
  eexists.
  destruct (removeFromBatch_frees_cell placedRun.1 "A" placedRun.2
              _ _ Hd Hc) as (Hin & Hkey & _).
  - vm_compute. eauto.
  - split; [exact Hin | exact Hkey].
Defined.

(** X23 at the first wave of the session over two records. *)
Lemma nextBatch_gives_each_its_own_cell_witness :
  exists cs : list Cell,
    NoDup cs
    /\ Forall2 (fun l' c =>
         gridCell (rd (getNextBatchWithGridPositions startedRun.1
                         startedRun.2).2 l') = Some c
         /\ cells (grid (getNextBatchWithGridPositions startedRun.1
                           startedRun.2).1.2) !! keyOf c
            = Some (ID_xA (rd (getNextBatchWithGridPositions startedRun.1
                                 startedRun.2).2 l')))
         (getNextBatchWithGridPositions startedRun.1 startedRun.2).1.1 cs.
Proof.
  destruct (nextBatch_gives_each_its_own_cell GRID_SIZE startedRun.1
              startedRun.2) as (cs & Hnd & _ & Hall).
  - exists []. split; [vm_compute; reflexivity|]. vm_compute. reflexivity.
  - by_eval.
  - vm_compute. lia.
  - exists cs. split; [exact Hnd | exact Hall].
Defined.

(** X24 at the session over two records. *)
Lemma config_reproduces_selection_witness :
  match createSession [0%nat; 1%nat] None twoRecords with
  | (inr s, w') =>
      Shuffle.filterCandidates (rd w') 0 [0%nat; 1%nat]
        (optionsOf (config s) (batchSize s))
      = selectedCandidates s
  | (inl _, _) => False
  end.
Proof.
  eassert (E : createSession [0%nat; 1%nat] None twoRecords = (inr _, _))
    by (vm_compute; reflexivity).
  pose proof (config_reproduces_selection _ _ _ _ _ 0 E) as H.
  rewrite E. exact H.
Defined.
